(** * spatialdata: extent computation, transformation registry and raster unpadding

    A shallow embedding of

    - [src/src/spatialdata/_core/data_extent.py] (bounding boxes of shapes,
      points and whole datasets, pushed through the registered
      transformation of an element), and
    - [src/spatialdata/utils.py] ([unpad_raster] on a single-scale raster
      and the comparison of directory trees),

    together with the properties the specification states about them and
    further properties read off the code.  The
    transformations themselves and their serialization are not among the
    source files; they are modelled from the specification, and the proofs
    about the extent do not depend on what a transformation does to a point.

    Numbers.  Coordinates and radii are NumPy floats in the program.  The
    functions embedded here only compare them, take minima and maxima, and
    add or subtract them; a coordinate is modelled as an integer or NaN
    ([number]), so that the arithmetic on numbers is exact and a NaN, which
    pandas returns for the minimum of a column without numbers, is a value
    that the code passes on.  The pixels of a raster are added up in the
    dtype of the raster and the sum is compared with zero up to a tolerance;
    that arithmetic is a parameter of the embedding ([dtype]).

    Exceptions.  A Python function that may raise returns a [result]; the
    constructors of [exn] are the exception classes the source raises, and
    the payload of [ValueError] tells the raise sites apart. *)

From Stdlib Require Import ZArith List String Ascii Lia DecimalZ DecimalPos.
From stdpp Require Import gmap strings list.
Import ListNotations.

Local Open Scope list_scope.

(* ------------------------------------------------------------------ *)
(** ** Exceptions and results *)

Inductive value_error : Type :=
| object_type_not_supported
    (* data_extent.py:90 "The object type is not supported." *)
| no_element_in_coordinate_system (coordinate_system : string)
    (* data_extent.py:120 "The SpatialData object does not contain any
       element in the coordinate system ..." *)
| element_lacks_coordinate_system (coordinate_system : string)
    (* data_extent.py:205 "The element does not contain any coordinate
       system named ..." *)
| transformation_not_found (coordinate_system : string)
    (* get_transformation(element, to_coordinate_system=...) on a missing key *)
| shape_of_passed_values
    (* pandas: the rows handed to DataFrame do not fit the column names *)
| not_point_geometries
    (* geopandas: x / y / z asked of a geometry that is not a Point *)
| min_of_empty_sequence
    (* min() / max() / np.min of nothing *)
| not_in_list (x : string).
    (* list.remove(x): x not in list *)

Inductive exn : Type :=
| ValueError (why : value_error)
| AssertionError (msg : string)
| NotImplementedError
| IndexError
| KeyError (key : string)
| TypeError (msg : string).

Inductive result (A : Type) : Type :=
| Ok (a : A)
| Raise (e : exn).
Arguments Ok {A} a.
Arguments Raise {A} e.

Definition bind {A B : Type} (c : result A) (k : A -> result B) : result B :=
  match c with
  | Ok a => k a
  | Raise e => Raise e
  end.

Notation "'let*' x ':=' c 'in' k" := (bind c (fun x => k))
  (at level 10, x name, c at level 100, k at level 200).
Notation "'let*' ' p ':=' c 'in' k" := (bind c (fun x => match x with p => k end))
  (at level 10, p pattern, c at level 100, k at level 200).

(** [[f(x) for x in xs]], stopping at the first exception. *)
Fixpoint traverse {A B : Type} (f : A -> result B) (xs : list A) : result (list B) :=
  match xs with
  | [] => Ok []
  | x :: xs' =>
      let* y := f x in
      let* ys := traverse f xs' in
      Ok (y :: ys)
  end.

(* ------------------------------------------------------------------ *)
(** ** Coordinates

    A coordinate as NumPy and pandas hold it: a number or NaN.  The numbers
    are taken to be integers, on which the arithmetic of the code is exact;
    NaN is a value like any other, which the code passes on. *)

Inductive number : Type :=
| finite (v : Z)
| nan.

#[global] Instance number_eq_dec : EqDecision number.
Proof. solve_decision. Defined.

(** [a + b], [a - b], [a * b]: NaN as soon as an operand is. *)
Definition number_add (a b : number) : number :=
  match a, b with
  | finite x, finite y => finite (x + y)
  | _, _ => nan
  end.

Definition number_sub (a b : number) : number :=
  match a, b with
  | finite x, finite y => finite (x - y)
  | _, _ => nan
  end.

Definition number_mul (a b : number) : number :=
  match a, b with
  | finite x, finite y => finite (x * y)
  | _, _ => nan
  end.

(** [a < b]: false as soon as an operand is NaN. *)
Definition number_lt (a b : number) : bool :=
  match a, b with
  | finite x, finite y => (x <? y)%Z
  | _, _ => false
  end.

(** The entries that are numbers. *)
Definition finite_entries (l : list number) : list Z :=
  omap (fun n => match n with finite v => Some v | nan => None end) l.

(* ------------------------------------------------------------------ *)
(** ** Minima and maxima *)

(** [min(l)] / [max(l)] of Python: [ValueError] on an empty argument;
    otherwise the first entry is the candidate, and a later entry replaces
    the candidate when it compares less / greater.  A comparison with NaN is
    false: a NaN in first place stays, a NaN further on is passed over. *)
Definition py_min (l : list number) : result number :=
  match l with
  | [] => Raise (ValueError min_of_empty_sequence)
  | x :: xs => Ok (fold_left (fun m v => if number_lt v m then v else m) xs x)
  end.

Definition py_max (l : list number) : result number :=
  match l with
  | [] => Raise (ValueError min_of_empty_sequence)
  | x :: xs => Ok (fold_left (fun m v => if number_lt m v then v else m) xs x)
  end.

(** [np.min] / [np.max] of NumPy along an axis: [ValueError] on an empty
    argument, NaN as soon as an entry is NaN, the least / greatest entry
    otherwise. *)
Definition np_min (l : list number) : result number :=
  match l with
  | [] => Raise (ValueError min_of_empty_sequence)
  | x :: xs => Ok (fold_left (fun m v => match m, v with
                                         | finite a, finite b => finite (Z.min a b)
                                         | _, _ => nan
                                         end) xs x)
  end.

Definition np_max (l : list number) : result number :=
  match l with
  | [] => Raise (ValueError min_of_empty_sequence)
  | x :: xs => Ok (fold_left (fun m v => match m, v with
                                         | finite a, finite b => finite (Z.max a b)
                                         | _, _ => nan
                                         end) xs x)
  end.

(** [Series.min()] / [Series.max()] of pandas and dask, which skip NaN: the
    least / greatest entry that is a number; NaN for a series without such
    an entry, a series without rows among them. *)
Definition Series_min (l : list number) : number :=
  match finite_entries l with
  | [] => nan
  | x :: xs => finite (fold_left Z.min xs x)
  end.

Definition Series_max (l : list number) : number :=
  match finite_entries l with
  | [] => nan
  | x :: xs => finite (fold_left Z.max xs x)
  end.

(* ------------------------------------------------------------------ *)
(** ** Transformations

    Modelled from the spec: the module [spatialdata.transformations] is not
    among the source files.  Section 3 of the specification lists the
    variants and their parameters; [utils.py] builds [Translation(values,
    axes=...)] and [Sequence([...])]. *)

Unset Elimination Schemes.
Inductive BaseTransformation : Type :=
| Identity
| MapAxis (map_axis : list (string * string))
| Translation (translation : list Z) (axes : list string)
| Scale (scale : list Z) (axes : list string)
| Affine (matrix : list (list Z)) (input_axes output_axes : list string)
| Rotation (matrix : list (list Z)) (axes : list string)
| Sequence (transformations : list BaseTransformation).
Set Elimination Schemes.

(** A point with named coordinates: one row of a points table together with
    the names of its columns. *)
Definition NamedPoint : Type := list (string * number).

Fixpoint coordinate (ax : string) (p : NamedPoint) : result number :=
  match p with
  | [] => Raise (KeyError ax)
  | (a, v) :: p' => if String.eqb a ax then Ok v else coordinate ax p'
  end.

(** Modelled from the spec: what each variant does to a point (section 3 and
    section 4.1 of the specification).  Coordinates are addressed by axis
    name; [Translation] and [Scale] leave the axes they do not name
    untouched; an [Affine] matrix is in homogeneous form, one row per output
    axis and a last row for the constant 1; a [Sequence] applies its first
    element first. *)
Module Transformations.

(** The parameter a [Translation] or [Scale] holds for axis [ax]. *)
Definition parameter_of (axes : list string) (vs : list Z) (default : Z) (ax : string) : Z :=
  match list_find (fun c => fst c = ax) (combine axes vs) with
  | Some (_, c) => snd c
  | None => default
  end.

Definition dot (r : list Z) (xs : list number) : number :=
  fold_right number_add (finite 0) (zip_with (fun m x => number_mul (finite m) x) r xs).

Definition matmul (m : list (list Z)) (xs : list number) : list number :=
  map (fun r => dot r xs) m.

Fixpoint transform_points (t : BaseTransformation) (p : NamedPoint) : result NamedPoint :=
  match t with
  | Identity => Ok p
  | MapAxis map_axis =>
      traverse (fun oi => let* v := coordinate (snd oi) p in Ok (fst oi, v)) map_axis
  | Translation translation axes =>
      Ok (map (fun c => (fst c, number_add (snd c)
                                  (finite (parameter_of axes translation 0 (fst c))))) p)
  | Scale scale axes =>
      Ok (map (fun c => (fst c, number_mul (snd c)
                                  (finite (parameter_of axes scale 1 (fst c))))) p)
  | Affine matrix input_axes output_axes =>
      let* xs := traverse (fun ax => coordinate ax p) input_axes in
      Ok (combine output_axes (matmul matrix (xs ++ [finite 1])))
  | Rotation matrix axes =>
      let* xs := traverse (fun ax => coordinate ax p) axes in
      Ok (combine axes (matmul matrix xs))
  | Sequence transformations =>
      (fix apply_all (ts : list BaseTransformation) (q : NamedPoint) : result NamedPoint :=
         match ts with
         | [] => Ok q
         | t' :: ts' => let* q' := transform_points t' q in apply_all ts' q'
         end) transformations p
  end.

End Transformations.

(* ------------------------------------------------------------------ *)
(** ** pandas / dask data frames

    A data frame is the list of its column names and its rows, each row
    holding one value per column. *)

Record DataFrame : Type := {
  columns : list string;
  df_rows : list (list number)
}.

(** The values of the [j]-th column, one per row. *)
Definition column_values (df : DataFrame) (j : nat) : list number :=
  map (fun r => nth j r nan) (df_rows df).

(** The rows as points with named coordinates. *)
Definition named_rows (df : DataFrame) : list NamedPoint :=
  map (combine (columns df)) (df_rows df).

(** [pd.DataFrame(data, columns=names)] for a rectangular [data] given row by
    row: pandas raises [ValueError] unless every row has one value per name. *)
Definition pd_DataFrame (data : list (list number)) (names : list string) : result DataFrame :=
  if forallb (fun r => Nat.eqb (length r) (length names)) data
  then Ok {| columns := names; df_rows := data |}
  else Raise (ValueError shape_of_passed_values).

(** [df[ax]]: the values of the column named [ax]. *)
Definition getitem (df : DataFrame) (ax : string) : result (list number) :=
  match list_find (fun name => name = ax) (columns df) with
  | Some (j, _) => Ok (column_values df j)
  | None => Raise (KeyError ax)
  end.

(** [df.min().to_numpy()] / [df.max().to_numpy()]: the minimum / maximum of
    every column, in column order. *)
Definition DataFrame_min (df : DataFrame) : list number :=
  map (fun j => Series_min (column_values df j)) (seq 0 (length (columns df))).

Definition DataFrame_max (df : DataFrame) : list number :=
  map (fun j => Series_max (column_values df j)) (seq 0 (length (columns df))).

(* ------------------------------------------------------------------ *)
(** ** Spatial elements *)

(** The registry every element carries: coordinate-system name to
    transformation ([get_transformation(element, get_all=True)]). *)
Abbreviation Transformations := (gmap string BaseTransformation).

(** shapely geometries of a shapes element.  A polygon is the list of the
    vertices of its rings, a multipolygon the list of its polygons. *)
Inductive Geometry : Type :=
| Point (x y : Z) (z : option Z)
| Polygon (coords : list (Z * Z))
| MultiPolygon (polygons : list (list (Z * Z))).

(** A shapes element: the [geometry] column, the [radius] column when the
    frame has one, and the registry. *)
Record GeoDataFrame : Type := {
  geometry : list Geometry;
  radius : option (list Z);
  gdf_transform : Transformations
}.

(** A points element: a (dask) data frame and the registry. *)
Record DaskDataFrame : Type := {
  ddf_frame : DataFrame;
  ddf_transform : Transformations
}.

(** A raster: named dimensions, the extent of each, the pixel at each index
    vector, and the registry. *)
Record SpatialImage : Type := {
  dims : list string;
  shape : list nat;
  values : list nat -> Z;
  si_transform : Transformations
}.

Record MultiscaleSpatialImage : Type := {
  scales : list SpatialImage;
  msi_transform : Transformations
}.

Inductive SpatialElement : Type :=
| shapes_element (e : GeoDataFrame)
| points_element (e : DaskDataFrame)
| image_element (e : SpatialImage)
| multiscale_image_element (e : MultiscaleSpatialImage).

(** [SpatialData._gen_elements_values()]: the elements, in iteration order. *)
Record SpatialData : Type := {
  _gen_elements_values : list SpatialElement
}.

(** Modelled from the spec: [get_transformation] is not among the source
    files; section 6 of the specification gives its contract.  With
    [get_all=True] it returns the whole registry of the element. *)
Definition get_all_transformations (element : SpatialElement) : Transformations :=
  match element with
  | shapes_element e => gdf_transform e
  | points_element e => ddf_transform e
  | image_element e => si_transform e
  | multiscale_image_element e => msi_transform e
  end.

(** [get_transformation(element, to_coordinate_system=cs)]: the one
    transformation registered under [cs], "erroring if absent". *)
Definition get_transformation (element : SpatialElement) (to_coordinate_system : string)
  : result BaseTransformation :=
  match get_all_transformations element !! to_coordinate_system with
  | Some t => Ok t
  | None => Raise (ValueError (transformation_not_found to_coordinate_system))
  end.

(** [coordinate_system in list(transformations.keys())] *)
Definition has_coordinate_system (element : SpatialElement) (coordinate_system : string) : bool :=
  bool_decide (is_Some (get_all_transformations element !! coordinate_system)).

Definition BoundingBoxDescription : Type := list number * list number * list string.

Definition assert (b : bool) (msg : string) : result unit :=
  if b then Ok tt else Raise (AssertionError msg).

(** [series.iloc[0]] *)
Definition iloc0 {A : Type} (l : list A) : result A :=
  match l with
  | [] => Raise IndexError
  | a :: _ => Ok a
  end.

Definition isinstance_Point (g : Geometry) : bool :=
  match g with Point _ _ _ => true | _ => false end.

(** Modelled from the spec: [get_axes_names] is not among the source files;
    it returns the axis names "consistent with how the element's own
    coordinate columns/dimensions are laid out".  For shapes these are x, y
    and, when the first geometry has a third coordinate, z. *)
Definition get_axes_names_GeoDataFrame (e : GeoDataFrame) : result (list string) :=
  let* g := iloc0 (geometry e) in
  match g with
  | Point _ _ (Some _) => Ok ["x"; "y"; "z"]
  | _ => Ok ["x"; "y"]
  end.

(** Modelled from the spec: for a points table the axes are those of x, y, z
    that are columns of the table. *)
Definition get_axes_names_DaskDataFrame (e : DaskDataFrame) : list string :=
  List.filter (fun ax => bool_decide (ax ∈ columns (ddf_frame e))) ["x"; "y"; "z"].

(** [getattr(geoseries, dim_name)] on one geometry: geopandas gives the x, y
    or z of a Point, NaN for the z of a flat Point, and raises for other
    geometries. *)
Definition GeoSeries_coordinate (dim_name : string) (g : Geometry) : result number :=
  match g with
  | Point x y z =>
      if String.eqb dim_name "x" then Ok (finite x)
      else if String.eqb dim_name "y" then Ok (finite y)
      else if String.eqb dim_name "z" then
        match z with Some v => Ok (finite v) | None => Ok nan end
      else Raise (KeyError dim_name)
  | _ => Raise (ValueError not_point_geometries)
  end.

(** [column + radius] / [column - radius] entry by entry, the radii being
    numbers. *)
Fixpoint zip_with_Z (f : number -> number -> number) (a : list number) (b : list Z)
  : result (list number) :=
  match a, b with
  | [], [] => Ok []
  | x :: a', y :: b' => let* r := zip_with_Z f a' b' in Ok (f x (finite y) :: r)
  | _, _ => Raise (ValueError shape_of_passed_values)
  end.

(** data_extent.py:28 *)
Definition _get_extent_of_circles (circles : GeoDataFrame) : result BoundingBoxDescription :=
  let* g0 := iloc0 (geometry circles) in
  let* _ := assert (isinstance_Point g0) EmptyString in
  let* _ := assert (bool_decide (is_Some (radius circles))) "Circles must have a 'radius' column." in
  let* axes := get_axes_names_GeoDataFrame circles in
  let* centroids :=
    traverse (fun dim_name => traverse (GeoSeries_coordinate dim_name) (geometry circles)) axes in
  let* radius :=
    match radius circles with Some r => Ok r | None => Raise (KeyError "radius") end in
  let* min_coordinates :=
    traverse (fun column => let* d := zip_with_Z number_sub column radius in np_min d) centroids in
  let* max_coordinates :=
    traverse (fun column => let* d := zip_with_Z number_add column radius in np_max d) centroids in
  Ok (min_coordinates, max_coordinates, axes).

(** [geoseries.bounds] on one geometry: (minx, miny, maxx, maxy), NaN
    ([None]) for a geometry without coordinates. *)
Definition bounds_of_coords (cs : list (Z * Z)) : option (Z * Z * Z * Z) :=
  match cs with
  | [] => None
  | (x, y) :: cs' =>
      Some (fold_left Z.min (map fst cs') x, fold_left Z.min (map snd cs') y,
            fold_left Z.max (map fst cs') x, fold_left Z.max (map snd cs') y)
  end.

Definition bounds (g : Geometry) : option (Z * Z * Z * Z) :=
  match g with
  | Point x y _ => Some (x, y, x, y)
  | Polygon cs => bounds_of_coords cs
  | MultiPolygon ps => bounds_of_coords (concat ps)
  end.

(** One column of the [bounds] frame. *)
Definition bounds_column (f : Z * Z * Z * Z -> Z) (gs : list Geometry) : list number :=
  map (fun g => match bounds g with Some b => finite (f b) | None => nan end) gs.

(** data_extent.py:56 *)
Definition _get_extent_of_polygons_multipolygons (shapes : GeoDataFrame)
  : result BoundingBoxDescription :=
  let* g0 := iloc0 (geometry shapes) in
  let* _ := assert (negb (isinstance_Point g0)) EmptyString in
  let* axes := get_axes_names_GeoDataFrame shapes in
  let minx := Series_min (bounds_column (fun b => b.1.1.1) (geometry shapes)) in
  let miny := Series_min (bounds_column (fun b => b.1.1.2) (geometry shapes)) in
  let maxx := Series_max (bounds_column (fun b => b.1.2) (geometry shapes)) in
  let maxy := Series_max (bounds_column (fun b => b.2) (geometry shapes)) in
  Ok ([minx; miny], [maxx; maxy], axes).

(** data_extent.py:200 *)
Definition _check_element_has_coordinate_system
    (element : SpatialElement) (coordinate_system : string) : result unit :=
  if has_coordinate_system element coordinate_system then Ok tt
  else Raise (ValueError (element_lacks_coordinate_system coordinate_system)).

(** Modelled from the spec: [get_bounding_box_corners] is not among the
    source files; it constructs "the 2^D corner points of the intrinsic
    bounding box", for a box whose three components have one entry per axis. *)
Fixpoint corners {A : Type} (min_coordinate max_coordinate : list A) : list (list A) :=
  match min_coordinate, max_coordinate with
  | lo :: min', hi :: max' =>
      map (cons lo) (corners min' max') ++ map (cons hi) (corners min' max')
  | _, _ => [[]]
  end.

Record CornerArray : Type := { data : list (list number); axis : list string }.

Definition get_bounding_box_corners
    (axes : list string) (min_coordinate max_coordinate : list number) : result CornerArray :=
  let* _ := assert (Nat.eqb (length min_coordinate) (length axes)
                    && Nat.eqb (length max_coordinate) (length axes)) EmptyString in
  Ok {| data := corners min_coordinate max_coordinate; axis := axes |}.

(** Modelled from the spec: [PointsModel.parse(df, coordinates={k: k for k
    in axes})] is not among the source files; it gives the frame as a points
    table whose coordinate columns are the axes. *)
Definition PointsModel_parse (df : DataFrame) : DataFrame := df.

(* ------------------------------------------------------------------ *)
(** ** Extent in a coordinate system *)

Section Extent.

(** [transformation.transform_points]: what a transformation does to one
    point with named coordinates.  The extent computation is embedded, and
    its properties are proved, for every such function; the one modelled
    from the specification is [Transformations.transform_points] above. *)
Variable transform_points : BaseTransformation -> NamedPoint -> result NamedPoint.

(** Modelled from the spec: [transform] (spatialdata._core.operations) is
    not among the source files.  On a points table it applies
    [transform_points] to every row and returns the points table of the
    transformed rows over the same axes, which is how the caller reads the
    result (it labels the column minima with the axes it passed). *)
Definition transform (points : DataFrame) (transformation : BaseTransformation)
  : result DataFrame :=
  let* transformed := traverse (transform_points transformation) (named_rows points) in
  let* data :=
    traverse (fun p => traverse (fun ax => coordinate ax p) (columns points)) transformed in
  Ok {| columns := columns points; df_rows := data |}.

(** data_extent.py:211 *)
Definition _compute_extent_in_coordinate_system
    (element : SpatialElement) (coordinate_system : string)
    (min_coordinates max_coordinates : list number) (axes : list string)
  : result BoundingBoxDescription :=
  let* transformation := get_transformation element coordinate_system in
  let* corners := get_bounding_box_corners axes min_coordinates max_coordinates in
  let* df := pd_DataFrame (data corners) (axis corners) in
  let points := PointsModel_parse df in
  let* transformed_corners := transform points transformation in
  let min_coordinates := DataFrame_min transformed_corners in
  let max_coordinates := DataFrame_max transformed_corners in
  Ok (min_coordinates, max_coordinates, axes).

(** data_extent.py:129, the overload for shapes *)
Definition get_extent_GeoDataFrame (e : GeoDataFrame) (coordinate_system : string)
  : result BoundingBoxDescription :=
  let* _ := _check_element_has_coordinate_system (shapes_element e) coordinate_system in
  let* g0 := iloc0 (geometry e) in
  let* '(min_coordinates, max_coordinates, axes) :=
    if isinstance_Point g0 then
      let* _ := assert (bool_decide (is_Some (radius e))) "Shapes must have a 'radius' column." in
      _get_extent_of_circles e
    else
      let* _ := assert (negb (isinstance_Point g0)) "Shapes must be polygons or multipolygons." in
      _get_extent_of_polygons_multipolygons e in
  _compute_extent_in_coordinate_system
    (shapes_element e) coordinate_system min_coordinates max_coordinates axes.

(** data_extent.py:159, the overload for points *)
Definition get_extent_DaskDataFrame (e : DaskDataFrame) (coordinate_system : string)
  : result BoundingBoxDescription :=
  let* _ := _check_element_has_coordinate_system (points_element e) coordinate_system in
  let axes := get_axes_names_DaskDataFrame e in
  let* min_coordinates :=
    traverse (fun ax => let* c := getitem (ddf_frame e) ax in Ok (Series_min c)) axes in
  let* max_coordinates :=
    traverse (fun ax => let* c := getitem (ddf_frame e) ax in Ok (Series_max c)) axes in
  _compute_extent_in_coordinate_system
    (points_element e) coordinate_system min_coordinates max_coordinates axes.

(** data_extent.py:174, the overload for single-scale rasters *)
Definition get_extent_SpatialImage (e : SpatialImage) (coordinate_system : string)
  : result BoundingBoxDescription :=
  let* _ := _check_element_has_coordinate_system (image_element e) coordinate_system in
  Raise NotImplementedError.

(** data_extent.py:187, the overload for multiscale rasters *)
Definition get_extent_MultiscaleSpatialImage
    (e : MultiscaleSpatialImage) (coordinate_system : string)
  : result BoundingBoxDescription :=
  let* _ :=
    _check_element_has_coordinate_system (multiscale_image_element e) coordinate_system in
  Raise NotImplementedError.

(** [get_extent] on an element: the single dispatch on its type. *)
Definition get_extent_element (element : SpatialElement) (coordinate_system : string)
  : result BoundingBoxDescription :=
  match element with
  | shapes_element e => get_extent_GeoDataFrame e coordinate_system
  | points_element e => get_extent_DaskDataFrame e coordinate_system
  | image_element e => get_extent_SpatialImage e coordinate_system
  | multiscale_image_element e => get_extent_MultiscaleSpatialImage e coordinate_system
  end.

(** A [defaultdict(list)] with string keys, in insertion order. *)
Definition defaultdict : Type := list (string * list number).

(** [d[ax].append(v)] *)
Fixpoint dd_append (ax : string) (v : number) (d : defaultdict) : defaultdict :=
  match d with
  | [] => [(ax, [v])]
  | (k, vs) :: d' =>
      if String.eqb k ax then (k, vs ++ [v]) :: d' else (k, vs) :: dd_append ax v d'
  end.

(** [d[ax]]: the list under [ax], the empty list for a key never appended to. *)
Definition dd_getitem (d : defaultdict) (ax : string) : list number :=
  match list_find (fun c => fst c = ax) d with
  | Some (_, c) => snd c
  | None => []
  end.

(** [array[i]] *)
Definition item (a : list number) (i : nat) : result number :=
  match a !! i with
  | Some v => Ok v
  | None => Raise IndexError
  end.

(** data_extent.py:115-117, the loop over [enumerate(axes)] from index [i] on *)
Fixpoint append_coordinates (i : nat) (axes : list string)
    (min_coordinates max_coordinates : list number) (dicts : defaultdict * defaultdict)
  : result (defaultdict * defaultdict) :=
  match axes with
  | [] => Ok dicts
  | ax :: axes' =>
      let* lo := item min_coordinates i in
      let* hi := item max_coordinates i in
      append_coordinates (S i) axes' min_coordinates max_coordinates
        (dd_append ax lo dicts.1, dd_append ax hi dicts.2)
  end.

(** data_extent.py:109-117, the loop over the elements *)
Fixpoint collect_extents (elements : list SpatialElement) (coordinate_system : string)
    (dicts : defaultdict * defaultdict) : result (defaultdict * defaultdict) :=
  match elements with
  | [] => Ok dicts
  | element :: elements' =>
      let* dicts' :=
        if has_coordinate_system element coordinate_system then
          let* '(min_coordinates, max_coordinates, axes) :=
            get_extent_element element coordinate_system in
          append_coordinates 0 axes min_coordinates max_coordinates dicts
        else Ok dicts in
      collect_extents elements' coordinate_system dicts'
  end.

(** data_extent.py:93, the overload for a whole dataset *)
Definition get_extent_SpatialData (e : SpatialData) (coordinate_system : string)
  : result BoundingBoxDescription :=
  let* '(new_min_coordinates_dict, new_max_coordinates_dict) :=
    collect_extents (_gen_elements_values e) coordinate_system ([], []) in
  let axes := map fst new_min_coordinates_dict in
  if Nat.eqb (length axes) 0 then
    Raise (ValueError (no_element_in_coordinate_system coordinate_system))
  else
    let* new_min_coordinates :=
      traverse (fun ax => py_min (dd_getitem new_min_coordinates_dict ax)) axes in
    let* new_max_coordinates :=
      traverse (fun ax => py_max (dd_getitem new_max_coordinates_dict ax)) axes in
    Ok (new_min_coordinates, new_max_coordinates, axes).

(** What [get_extent] can be called on. *)
Inductive object : Type :=
| a_SpatialData (e : SpatialData)
| a_SpatialElement (e : SpatialElement)
| another_object.

(** data_extent.py:76 *)
Definition get_extent (o : object) (coordinate_system : string)
  : result BoundingBoxDescription :=
  match o with
  | a_SpatialData e => get_extent_SpatialData e coordinate_system
  | a_SpatialElement e => get_extent_element e coordinate_system
  | another_object => Raise (ValueError object_type_not_supported)
  end.

End Extent.

(* ------------------------------------------------------------------ *)
(** ** Raster unpadding ([utils.py]) *)

(** Position of the dimension named [ax]. *)
Definition index_of (ax : string) (ds : list string) : option nat :=
  fst <$> list_find (fun d => d = ax) ds.

(** All index vectors of an array of the given shape. *)
Fixpoint indices (shape : list nat) : list (list nat) :=
  match shape with
  | [] => [[]]
  | n :: shape' => flat_map (fun i => map (cons i) (indices shape')) (seq 0 n)
  end.

(** The arithmetic of the dtype of a raster.  [array_sum] is what [sum]
    makes of the pixels of a slice, with the rounding or the wrap-around of
    the dtype; [isclose_0 v] is [isclose(v, 0)], which holds of every [v]
    with [|v| <= 1e-8].  Pixels and sums are coded by integers: an integer
    dtype stores integers, and a float is the multiple of the least positive
    float that it is.  All that is fixed of a dtype is that zeros add up to
    a number that is close to zero. *)
Record dtype : Type := {
  array_sum : list Z -> Z;
  isclose_0 : Z -> bool;
  sum_of_zeros : forall l, Forall (fun v => v = 0%Z) l -> isclose_0 (array_sum l) = true
}.

(** The sum of integers, without bounds. *)
Definition sum_Z (l : list Z) : Z := fold_right Z.add 0%Z l.

(** The integer of 64 bits, two's complement, that [z] wraps around to. *)
Definition wrap64 (z : Z) : Z := ((z + 2 ^ 63) mod 2 ^ 64 - 2 ^ 63)%Z.

Lemma int64_sum_of_zeros (l : list Z) :
  Forall (fun v => v = 0%Z) l -> Z.eqb (wrap64 (sum_Z l)) 0 = true.
Proof.
  intros H. assert (Hsum : sum_Z l = 0%Z).
  { induction H as [|v l -> _ IH]; [reflexivity|]. cbn [sum_Z fold_right]. exact IH. }
  now rewrite Hsum.
Qed.

(** The dtype [int64]: sums wrap around, and an integer is close to zero
    only if it is zero. *)
Definition int64 : dtype :=
  {| array_sum := fun l => wrap64 (sum_Z l);
     isclose_0 := fun v => Z.eqb v 0;
     sum_of_zeros := int64_sum_of_zeros |}.

Section Unpadding.

(** The dtype of the raster. *)
Variable dt : dtype.

(** [data.sum(dim=others)[i]], where [k] is the position of the one
    dimension that is kept: the sum, in the dtype, of the pixels whose
    [k]-th index is [i]. *)
Definition sum_others (data : SpatialImage) (k i : nat) : Z :=
  array_sum dt
    (map (values data)
         (List.filter (fun idx => Nat.eqb (nth k idx 0) i) (indices (shape data)))).

(** [data.isel({axis: slice(left, right)})], [k] the position of [axis];
    xarray keeps the attributes, hence the registry. *)
Definition isel (data : SpatialImage) (k left right : nat) : SpatialImage :=
  {| dims := dims data;
     shape := <[k := right - left]> (shape data);
     values := fun idx => values data (alter (fun i => i + left) k idx);
     si_transform := si_transform data |}.

(** utils.py:105.  [s[i]] is [isclose(sum, 0)] of slice [i]; [non_zero] are
    the positions where [s] is false. *)
Definition _unpad_axis (data : SpatialImage) (axis : string) : result (SpatialImage * nat) :=
  match index_of axis (dims data) with
  | None => Raise (ValueError (not_in_list axis))
  | Some k =>
      let s := fun i => isclose_0 dt (sum_others data k i) in
      let non_zero := List.filter (fun i => negb (s i)) (seq 0 (nth k (shape data) 0)) in
      match non_zero with
      | [] => Ok (data, 0)
      | left_pad :: _ =>
          let right_pad := List.last non_zero 0 + 1 in
          Ok (isel data k left_pad right_pad, left_pad)
      end
  end.

(** Modelled from the spec: [get_dims] is not among the source files; it
    returns the names of the dimensions of the raster, in order. *)
Definition get_dims (raster : SpatialImage) : list string := dims raster.

(** [set_transformation(element, transformation, to_coordinate_system)] *)
Definition set_transformation (element : SpatialImage) (transformation : BaseTransformation)
    (to_coordinate_system : string) : SpatialImage :=
  {| dims := dims element; shape := shape element; values := values element;
     si_transform := <[to_coordinate_system := transformation]> (si_transform element) |}.

(** utils.py:128-132, the loop over the axes; the state is [unpadded],
    [translation_axes] and [translation_values]. *)
Fixpoint unpad_axes (axes : list string) (state : SpatialImage * list string * list Z)
  : result (SpatialImage * list string * list Z) :=
  match axes with
  | [] => Ok state
  | ax :: axes' =>
      if String.eqb ax "c" then unpad_axes axes' state
      else
        let* '(unpadded, left_pad) := _unpad_axis state.1.1 ax in
        unpad_axes axes' (unpadded, state.1.2 ++ [ax], state.2 ++ [Z.of_nat left_pad])
  end.

(** utils.py:90, the branch for a single-scale raster.  The loop over
    [old_transformations.items()] visits every key once; the order does not
    matter since the keys differ.  The branch for a multiscale raster unpads
    its highest resolution with this function and rebuilds the pyramid with
    a schema that is not among the source files; it is not embedded. *)
Definition unpad_raster (raster : SpatialImage) : result SpatialImage :=
  let axes := get_dims raster in
  let* '(unpadded, translation_axes, translation_values) :=
    unpad_axes axes (raster, [], []) in
  let translation := Translation translation_values translation_axes in
  let old_transformations := si_transform raster in
  Ok (map_fold
        (fun target_cs old_transform unpadded =>
           set_transformation unpadded (Sequence [translation; old_transform]) target_cs)
        unpadded old_transformations).

End Unpadding.

(* ------------------------------------------------------------------ *)
(** ** Serialization of transformations

    Modelled from the spec: [to_dict], [from_dict], [to_json] and
    [from_json] are not among the source files (only the test that calls
    them is, test_transformations.py:66-70).  Section 6 of the specification
    gives the representation: a dictionary with the variant tag under
    "type", the fields of the variant, and the input and output coordinate
    systems when they are set, each by its name or in full; a sequence holds
    the list of its children under "transformations". *)
Module Serialization.

(** What [json.loads] returns: numbers, strings, lists and dictionaries
    (the items of a dictionary in insertion order). *)
Unset Elimination Schemes.
Inductive json : Type :=
| JNumber (z : Z)
| JString (s : string)
| JList (items : list json)
| JDict (items : list (string * json)).
Set Elimination Schemes.

(** The variants without children, with their parameters. *)
Inductive Variant : Type :=
| identity
| map_axis (m : list (string * string))
| translation (v : list Z) (axes : list string)
| scale (v : list Z) (axes : list string)
| affine (matrix : list (list Z)) (input_axes output_axes : list string)
| rotation (matrix : list (list Z)) (axes : list string).

(** An axis as the test builds it, [Axis(name="x", type="space",
    unit="micrometer")]; the unit may be left out
    (test_transformations.py:10-13). *)
Record Axis : Type := {
  axis_name : string;
  axis_type : string;
  axis_unit : option string
}.

(** [CoordinateSystem(name="xy", axes=[x_axis, y_axis])]
    (test_transformations.py:14-19). *)
Record CoordinateSystem : Type := {
  name : string;
  axes : list Axis
}.

(** What a transformation holds as its input or output coordinate system:
    the name of one, or the coordinate system itself, which is what the test
    sets (test_transformations.py:37, 47). *)
Inductive coordinate_system_reference : Type :=
| by_name (s : string)
| in_full (cs : CoordinateSystem).

(** A transformation with the coordinate systems set on it, if any. *)
Unset Elimination Schemes.
Inductive Transformation : Type :=
| Single (v : Variant)
    (input_coordinate_system output_coordinate_system : option coordinate_system_reference)
| Composed (transformations : list Transformation)
    (input_coordinate_system output_coordinate_system : option coordinate_system_reference).
Set Elimination Schemes.

(** The transformation without its coordinate systems. *)
Fixpoint erase (t : Transformation) : BaseTransformation :=
  match t with
  | Single identity _ _ => Identity
  | Single (map_axis m) _ _ => MapAxis m
  | Single (translation v axes) _ _ => Translation v axes
  | Single (scale v axes) _ _ => Scale v axes
  | Single (affine m i o) _ _ => Affine m i o
  | Single (rotation m axes) _ _ => Rotation m axes
  | Composed ts _ _ => Sequence (map erase ts)
  end.

Definition numbers (v : list Z) : json := JList (map JNumber v).
Definition strings (l : list string) : json := JList (map JString l).
Definition rows_of (m : list (list Z)) : json := JList (map numbers m).

Definition axis_to_dict (a : Axis) : json :=
  JDict ([("name", JString (axis_name a)); ("type", JString (axis_type a))]
         ++ match axis_unit a with Some u => [("unit", JString u)] | None => [] end).

Definition coordinate_system_to_dict (cs : CoordinateSystem) : json :=
  JDict [("name", JString (name cs)); ("axes", JList (map axis_to_dict (axes cs)))].

(** A coordinate system set by name is written as the name, one set in full
    as its dictionary. *)
Definition reference_to_json (r : coordinate_system_reference) : json :=
  match r with
  | by_name s => JString s
  | in_full cs => coordinate_system_to_dict cs
  end.

Definition coordinate_systems (input output : option coordinate_system_reference)
  : list (string * json) :=
  match input with Some r => [("input", reference_to_json r)] | None => [] end
  ++ match output with Some r => [("output", reference_to_json r)] | None => [] end.

Definition tag_of (v : Variant) : string :=
  match v with
  | identity => "identity"
  | map_axis _ => "map_axis"
  | translation _ _ => "translation"
  | scale _ _ => "scale"
  | affine _ _ _ => "affine"
  | rotation _ _ => "rotation"
  end.

Definition fields_of (v : Variant) : list (string * json) :=
  match v with
  | identity => []
  | map_axis m => [("map_axis", JDict (map (fun oi => (oi.1, JString oi.2)) m))]
  | translation v axes => [("translation", numbers v); ("axes", strings axes)]
  | scale v axes => [("scale", numbers v); ("axes", strings axes)]
  | affine m i o =>
      [("affine", rows_of m); ("input_axes", strings i); ("output_axes", strings o)]
  | rotation m axes => [("rotation", rows_of m); ("axes", strings axes)]
  end.

Fixpoint to_dict (t : Transformation) : json :=
  match t with
  | Single v input output =>
      JDict (("type", JString (tag_of v)) :: fields_of v ++ coordinate_systems input output)
  | Composed ts input output =>
      JDict (("type", JString "sequence") :: ("transformations", JList (map to_dict ts))
             :: coordinate_systems input output)
  end.

(** [d[key]] *)
Fixpoint get (key : string) (items : list (string * json)) : result json :=
  match items with
  | [] => Raise (KeyError key)
  | (k, v) :: items' => if String.eqb k key then Ok v else get key items'
  end.

(** [d.get(key)], read with [f] when the key is there. *)
Definition get_optional {A : Type} (key : string) (f : json -> result A)
    (items : list (string * json)) : result (option A) :=
  match get key items with
  | Ok j => let* a := f j in Ok (Some a)
  | Raise _ => Ok None
  end.

Definition as_string (j : json) : result string :=
  match j with JString s => Ok s | _ => Raise (TypeError "str") end.

Definition as_number (j : json) : result Z :=
  match j with JNumber z => Ok z | _ => Raise (TypeError "float") end.

Definition as_list {A : Type} (f : json -> result A) (j : json) : result (list A) :=
  match j with JList l => traverse f l | _ => Raise (TypeError "list") end.

Definition as_names (j : json) : result (list (string * string)) :=
  match j with
  | JDict items => traverse (fun kv => let* s := as_string kv.2 in Ok (kv.1, s)) items
  | _ => Raise (TypeError "dict")
  end.

Definition axis_from_dict (j : json) : result Axis :=
  match j with
  | JDict items =>
      let* n := get "name" items in let* n := as_string n in
      let* t := get "type" items in let* t := as_string t in
      let* u := get_optional "unit" as_string items in
      Ok {| axis_name := n; axis_type := t; axis_unit := u |}
  | _ => Raise (TypeError "dict")
  end.

Definition coordinate_system_from_dict (j : json) : result CoordinateSystem :=
  match j with
  | JDict items =>
      let* n := get "name" items in let* n := as_string n in
      let* a := get "axes" items in let* a := as_list axis_from_dict a in
      Ok {| name := n; axes := a |}
  | _ => Raise (TypeError "dict")
  end.

Definition reference_from_json (j : json) : result coordinate_system_reference :=
  match j with
  | JString s => Ok (by_name s)
  | JDict _ => let* cs := coordinate_system_from_dict j in Ok (in_full cs)
  | _ => Raise (TypeError "str")
  end.

Definition variant_from (tag : string) (items : list (string * json)) : result Variant :=
  if String.eqb tag "identity" then Ok identity
  else if String.eqb tag "map_axis" then
    let* m := get "map_axis" items in let* m := as_names m in Ok (map_axis m)
  else if String.eqb tag "translation" then
    let* v := get "translation" items in let* v := as_list as_number v in
    let* a := get "axes" items in let* a := as_list as_string a in
    Ok (translation v a)
  else if String.eqb tag "scale" then
    let* v := get "scale" items in let* v := as_list as_number v in
    let* a := get "axes" items in let* a := as_list as_string a in
    Ok (scale v a)
  else if String.eqb tag "affine" then
    let* m := get "affine" items in let* m := as_list (as_list as_number) m in
    let* i := get "input_axes" items in let* i := as_list as_string i in
    let* o := get "output_axes" items in let* o := as_list as_string o in
    Ok (affine m i o)
  else if String.eqb tag "rotation" then
    let* m := get "rotation" items in let* m := as_list (as_list as_number) m in
    let* a := get "axes" items in let* a := as_list as_string a in
    Ok (rotation m a)
  else Raise (ValueError object_type_not_supported).

Fixpoint from_dict (d : json) : result Transformation :=
  match d with
  | JDict items =>
      let* tag := get "type" items in
      let* tag := as_string tag in
      if String.eqb tag "sequence" then
        let* ts :=
          (fix children (its : list (string * json)) : result (list Transformation) :=
             match its with
             | [] => Raise (KeyError "transformations")
             | (k, v) :: its' =>
                 if String.eqb k "transformations" then
                   match v with
                   | JList l =>
                       (fix each (l : list json) : result (list Transformation) :=
                          match l with
                          | [] => Ok []
                          | x :: l' =>
                              let* t := from_dict x in
                              let* r := each l' in
                              Ok (t :: r)
                          end) l
                   | _ => Raise (TypeError "list")
                   end
                 else children its'
             end) items in
        let* input := get_optional "input" reference_from_json items in
        let* output := get_optional "output" reference_from_json items in
        Ok (Composed ts input output)
      else
        let* v := variant_from tag items in
        let* input := get_optional "input" reference_from_json items in
        let* output := get_optional "output" reference_from_json items in
        Ok (Single v input output)
  | _ => Raise (TypeError "dict")
  end.

Section Json.

(** [json.dumps] and [json.loads] of the Python standard library. *)
Variable dumps : json -> string.
Variable loads : string -> result json.

Definition to_json (t : Transformation) : string := dumps (to_dict t).

Definition from_json (s : string) : result Transformation :=
  let* d := loads s in from_dict d.

End Json.

(** A printer and a reader of JSON text, for numbers without fraction; they
    stand in for [json.dumps] and [json.loads] where the text layer is run.
    The printer separates items by ", " and keys from values by ": ", as
    [json.dumps] does; the reader skips blanks. *)

Definition quote : ascii := "034"%char.
Definition backslash : ascii := "092"%char.

(** The characters of a string between its quotes: a quote and a backslash
    are written after a backslash. *)
Fixpoint escape (s : string) : list ascii :=
  match s with
  | EmptyString => []
  | String c s' =>
      if Ascii.eqb c quote || Ascii.eqb c backslash
      then backslash :: c :: escape s'
      else c :: escape s'
  end.

(** A number in decimal digits, with a minus sign when it is negative. *)
Fixpoint uint_chars (d : Decimal.uint) : list ascii :=
  match d with
  | Decimal.Nil => []
  | Decimal.D0 d' => "0"%char :: uint_chars d'
  | Decimal.D1 d' => "1"%char :: uint_chars d'
  | Decimal.D2 d' => "2"%char :: uint_chars d'
  | Decimal.D3 d' => "3"%char :: uint_chars d'
  | Decimal.D4 d' => "4"%char :: uint_chars d'
  | Decimal.D5 d' => "5"%char :: uint_chars d'
  | Decimal.D6 d' => "6"%char :: uint_chars d'
  | Decimal.D7 d' => "7"%char :: uint_chars d'
  | Decimal.D8 d' => "8"%char :: uint_chars d'
  | Decimal.D9 d' => "9"%char :: uint_chars d'
  end.

Definition number_chars (z : Z) : list ascii :=
  match Z.to_int z with
  | Decimal.Pos d => uint_chars d
  | Decimal.Neg d => "-"%char :: uint_chars d
  end.

Fixpoint join (sep : list ascii) (l : list (list ascii)) : list ascii :=
  match l with
  | [] => []
  | [x] => x
  | x :: l' => x ++ sep ++ join sep l'
  end.

Definition quoted (s : string) : list ascii := quote :: escape s ++ [quote].

(** The separator of items, and a key with its value. *)
Definition separator : list ascii := [","%char; " "%char].

Definition member_chars (f : json -> list ascii) (kv : string * json) : list ascii :=
  quoted kv.1 ++ ":"%char :: " "%char :: f kv.2.

Fixpoint dumps_chars (j : json) : list ascii :=
  match j with
  | JNumber z => number_chars z
  | JString s => quoted s
  | JList l => "["%char :: join separator (map dumps_chars l) ++ ["]"%char]
  | JDict items =>
      "{"%char :: join separator (map (member_chars dumps_chars) items) ++ ["}"%char]
  end.

Definition dumps_text (j : json) : string := string_of_list_ascii (dumps_chars j).

Fixpoint skip_spaces (cs : list ascii) : list ascii :=
  match cs with
  | c :: cs' => if Ascii.eqb c " "%char then skip_spaces cs' else cs
  | [] => []
  end.

Fixpoint read_string (cs : list ascii) : option (string * list ascii) :=
  match cs with
  | [] => None
  | c :: cs' =>
      if Ascii.eqb c quote then Some (EmptyString, cs')
      else if Ascii.eqb c backslash then
        match cs' with
        | c' :: cs'' =>
            match read_string cs'' with
            | Some (s, r) => Some (String c' s, r)
            | None => None
            end
        | [] => None
        end
      else match read_string cs' with
           | Some (s, r) => Some (String c s, r)
           | None => None
           end
  end.

Definition digit_of (c : ascii) : option (Decimal.uint -> Decimal.uint) :=
  if Ascii.eqb c "0"%char then Some Decimal.D0
  else if Ascii.eqb c "1"%char then Some Decimal.D1
  else if Ascii.eqb c "2"%char then Some Decimal.D2
  else if Ascii.eqb c "3"%char then Some Decimal.D3
  else if Ascii.eqb c "4"%char then Some Decimal.D4
  else if Ascii.eqb c "5"%char then Some Decimal.D5
  else if Ascii.eqb c "6"%char then Some Decimal.D6
  else if Ascii.eqb c "7"%char then Some Decimal.D7
  else if Ascii.eqb c "8"%char then Some Decimal.D8
  else if Ascii.eqb c "9"%char then Some Decimal.D9
  else None.

Fixpoint read_uint (cs : list ascii) : Decimal.uint * list ascii :=
  match cs with
  | c :: cs' =>
      match digit_of c with
      | Some d => let '(u, r) := read_uint cs' in (d u, r)
      | None => (Decimal.Nil, cs)
      end
  | [] => (Decimal.Nil, [])
  end.

Fixpoint read_value (fuel : nat) (cs : list ascii) : option (json * list ascii) :=
  match fuel with
  | 0 => None
  | S n =>
      match skip_spaces cs with
      | [] => None
      | c :: r =>
          if Ascii.eqb c quote then
            match read_string r with
            | Some (s, r') => Some (JString s, r')
            | None => None
            end
          else if Ascii.eqb c "["%char then
            match skip_spaces r with
            | c' :: r' =>
                if Ascii.eqb c' "]"%char then Some (JList [], r')
                else match read_elements n r with
                     | Some (l, r'') => Some (JList l, r'')
                     | None => None
                     end
            | [] => None
            end
          else if Ascii.eqb c "{"%char then
            match skip_spaces r with
            | c' :: r' =>
                if Ascii.eqb c' "}"%char then Some (JDict [], r')
                else match read_members n r with
                     | Some (l, r'') => Some (JDict l, r'')
                     | None => None
                     end
            | [] => None
            end
          else if Ascii.eqb c "-"%char then
            let '(u, r') := read_uint r in Some (JNumber (Z.of_int (Decimal.Neg u)), r')
          else
            match digit_of c with
            | Some _ =>
                let '(u, r') := read_uint (c :: r) in
                Some (JNumber (Z.of_int (Decimal.Pos u)), r')
            | None => None
            end
      end
  end
with read_elements (fuel : nat) (cs : list ascii) : option (list json * list ascii) :=
  match fuel with
  | 0 => None
  | S n =>
      match read_value n cs with
      | Some (v, r) =>
          match skip_spaces r with
          | c :: r' =>
              if Ascii.eqb c ","%char then
                match read_elements n r' with
                | Some (l, r'') => Some (v :: l, r'')
                | None => None
                end
              else if Ascii.eqb c "]"%char then Some ([v], r')
              else None
          | [] => None
          end
      | None => None
      end
  end
with read_members (fuel : nat) (cs : list ascii)
  : option (list (string * json) * list ascii) :=
  match fuel with
  | 0 => None
  | S n =>
      match skip_spaces cs with
      | c :: r =>
          if Ascii.eqb c quote then
            match read_string r with
            | Some (k, r1) =>
                match skip_spaces r1 with
                | c1 :: r2 =>
                    if Ascii.eqb c1 ":"%char then
                      match read_value n r2 with
                      | Some (v, r3) =>
                          match skip_spaces r3 with
                          | c3 :: r4 =>
                              if Ascii.eqb c3 ","%char then
                                match read_members n r4 with
                                | Some (l, r5) => Some ((k, v) :: l, r5)
                                | None => None
                                end
                              else if Ascii.eqb c3 "}"%char then Some ([(k, v)], r4)
                              else None
                          | [] => None
                          end
                      | None => None
                      end
                    else None
                | [] => None
                end
            | None => None
            end
          else None
      | [] => None
      end
  end.

Definition loads_text (s : string) : result json :=
  match read_value (String.length s) (list_ascii_of_string s) with
  | Some (j, r) =>
      match skip_spaces r with
      | [] => Ok j
      | _ => Raise (ValueError object_type_not_supported)
      end
  | None => Raise (ValueError object_type_not_supported)
  end.

(** The rest of the text does not go on with a digit. *)
Definition ends_number (r : list ascii) : Prop :=
  match r with
  | [] => True
  | c :: _ => digit_of c = None
  end.

(** The characters a value can start with. *)
Inductive first_char : ascii -> Prop :=
| first_quote : first_char quote
| first_bracket : first_char "["%char
| first_brace : first_char "{"%char
| first_minus : first_char "-"%char
| first_digit c f : digit_of c = Some f -> first_char c.

(** The reader gives back [j] from the text of [j], whatever follows it,
    once its fuel is the length of that text. *)
Definition reads_back (j : json) : Prop :=
  forall fuel r, length (dumps_chars j) <= fuel -> ends_number r ->
    read_value fuel (dumps_chars j ++ r) = Some (j, r).

End Serialization.

(* ------------------------------------------------------------------ *)
(** ** Comparing directory trees ([utils.py])

    What is on disk under a path: a regular file with its content and its
    modification time, or a directory with its entries by name, in listing
    order.  Links and special files are not modelled. *)

Unset Elimination Schemes.
Inductive node : Type :=
| RegularFile (content : string) (st_mtime : Z)
| Directory (entries : list (string * node)).
Set Elimination Schemes.

(** [os.stat(os.path.join(directory, x))] for a name [x], [None] when there
    is no such entry. *)
Fixpoint stat (x : string) (entries : list (string * node)) : option node :=
  match entries with
  | [] => None
  | (y, n) :: entries' => if String.eqb y x then Some n else stat x entries'
  end.

(** [os.path.join(a, b)] of [posixpath]. *)
Definition os_path_join (a b : string) : string :=
  if String.prefix "/" b then b
  else if String.eqb a EmptyString then a +:+ b
  else match String.get (String.length a - 1) a with
       | Some "/"%char => a +:+ b
       | _ => a +:+ "/" +:+ b
       end.

(** [filecmp.DEFAULT_IGNORES] and the names [dircmp] hides. *)
Definition DEFAULT_IGNORES : list string :=
  ["RCS"; "CVS"; "tags"; ".git"; ".hg"; ".bzr"; "_darcs"; "__pycache__"].

Definition hide : list string := ["."; ".."].

(** [filecmp._filter(flist, skip)] *)
Definition _filter (flist skip : list string) : list string :=
  List.filter (fun item => negb (bool_decide (item ∈ skip))) flist.

(** The attributes of a [filecmp.dircmp] that the comparison reads. *)
Record dircmp : Type := {
  left_list : list string;
  right_list : list string;
  common : list string;
  left_only : list string;
  right_only : list string;
  common_dirs : list string;
  common_files : list string;
  common_funny : list string;
  same_files : list string;
  diff_files : list string;
  funny_files : list string
}.

(** [filecmp._sig(os.stat(f))] of a regular file: its size and its
    modification time, the type being that of a regular file. *)
Definition _sig (content : string) (st_mtime : Z) : nat * Z :=
  (String.length content, st_mtime).

(** [filecmp.cmp(f1, f2, shallow)] on two entries.  The cache of [filecmp]
    only repeats the outcome of an earlier comparison of the same two paths
    with the same signatures; it is left out. *)
Definition cmp (f1 f2 : option node) (shallow : bool) : bool :=
  match f1, f2 with
  | Some (RegularFile content1 mtime1), Some (RegularFile content2 mtime2) =>
      let s1 := _sig content1 mtime1 in
      let s2 := _sig content2 mtime2 in
      if shallow && bool_decide (s1 = s2) then true
      else if negb (Nat.eqb s1.1 s2.1) then false
      else String.eqb content1 content2
  | _, _ => false
  end.

(** [filecmp.cmpfiles(a, b, common, shallow)]: the names that compare equal,
    those that differ, and those that cannot be compared; every entry of the
    model can be read, so the last list stays empty. *)
Definition cmpfiles (a b : list (string * node)) (common : list string) (shallow : bool)
  : list string * list string * list string :=
  (List.filter (fun x => cmp (stat x a) (stat x b) shallow) common,
   List.filter (fun x => negb (cmp (stat x a) (stat x b) shallow)) common,
   []).

(** [filecmp.dircmp.phase3], with the default [shallow=True] of [cmpfiles]. *)
Definition filecmp_dircmp_phase3 (a b : list (string * node)) (common_files : list string)
  : list string * list string * list string :=
  cmpfiles a b common_files true.

(** utils.py:33, the [phase3] of the subclass [dircmp]: [shallow=False]. *)
Definition phase3 (a b : list (string * node)) (common_files : list string)
  : list string * list string * list string :=
  cmpfiles a b common_files false.

(** [dircmp(a, b)] of utils.py:27, attribute by attribute.  An attribute
    that is not yet set is computed by [filecmp.dircmp.__getattr__], which
    calls the function [filecmp.dircmp.methodmap] holds for it.  That map is
    built in the body of [filecmp.dircmp] from the functions defined there,
    so [same_files], [diff_files] and [funny_files] are computed by
    [filecmp.dircmp.phase3]: the [phase3] of the subclass is not in the map
    and is not called.  The names are kept in listing order ([dircmp] sorts
    them, which only fixes the order in which they are visited). *)
Definition make_dircmp (a b : list (string * node)) : dircmp :=
  let left_list := _filter (map fst a) (hide ++ DEFAULT_IGNORES) in
  let right_list := _filter (map fst b) (hide ++ DEFAULT_IGNORES) in
  let common := List.filter (fun x => bool_decide (x ∈ right_list)) left_list in
  let common_dirs :=
    List.filter (fun x => match stat x a, stat x b with
                          | Some (Directory _), Some (Directory _) => true
                          | _, _ => false
                          end) common in
  let common_files :=
    List.filter (fun x => match stat x a, stat x b with
                          | Some (RegularFile _ _), Some (RegularFile _ _) => true
                          | _, _ => false
                          end) common in
  let common_funny :=
    List.filter (fun x => match stat x a, stat x b with
                          | Some (Directory _), Some (Directory _) => false
                          | Some (RegularFile _ _), Some (RegularFile _ _) => false
                          | _, _ => true
                          end) common in
  let xx := filecmp_dircmp_phase3 a b common_files in
  {| left_list := left_list;
     right_list := right_list;
     common := common;
     left_only := List.filter (fun x => negb (bool_decide (x ∈ right_list))) left_list;
     right_only := List.filter (fun x => negb (bool_decide (x ∈ left_list))) right_list;
     common_dirs := common_dirs;
     common_files := common_files;
     common_funny := common_funny;
     same_files := xx.1.1;
     diff_files := xx.1.2;
     funny_files := xx.2 |}.

(** What a call of the comparison comes to: it returns a boolean, or
    [os.listdir] raises because one of the two paths is not a directory. *)
Inductive outcome : Type :=
| Returns (b : bool)
| NotADirectoryError.

(** Python's truth value of a list. *)
Definition truthy {A : Type} (l : list A) : bool :=
  match l with [] => false | _ => true end.

Section Directories.

(** [re.match(pattern, string) is not None] *)
Variable re_match : string -> string -> bool.

(** utils.py:42.  [tree1] and [tree2] are what is on disk at [dir1] and
    [dir2].  The loop over [compared.common_dirs] runs over the entries of
    the left directory whose name is in that list, which are its members in
    listing order. *)
Fixpoint _are_directories_identical (dir1 : string) (tree1 : node) (dir2 : string)
    (tree2 : node) (exclude_regexp : option string) (_root_dir1 _root_dir2 : option string)
    {struct tree1} : outcome :=
  let _root_dir1 := default dir1 _root_dir1 in
  let _root_dir2 := default dir2 _root_dir2 in
  if match exclude_regexp with
     | Some exclude_regexp =>
         re_match (_root_dir1 +:+ "/" +:+ exclude_regexp) dir1
         || re_match (_root_dir2 +:+ "/" +:+ exclude_regexp) dir2
     | None => false
     end
  then Returns true
  else
    match tree1, tree2 with
    | Directory entries1, Directory entries2 =>
        let compared := make_dircmp entries1 entries2 in
        if truthy (left_only compared) || truthy (right_only compared)
           || truthy (diff_files compared) || truthy (funny_files compared)
        then Returns false
        else
          (fix for_subdir (entries : list (string * node)) : outcome :=
             match entries with
             | [] => Returns true
             | (subdir, sub1) :: entries' =>
                 if bool_decide (subdir ∈ common_dirs compared) then
                   match stat subdir entries2 with
                   | Some sub2 =>
                       match _are_directories_identical
                               (os_path_join dir1 subdir) sub1
                               (os_path_join dir2 subdir) sub2
                               exclude_regexp (Some _root_dir1) (Some _root_dir2) with
                       | Returns true => for_subdir entries'
                       | other => other
                       end
                   | None => for_subdir entries'
                   end
                 else for_subdir entries'
             end) entries1
    | _, _ => NotADirectoryError
    end.

End Directories.

(* ------------------------------------------------------------------ *)
(** ** Notions used in the statements *)

(** [m] is the least entry of [l]. *)
Definition is_minimum (m : Z) (l : list Z) : Prop :=
  m ∈ l /\ forall v, v ∈ l -> (m <= v)%Z.

(** [m] is the greatest entry of [l]. *)
Definition is_maximum (m : Z) (l : list Z) : Prop :=
  m ∈ l /\ forall v, v ∈ l -> (v <= m)%Z.

(** [c] picks, on every axis, the lower or the upper bound of the box. *)
Definition is_corner {A : Type} (min_coordinate max_coordinate c : list A) : Prop :=
  Forall2 (fun v b => v = fst b \/ v = snd b) c (combine min_coordinate max_coordinate).

(** The coordinates of the transformed points on axis [ax]. *)
Definition on_axis (ax : string) (ps : list NamedPoint) (v : number) : Prop :=
  exists p, p ∈ ps /\ coordinate ax p = Ok v.

(** The dictionary after appending the entries [E], in order. *)
Definition dd_extend (d : defaultdict) (E : list (string * number)) : defaultdict :=
  fold_left (fun d e => dd_append (fst e) (snd e) d) E d.

(** The values appended under [ax], in order. *)
Definition values_on (ax : string) (E : list (string * number)) : list number :=
  map snd (List.filter (fun e => String.eqb (fst e) ax) E).

(** [a <= b]: false as soon as one of the two is NaN. *)
Definition number_le (a b : number) : Prop :=
  match a, b with
  | finite x, finite y => (x <= y)%Z
  | _, _ => False
  end.

(** A lower and an upper bound of one axis: both NaN, or two numbers with
    the lower not above the upper. *)
Definition bounds_agree (lo hi : number) : Prop :=
  (lo = nan /\ hi = nan) \/ number_le lo hi.

(** The invariant of a bounding box description: one lower and one upper
    bound per axis name, which agree. *)
Definition well_formed (bb : BoundingBoxDescription) : Prop :=
  length bb.1.1 = length bb.2 /\
  length bb.1.2 = length bb.2 /\
  forall i lo hi, bb.1.1 !! i = Some lo -> bb.1.2 !! i = Some hi -> bounds_agree lo hi.

(** No bound of the description is NaN. *)
Definition finite_box (bb : BoundingBoxDescription) : Prop :=
  (nan ∉ bb.1.1) /\ (nan ∉ bb.1.2).

(** What the loop appends for the extents [bbs]: axis name and lower (upper)
    bound, element after element. *)
Definition min_entries (bbs : list BoundingBoxDescription) : list (string * number) :=
  concat (map (fun bb => combine bb.2 bb.1.1) bbs).

Definition max_entries (bbs : list BoundingBoxDescription) : list (string * number) :=
  concat (map (fun bb => combine bb.2 bb.1.2) bbs).

(** [v] is the lower (upper) bound some extent of [bbs] has on axis [ax]. *)
Definition axis_min_of (bbs : list BoundingBoxDescription) (ax : string) (v : number) : Prop :=
  exists bb j, bb ∈ bbs /\ bb.2 !! j = Some ax /\ bb.1.1 !! j = Some v.

Definition axis_max_of (bbs : list BoundingBoxDescription) (ax : string) (v : number) : Prop :=
  exists bb j, bb ∈ bbs /\ bb.2 !! j = Some ax /\ bb.1.2 !! j = Some v.

(** The circle in some row of the frame has coordinate [c] on axis [ax] and
    radius [r]. *)
Definition circle_on (circles : GeoDataFrame) (ax : string) (c r : Z) : Prop :=
  exists i g radii,
    geometry circles !! i = Some g /\ GeoSeries_coordinate ax g = Ok (finite c) /\
    radius circles = Some radii /\ radii !! i = Some r.

(** [idx] is an index vector of an array of shape [sh]. *)
Definition in_bounds (sh idx : list nat) : Prop := Forall2 lt idx sh.

(** [idx] lies outside the window that starts at [offs] and has extent [sh]
    along every dimension. *)
Definition outside (sh offs idx : list nat) : Prop :=
  exists k i o n,
    idx !! k = Some i /\ offs !! k = Some o /\ sh !! k = Some n /\ (i < o \/ o + n <= i).

(** On [r] the sums of the dtype tell padding from data: pixels of [r],
    each taken once, add up to a number close to zero only when all of them
    are zero.  This fails on a raster with pixels of both signs, on a raster
    of integers whose sums wrap around, and on a raster of floats with
    pixels within the tolerance of [isclose]. *)
Definition padding_is_zeros (dt : dtype) (r : SpatialImage) : Prop :=
  forall js, NoDup js -> (forall j, j ∈ js -> in_bounds (shape r) j) ->
    isclose_0 dt (array_sum dt (map (values r) js)) = true ->
    forall j, j ∈ js -> values r j = 0%Z.

(** What holds of the state of the loop of [unpad_raster] on [r] once the
    axes [processed] have been handled; [offs] are the offsets cut off so
    far on the left, one per dimension. *)
Record unpadded_from (dt : dtype) (r : SpatialImage) (processed : list string)
    (state : SpatialImage * list string * list Z) (offs : list nat) : Prop := {
  uf_dims : dims state.1.1 = dims r;
  uf_transform : si_transform state.1.1 = si_transform r;
  uf_offs_length : length offs = length (shape r);
  uf_shape_length : length (shape state.1.1) = length (shape r);
  uf_axes_length : length state.1.2 = length state.2;
  uf_axes : forall a, a ∈ state.1.2 -> a ∈ processed /\ a <> "c";
  uf_axes_filter :
    state.1.2 = List.filter (fun a => negb (String.eqb a "c")) processed;
  uf_offsets :
    Forall2 (fun a v => exists k o,
               dims r !! k = Some a /\ offs !! k = Some o /\ v = Z.of_nat o)
            state.1.2 state.2;
  uf_window : forall k n', shape state.1.1 !! k = Some n' ->
      exists n o, shape r !! k = Some n /\ offs !! k = Some o /\ o + n' <= n;
  uf_values : forall idx, length idx = length (shape r) ->
      values state.1.1 idx = values r (zip_with Nat.add idx offs);
  uf_parameter : forall k a o, dims r !! k = Some a -> offs !! k = Some o ->
      Transformations.parameter_of state.1.2 state.2 0 a = Z.of_nat o;
  uf_untouched : forall k a, dims r !! k = Some a -> a ∉ state.1.2 ->
      offs !! k = Some 0 /\ shape state.1.1 !! k = shape r !! k;
  uf_padding : padding_is_zeros dt r -> padding_is_zeros dt state.1.1;
  uf_zero : padding_is_zeros dt r ->
      forall idx, in_bounds (shape r) idx -> outside (shape state.1.1) offs idx ->
                  values r idx = 0%Z
}.

(** The pixel with index vector [idx], as a point with named coordinates. *)
Definition pixel (ds : list string) (idx : list nat) : NamedPoint :=
  combine ds (map (fun i => finite (Z.of_nat i)) idx).

(** The vertices of a geometry; a point is its own vertex. *)
Definition vertices (g : Geometry) : list (Z * Z) :=
  match g with
  | Point x y _ => [(x, y)]
  | Polygon coords => coords
  | MultiPolygon polygons => concat polygons
  end.

(** All vertices of the geometries of a frame. *)
Definition all_vertices (shapes : GeoDataFrame) : list (Z * Z) :=
  concat (map vertices (geometry shapes)).

(** The element is a raster, single-scale or multiscale. *)
Definition is_raster (element : SpatialElement) : bool :=
  match element with
  | image_element _ | multiscale_image_element _ => true
  | _ => false
  end.

(** The slice of [u] at position [i] of dimension [k] holds a pixel that is
    not zero. *)
Definition nonzero_slice (u : SpatialImage) (k i : nat) : Prop :=
  exists idx, in_bounds (shape u) idx /\ idx !! k = Some i /\ values u idx <> 0%Z.

(** Along dimension [k] the raster starts and ends with a slice that holds a
    pixel that is not zero. *)
Definition tight_along (u : SpatialImage) (k : nat) : Prop :=
  forall n, shape u !! k = Some n ->
    0 < n /\ nonzero_slice u k 0 /\ nonzero_slice u k (n - 1).

(** What holds of the raster in the loop of [unpad_raster] on a raster [r]
    whose sums tell padding from data, once the axes [processed] have been
    handled. *)
Record tight_so_far (dt : dtype) (r : SpatialImage) (processed : list string)
    (u : SpatialImage) : Prop := {
  ts_dims : dims u = dims r;
  ts_length : length (shape u) = length (dims r);
  ts_padding : padding_is_zeros dt u;
  ts_pixel : exists idx, in_bounds (shape u) idx /\ values u idx <> 0%Z;
  ts_tight : forall k a, processed !! k = Some a -> a <> "c" -> tight_along u k
}.

(** The point whose coordinate on each axis is the image of the coordinate
    of [c] under the function of [fs] for that axis. *)
Definition along_axes (fs : list (Z -> Z)) (c : list Z) : list Z :=
  zip_with (fun f v => f v) fs c.

(** Nothing can be cut from [u]: along every dimension other than "c",
    either every slice has a sum over the other dimensions that is close to
    zero, or the first and the last slice have a sum that is not. *)
Definition settled (dt : dtype) (u : SpatialImage) : Prop :=
  forall ax k n, index_of ax (dims u) = Some k -> ax <> "c" -> shape u !! k = Some n ->
    (forall i, i < n -> isclose_0 dt (sum_others dt u k i) = true) \/
    (0 < n /\ isclose_0 dt (sum_others dt u k 0) = false /\
     isclose_0 dt (sum_others dt u k (n - 1)) = false).

(** [s] is [u] up to the way its pixels are computed. *)
Definition same_raster (u s : SpatialImage) : Prop :=
  dims s = dims u /\ shape s = shape u /\ (forall idx, values s idx = values u idx) /\
  si_transform s = si_transform u.

(** A directory tree as a file system holds it: no directory lists a name
    twice. *)
Fixpoint well_formed_tree (t : node) : Prop :=
  match t with
  | RegularFile _ _ => True
  | Directory entries =>
      NoDup (map fst entries) /\
      (fix each (l : list (string * node)) : Prop :=
         match l with
         | [] => True
         | e :: l' => well_formed_tree (snd e) /\ each l'
         end) entries
  end.

(** The name is one [dircmp] leaves out of its listings. *)
Definition ignored (x : string) : Prop := x ∈ hide ++ DEFAULT_IGNORES.

(** The content and the modification time of the regular file at the end
    of [path], if there is one. *)
Fixpoint file_at (path : list string) (t : node) : option (string * Z) :=
  match path, t with
  | [], RegularFile content st_mtime => Some (content, st_mtime)
  | x :: path', Directory entries =>
      match stat x entries with
      | Some n => file_at path' n
      | None => None
      end
  | _, _ => None
  end.

(** The loop of the comparison over the common directories, given what the
    recursive call returns for a subdirectory and the two trees under it. *)
Fixpoint for_each_subdir (call : string -> node -> node -> outcome)
    (common_dirs : list string) (entries2 entries : list (string * node)) : outcome :=
  match entries with
  | [] => Returns true
  | (subdir, sub1) :: entries' =>
      if bool_decide (subdir ∈ common_dirs) then
        match stat subdir entries2 with
        | Some sub2 =>
            match call subdir sub1 sub2 with
            | Returns true => for_each_subdir call common_dirs entries2 entries'
            | other => other
            end
        | None => for_each_subdir call common_dirs entries2 entries'
        end
      else for_each_subdir call common_dirs entries2 entries'
  end.

(** Both are regular files, or both are directories. *)
Definition same_kind (n1 n2 : node) : bool :=
  match n1, n2 with
  | RegularFile _ _, RegularFile _ _ | Directory _, Directory _ => true
  | _, _ => false
  end.

(** The entries of the directory at the end of [path], if there is one. *)
Fixpoint dir_at (path : list string) (t : node) : option (list (string * node)) :=
  match t with
  | RegularFile _ _ => None
  | Directory entries =>
      match path with
      | [] => Some entries
      | x :: path' =>
          match stat x entries with
          | Some n => dir_at path' n
          | None => None
          end
      end
  end.

(** Both are regular files with the same size and the same modification
    time. *)
Definition same_signature (n1 n2 : node) : bool :=
  match n1, n2 with
  | RegularFile content1 mtime1, RegularFile content2 mtime2 =>
      bool_decide (_sig content1 mtime1 = _sig content2 mtime2)
  | _, _ => false
  end.

(* ------------------------------------------------------------------ *)
(** ** Example data *)

(** The rotation by a quarter turn, (x, y) to (-y, x), as an affine matrix. *)
Definition quarter_turn : BaseTransformation :=
  Affine [[0; -1; 0]; [1; 0; 0]; [0; 0; 1]]%Z ["x"; "y"] ["x"; "y"].

(** The map (x, y) to (x - y, x + y): a turn by 45 degrees with a stretch. *)
Definition turn_and_stretch : BaseTransformation :=
  Affine [[1; -1; 0]; [1; 1; 0]; [0; 0; 1]]%Z ["x"; "y"] ["x"; "y"].

(** The points (0, 0) and (2, 1), registered to "global" by that map. *)
Definition two_turned_points : DaskDataFrame :=
  {| ddf_frame := {| columns := ["x"; "y"]; df_rows := map (map finite) [[0; 0]; [2; 1]]%Z |};
     ddf_transform := {[ "global" := turn_and_stretch ]} |}.

(** Two points, (0, 0) and (2, 1), registered to "global" by the quarter turn. *)
Definition two_points : DaskDataFrame :=
  {| ddf_frame := {| columns := ["x"; "y"]; df_rows := map (map finite) [[0; 0]; [2; 1]]%Z |};
     ddf_transform := {[ "global" := quarter_turn ]} |}.

(** Circles of radius 1 centred at (0, 0) and (10, 0), registered to "local" only. *)
Definition two_circles : GeoDataFrame :=
  {| geometry := [Point 0 0 None; Point 10 0 None];
     radius := Some [1; 1]%Z;
     gdf_transform := {[ "local" := Identity ]} |}.

(** The unit squares with lower corners (0, 0) and (2, 2). *)
Definition two_squares : GeoDataFrame :=
  {| geometry := [Polygon [(0, 0); (1, 0); (1, 1); (0, 1)]%Z;
                  Polygon [(2, 2); (3, 2); (3, 3); (2, 3)]%Z];
     radius := None;
     gdf_transform := {[ "global" := Identity ]} |}.

(** A dataset of the three elements above. *)
Definition small_dataset : SpatialData :=
  {| _gen_elements_values :=
       [shapes_element two_circles; shapes_element two_squares; points_element two_points] |}.

(** A raster that is registered to no coordinate system. *)
Definition blank_image : SpatialImage :=
  {| dims := ["c"; "y"; "x"]; shape := [1; 2; 2]; values := fun _ => 0%Z;
     si_transform := ∅ |}.

(** A raster over (y, x) given row by row. *)
Definition image_yx (pixels : list (list Z)) (registry : Transformations) : SpatialImage :=
  {| dims := ["y"; "x"];
     shape := [length pixels; length (hd [] pixels)];
     values := fun idx => nth (nth 1 idx 0) (nth (nth 0 idx 0) pixels []) 0%Z;
     si_transform := registry |}.

(** A raster with a negative pixel whose first row sums to zero. *)
Definition signed_image : SpatialImage :=
  image_yx [[1; -1]; [2; 3]]%Z {[ "global" := Identity ]}.

(** A raster with a border of zeros around the pixels 1, 2, 3, 0. *)
Definition padded_image : SpatialImage :=
  image_yx [[0; 0; 0; 0]; [0; 1; 2; 0]; [0; 3; 0; 0]; [0; 0; 0; 0]]%Z
           {[ "global" := Scale [2; 2]%Z ["y"; "x"] ]}.

(** The coordinate systems of the test: x and y in micrometers, and a
    channel axis followed by y and x (test_transformations.py:10-18). *)
Definition x_axis : Serialization.Axis :=
  {| Serialization.axis_name := "x"; Serialization.axis_type := "space";
     Serialization.axis_unit := Some "micrometer" |}.

Definition y_axis : Serialization.Axis :=
  {| Serialization.axis_name := "y"; Serialization.axis_type := "space";
     Serialization.axis_unit := Some "micrometer" |}.

Definition c_axis : Serialization.Axis :=
  {| Serialization.axis_name := "c"; Serialization.axis_type := "channel";
     Serialization.axis_unit := None |}.

Definition xy_cs : Serialization.CoordinateSystem :=
  {| Serialization.name := "xy"; Serialization.axes := [x_axis; y_axis] |}.

Definition cyx_cs : Serialization.CoordinateSystem :=
  {| Serialization.name := "cyx"; Serialization.axes := [c_axis; y_axis; x_axis] |}.

(** A sequence that holds a translation, a sequence and an axis map, with
    coordinate systems set in full and by name. *)
Definition nested_sequence : Serialization.Transformation :=
  Serialization.Composed
    [Serialization.Single (Serialization.translation [1; -2]%Z ["x"; "y"])
       (Some (Serialization.in_full xy_cs)) None;
     Serialization.Composed
       [Serialization.Single Serialization.identity None None;
        Serialization.Single
          (Serialization.affine [[0; -1; 0]; [1; 0; 0]; [0; 0; 1]]%Z ["x"; "y"] ["x"; "y"])
          None (Some (Serialization.by_name "global"))]
       None None;
     Serialization.Single (Serialization.map_axis [("x", "y"); ("y", "x")]) None None]
    (Some (Serialization.in_full xy_cs)) (Some (Serialization.in_full cyx_cs)).

(** Three points in space with a gene column, registered to "global" as they are. *)
Definition plain_points : DaskDataFrame :=
  {| ddf_frame := {| columns := ["x"; "y"; "z"; "gene"];
                     df_rows :=
                       map (map finite) [[3; -1; 0; 7]; [1; 4; 2; 7]; [2; 2; 9; 8]]%Z |};
     ddf_transform := {[ "global" := Identity ]} |}.

(** A triangle, a polygon without vertices, two squares as one multipolygon
    and a point, registered to "global" as they are. *)
Definition mixed_shapes : GeoDataFrame :=
  {| geometry := [Polygon [(0, 0); (4, 1); (2, 5)]; Polygon [];
                  MultiPolygon [[(-3, 2); (-2, 2); (-2, 3); (-3, 3)];
                                [(6, -1); (7, -1); (7, 0); (6, 0)]];
                  Point 1 9 None]%Z;
     radius := None;
     gdf_transform := {[ "global" := Identity ]} |}.

(** Two circles followed by a triangle. *)
Definition circles_then_triangle : GeoDataFrame :=
  {| geometry := [Point 0 0 None; Point 10 0 None; Polygon [(0, 0); (4, 1); (2, 5)]]%Z;
     radius := Some [1; 1; 1]%Z;
     gdf_transform := {[ "global" := Identity ]} |}.

(** A points table with the columns x and y and no row, registered to
    "global" as it is. *)
Definition no_points : DaskDataFrame :=
  {| ddf_frame := {| columns := ["x"; "y"]; df_rows := [] |};
     ddf_transform := {[ "global" := Identity ]} |}.

(** Points and an image, both registered to "global". *)
Definition points_and_image : SpatialData :=
  {| _gen_elements_values := [points_element plain_points; image_element padded_image] |}.

(** A raster of zeros, registered to "global". *)
Definition dark_image : SpatialImage :=
  {| dims := ["c"; "y"; "x"]; shape := [1; 2; 3]; values := fun _ => 0%Z;
     si_transform := {[ "global" := Scale [2; 2]%Z ["y"; "x"] ]} |}.

(** The two unit squares, mirrored in x and stretched: registered to
    "global" by a scaling with the factors -2 and 3. *)
Definition mirrored_squares : GeoDataFrame :=
  {| geometry := geometry two_squares; radius := None;
     gdf_transform := {[ "global" := Scale [-2; 3]%Z ["x"; "y"] ]} |}.

(** A raster with a negative pixel whose first column sums to zero, and
    whose first row does so once that column is gone. *)
Definition skewed_image : SpatialImage :=
  image_yx [[1; 0]; [-1; 2]]%Z {[ "global" := Identity ]}.

(** Two directories that are not the same: the right one has a [.git]
    directory besides, holds a directory where the left one holds the file
    [data], and has other bytes in [c.bin], a file of the same size and
    modification time on both sides. *)
Definition left_tree : node :=
  Directory [("a.txt", RegularFile "1" 10); ("c.bin", RegularFile "left" 20);
             ("data", RegularFile "x" 30);
             ("sub", Directory [("b.txt", RegularFile "2" 40)])].

Definition right_tree : node :=
  Directory [(".git", Directory [("HEAD", RegularFile "ref" 50)]);
             ("a.txt", RegularFile "1" 10); ("c.bin", RegularFile "rite" 20);
             ("data", Directory [("y", RegularFile "z" 60)]);
             ("sub", Directory [("b.txt", RegularFile "2" 40)])].

(* ================================================================== *)
(** * Properties *)

(** ** Results and comprehensions *)

Lemma bind_Ok_inv {A B : Type} (c : result A) (k : A -> result B) (b : B) :
  bind c k = Ok b -> exists a, c = Ok a /\ k a = Ok b.
Proof. destruct c as [a|e]; simpl; [eauto | discriminate]. Qed.

Ltac bind_inv H :=
  let a := fresh "a" in
  let Ha := fresh "Ha" in
  apply bind_Ok_inv in H; destruct H as (a & Ha & H).

Lemma traverse_Forall2 {A B : Type} (f : A -> result B) (xs : list A) (ys : list B) :
  traverse f xs = Ok ys <-> Forall2 (fun x y => f x = Ok y) xs ys.
Proof.
  revert ys; induction xs as [|x xs IH]; intros ys; simpl.
  - split.
    + intros [= <-]. constructor.
    + intros H. inversion H. reflexivity.
  - split.
    + intros H. bind_inv H. bind_inv H. injection H as <-.
      constructor; [assumption | now apply IH].
    + intros H. inversion H as [|? y ? ys' Hx Hxs]; subst.
      rewrite Hx. simpl. apply IH in Hxs. rewrite Hxs. reflexivity.
Qed.

Lemma traverse_length {A B : Type} (f : A -> result B) xs ys :
  traverse f xs = Ok ys -> length ys = length xs.
Proof. intros H%traverse_Forall2. symmetry. eapply Forall2_length, H. Qed.

Lemma traverse_total {A B : Type} (f : A -> result B) (xs : list A) :
  (forall x, x ∈ xs -> exists y, f x = Ok y) -> exists ys, traverse f xs = Ok ys.
Proof.
  induction xs as [|x xs IH]; intros H; simpl.
  - eauto.
  - destruct (H x) as [y Hy]; [left|].
    destruct IH as [ys Hys]; [intros; apply H; now right|].
    rewrite Hy, Hys. simpl. eauto.
Qed.

Lemma traverse_lookup {A B : Type} (f : A -> result B) xs ys i x :
  traverse f xs = Ok ys -> xs !! i = Some x -> exists y, ys !! i = Some y /\ f x = Ok y.
Proof.
  intros H%traverse_Forall2 Hx.
  destruct (Forall2_lookup_l _ _ _ _ _ H Hx) as (y & Hy & Hf). eauto.
Qed.

Lemma traverse_lookup_r {A B : Type} (f : A -> result B) xs ys i y :
  traverse f xs = Ok ys -> ys !! i = Some y -> exists x, xs !! i = Some x /\ f x = Ok y.
Proof.
  intros H%traverse_Forall2 Hy.
  destruct (Forall2_lookup_r _ _ _ _ _ H Hy) as (x & Hx & Hf). eauto.
Qed.

(** ** Minima and maxima *)

Lemma fold_min_le_init (xs : list Z) (x : Z) : (fold_left Z.min xs x <= x)%Z.
Proof.
  revert x; induction xs as [|y xs IH]; intros x; simpl; [lia|].
  specialize (IH (Z.min x y)). lia.
Qed.

Lemma fold_min_lower (xs : list Z) (x v : Z) :
  v ∈ x :: xs -> (fold_left Z.min xs x <= v)%Z.
Proof.
  revert x; induction xs as [|y xs IH]; intros x Hv; simpl.
  - apply list_elem_of_singleton in Hv. lia.
  - apply elem_of_cons in Hv as [->|Hv].
    + pose proof (fold_min_le_init xs (Z.min x y)). lia.
    + apply elem_of_cons in Hv as [->|Hv].
      * pose proof (fold_min_le_init xs (Z.min x y)). lia.
      * apply IH. now right.
Qed.

Lemma fold_min_attained (xs : list Z) (x : Z) : fold_left Z.min xs x ∈ x :: xs.
Proof.
  revert x; induction xs as [|y xs IH]; intros x; simpl; [left|].
  specialize (IH (Z.min x y)). apply elem_of_cons in IH as [IH|IH].
  - rewrite IH. destruct (Z.min_spec x y) as [[_ ->]|[_ ->]]; [left | right; left].
  - right; now right.
Qed.

Lemma fold_max_ge_init (xs : list Z) (x : Z) : (x <= fold_left Z.max xs x)%Z.
Proof.
  revert x; induction xs as [|y xs IH]; intros x; simpl; [lia|].
  specialize (IH (Z.max x y)). lia.
Qed.

Lemma fold_max_upper (xs : list Z) (x v : Z) :
  v ∈ x :: xs -> (v <= fold_left Z.max xs x)%Z.
Proof.
  revert x; induction xs as [|y xs IH]; intros x Hv; simpl.
  - apply list_elem_of_singleton in Hv. lia.
  - apply elem_of_cons in Hv as [->|Hv].
    + pose proof (fold_max_ge_init xs (Z.max x y)). lia.
    + apply elem_of_cons in Hv as [->|Hv].
      * pose proof (fold_max_ge_init xs (Z.max x y)). lia.
      * apply IH. now right.
Qed.

Lemma fold_max_attained (xs : list Z) (x : Z) : fold_left Z.max xs x ∈ x :: xs.
Proof.
  revert x; induction xs as [|y xs IH]; intros x; simpl; [left|].
  specialize (IH (Z.max x y)). apply elem_of_cons in IH as [IH|IH].
  - rewrite IH. destruct (Z.max_spec x y) as [[_ ->]|[_ ->]]; [right; left | left].
  - right; now right.
Qed.

Lemma elem_of_finite_entries l v : v ∈ finite_entries l <-> finite v ∈ l.
Proof.
  unfold finite_entries. rewrite list_elem_of_omap. split.
  - intros ([w|] & Hin & [= <-]). exact Hin.
  - intros Hin. exists (finite v). split; [assumption | reflexivity].
Qed.

Lemma finite_entries_map (l : list Z) : finite_entries (map finite l) = l.
Proof. induction l as [|x l IH]; [reflexivity|]. cbn. unfold finite_entries in IH. now rewrite IH. Qed.

(** A list without NaN is the list of its numbers. *)
Lemma map_finite_entries l : nan ∉ l -> l = map finite (finite_entries l).
Proof.
  induction l as [|[v|] l IH]; intros H; [reflexivity| |].
  - cbn. f_equal. apply IH. intros Hin. apply H. now right.
  - exfalso. apply H. left.
Qed.

Lemma fold_min_spec x xs m : fold_left Z.min xs x = m <-> is_minimum m (x :: xs).
Proof.
  split.
  - intros <-. split; [apply fold_min_attained | apply fold_min_lower].
  - intros [Hin Hle].
    pose proof (fold_min_attained xs x) as Ha.
    pose proof (fold_min_lower xs x m Hin).
    specialize (Hle _ Ha). lia.
Qed.

Lemma fold_max_spec x xs m : fold_left Z.max xs x = m <-> is_maximum m (x :: xs).
Proof.
  split.
  - intros <-. split; [apply fold_max_attained | apply fold_max_upper].
  - intros [Hin Hle].
    pose proof (fold_max_attained xs x) as Ha.
    pose proof (fold_max_upper xs x m Hin).
    specialize (Hle _ Ha). lia.
Qed.

(** [Series.min()] is a number exactly when the series holds one, and is
    then the least of them. *)
Lemma Series_min_spec l m : Series_min l = finite m <-> is_minimum m (finite_entries l).
Proof.
  unfold Series_min. destruct (finite_entries l) as [|x xs].
  - split; [discriminate | intros [H _]; inversion H].
  - rewrite <- fold_min_spec. split; [now intros [= ->] | now intros ->].
Qed.

Lemma Series_max_spec l m : Series_max l = finite m <-> is_maximum m (finite_entries l).
Proof.
  unfold Series_max. destruct (finite_entries l) as [|x xs].
  - split; [discriminate | intros [H _]; inversion H].
  - rewrite <- fold_max_spec. split; [now intros [= ->] | now intros ->].
Qed.

Lemma Series_min_nan l : Series_min l = nan <-> finite_entries l = [].
Proof. unfold Series_min. destruct (finite_entries l); split; congruence. Qed.

Lemma Series_max_nan l : Series_max l = nan <-> finite_entries l = [].
Proof. unfold Series_max. destruct (finite_entries l); split; congruence. Qed.

(** The minimum and the maximum of a series are NaN together. *)
Lemma Series_cases l :
  (finite_entries l = [] /\ Series_min l = nan /\ Series_max l = nan) \/
  (exists lo hi, Series_min l = finite lo /\ Series_max l = finite hi /\
                 is_minimum lo (finite_entries l) /\ is_maximum hi (finite_entries l)).
Proof.
  destruct (finite_entries l) as [|x xs] eqn:E.
  - left. split; [reflexivity|]. split; [now apply Series_min_nan | now apply Series_max_nan].
  - right. exists (fold_left Z.min xs x), (fold_left Z.max xs x).
    assert (Hmin : Series_min l = finite (fold_left Z.min xs x))
      by (unfold Series_min; now rewrite E).
    assert (Hmax : Series_max l = finite (fold_left Z.max xs x))
      by (unfold Series_max; now rewrite E).
    split; [assumption|]. split; [assumption|]. rewrite <- E.
    split; [now apply Series_min_spec | now apply Series_max_spec].
Qed.

(** Python's [min] and [max] on numbers. *)
Lemma fold_py_min_finite (xs : list Z) (x : Z) :
  fold_left (fun m v => if number_lt v m then v else m) (map finite xs) (finite x)
  = finite (fold_left Z.min xs x).
Proof.
  revert x; induction xs as [|y xs IH]; intros x; [reflexivity|].
  cbn [map fold_left number_lt]. destruct (Z.ltb_spec y x).
  - rewrite IH. do 2 f_equal. lia.
  - rewrite IH. do 2 f_equal. lia.
Qed.

Lemma fold_py_max_finite (xs : list Z) (x : Z) :
  fold_left (fun m v => if number_lt m v then v else m) (map finite xs) (finite x)
  = finite (fold_left Z.max xs x).
Proof.
  revert x; induction xs as [|y xs IH]; intros x; [reflexivity|].
  cbn [map fold_left number_lt]. destruct (Z.ltb_spec x y).
  - rewrite IH. do 2 f_equal. lia.
  - rewrite IH. do 2 f_equal. lia.
Qed.

Lemma py_min_spec (l : list Z) m : py_min (map finite l) = Ok (finite m) <-> is_minimum m l.
Proof.
  destruct l as [|x xs]; cbn [map py_min].
  - split; [discriminate | intros [H _]; inversion H].
  - rewrite fold_py_min_finite, <- fold_min_spec.
    split; [now intros [= ->] | now intros ->].
Qed.

Lemma py_max_spec (l : list Z) m : py_max (map finite l) = Ok (finite m) <-> is_maximum m l.
Proof.
  destruct l as [|x xs]; cbn [map py_max].
  - split; [discriminate | intros [H _]; inversion H].
  - rewrite fold_py_max_finite, <- fold_max_spec.
    split; [now intros [= ->] | now intros ->].
Qed.

(** On numbers Python's [min] and [max] return a number. *)
Lemma py_min_finite (l : list Z) m : py_min (map finite l) = Ok m -> exists z, m = finite z.
Proof.
  destruct l as [|x xs]; cbn [map py_min]; [discriminate|].
  rewrite fold_py_min_finite. intros [= <-]. eauto.
Qed.

Lemma py_max_finite (l : list Z) m : py_max (map finite l) = Ok m -> exists z, m = finite z.
Proof.
  destruct l as [|x xs]; cbn [map py_max]; [discriminate|].
  rewrite fold_py_max_finite. intros [= <-]. eauto.
Qed.

(** What they return is an entry of the list. *)
Lemma py_min_member l m : py_min l = Ok m -> m ∈ l.
Proof.
  destruct l as [|x xs]; cbn [py_min]; [discriminate|]. intros [= <-].
  revert x; induction xs as [|y xs IH]; intros x; cbn [fold_left]; [left|].
  specialize (IH (if number_lt y x then y else x)).
  apply elem_of_cons in IH as [IH|IH].
  - rewrite IH. destruct (number_lt y x); [right; left | left].
  - right; now right.
Qed.

Lemma py_max_member l m : py_max l = Ok m -> m ∈ l.
Proof.
  destruct l as [|x xs]; cbn [py_max]; [discriminate|]. intros [= <-].
  revert x; induction xs as [|y xs IH]; intros x; cbn [fold_left]; [left|].
  specialize (IH (if number_lt x y then y else x)).
  apply elem_of_cons in IH as [IH|IH].
  - rewrite IH. destruct (number_lt x y); [right; left | left].
  - right; now right.
Qed.

(** ** Corners of a box *)

Lemma corners_length {A : Type} (mn mx : list A) :
  length (corners mn mx) = 2 ^ length (combine mn mx).
Proof.
  revert mx; induction mn as [|lo mn IH]; intros [|hi mx]; try reflexivity.
  cbn [corners combine length]. rewrite length_app, !length_map, IH.
  rewrite Nat.pow_succ_r'. lia.
Qed.

Lemma elem_of_corners {A : Type} (mn mx c : list A) :
  c ∈ corners mn mx <-> is_corner mn mx c.
Proof.
  unfold is_corner. revert mx c; induction mn as [|lo mn IH]; intros [|hi mx] c;
    cbn [corners combine].
  1-3: rewrite list_elem_of_singleton; split;
       [intros ->; constructor | intros H; now inversion H].
  rewrite elem_of_app, !list_elem_of_fmap. split.
  - intros [(c' & -> & Hc')|(c' & -> & Hc')]; constructor; simpl; auto; now apply IH.
  - intros H. inversion H as [|v b c' l' Hv Hc']; subst. simpl in Hv.
    apply IH in Hc'. destruct Hv as [->| ->]; [left | right]; eauto.
Qed.

Lemma corner_width {A : Type} (mn mx c : list A) :
  c ∈ corners mn mx -> length c = length (combine mn mx).
Proof. intros H%elem_of_corners. eapply Forall2_length, H. Qed.

Lemma corners_nonempty {A : Type} (mn mx : list A) : corners mn mx <> [].
Proof.
  pose proof (corners_length mn mx) as H. intros E. rewrite E in H. simpl in H.
  pose proof (Nat.pow_nonzero 2 (length (combine mn mx))). lia.
Qed.

Lemma combine_length_same {A B : Type} (l : list A) (k : list B) :
  length l = length k -> length (combine l k) = length l.
Proof. intros H. rewrite length_combine. lia. Qed.

(** ** The extent of one element in a coordinate system *)

Section ExtentFacts.

Variable transform_points : BaseTransformation -> NamedPoint -> result NamedPoint.

Lemma nth_lookup_Z (r : list number) (i : nat) (v : number) :
  r !! i = Some v -> nth i r nan = v.
Proof. intros H. now apply nth_lookup_Some with (d := nan) in H. Qed.

(** Reading the columns of a table built from points, axis by axis. *)
Lemma column_of_points (axes : list string) (ps : list NamedPoint) (rs : list (list number))
    (i : nat) (ax : string) :
  Forall2 (fun p r => traverse (fun a => coordinate a p) axes = Ok r) ps rs ->
  axes !! i = Some ax ->
  forall v, v ∈ map (fun r => nth i r nan) rs <-> on_axis ax ps v.
Proof.
  intros HF Hax v. rewrite list_elem_of_fmap. split.
  - intros (r & -> & Hr). apply list_elem_of_lookup in Hr as [k Hk].
    destruct (Forall2_lookup_r _ _ _ _ _ HF Hk) as (p & Hp & Hpr).
    destruct (traverse_lookup _ _ _ _ _ Hpr Hax) as (y & Hy & Hc).
    exists p. split; [eapply list_elem_of_lookup_2, Hp|].
    now rewrite (nth_lookup_Z _ _ _ Hy).
  - intros (p & Hp & Hc). apply list_elem_of_lookup in Hp as [k Hk].
    destruct (Forall2_lookup_l _ _ _ _ _ HF Hk) as (r & Hr & Hpr).
    destruct (traverse_lookup _ _ _ _ _ Hpr Hax) as (y & Hy & Hc').
    exists r. split; [|eapply list_elem_of_lookup_2, Hr].
    rewrite (nth_lookup_Z _ _ _ Hy). congruence.
Qed.

Lemma DataFrame_min_lookup df i :
  i < length (columns df) -> DataFrame_min df !! i = Some (Series_min (column_values df i)).
Proof.
  intros Hi. unfold DataFrame_min. rewrite list_lookup_fmap, lookup_seq_lt by assumption.
  reflexivity.
Qed.

Lemma DataFrame_max_lookup df i :
  i < length (columns df) -> DataFrame_max df !! i = Some (Series_max (column_values df i)).
Proof.
  intros Hi. unfold DataFrame_max. rewrite list_lookup_fmap, lookup_seq_lt by assumption.
  reflexivity.
Qed.

Lemma DataFrame_min_length df : length (DataFrame_min df) = length (columns df).
Proof. unfold DataFrame_min. now rewrite length_map, length_seq. Qed.

Lemma DataFrame_max_length df : length (DataFrame_max df) = length (columns df).
Proof. unfold DataFrame_max. now rewrite length_map, length_seq. Qed.

(** The steps of [_compute_extent_in_coordinate_system] when the registry
    holds [t] and the box has one bound per axis. *)
Lemma compute_extent_steps element coordinate_system t mn mx axes :
  get_all_transformations element !! coordinate_system = Some t ->
  length mn = length axes -> length mx = length axes ->
  _compute_extent_in_coordinate_system transform_points element coordinate_system mn mx axes
  = let* transformed_corners :=
      transform transform_points {| columns := axes; df_rows := corners mn mx |} t in
    Ok (DataFrame_min transformed_corners, DataFrame_max transformed_corners, axes).
Proof.
  intros Ht Hmn Hmx. unfold _compute_extent_in_coordinate_system, get_transformation.
  rewrite Ht. cbn [bind]. unfold get_bounding_box_corners.
  rewrite Hmn, Hmx, Nat.eqb_refl. cbn [andb assert bind data axis].
  unfold pd_DataFrame.
  replace (forallb _ (corners mn mx)) with true; [reflexivity|].
  symmetry. apply forallb_forall. intros c Hc%list_elem_of_In%corner_width.
  apply Nat.eqb_eq. rewrite Hc, combine_length_same; congruence.
Qed.

End ExtentFacts.

(** C1.  For every element, every coordinate system registered on it and
    every intrinsic box with one lower and one upper bound per axis, the
    extent in that coordinate system is obtained from the corners of the box:
    there are 2^D of them, exactly the points that take the lower or the
    upper bound on every axis; the registered transformation is applied to
    each; and on every axis the returned minimum (maximum) is the least
    (greatest) number among the coordinates of the transformed corners on
    that axis, both being NaN exactly when no transformed corner has a
    number there.  The statement holds whatever [transform_points] does to a
    point, as long as it succeeds on the corners and returns the axes of the
    box. *)
Theorem C1_extent_from_transformed_corners
    (transform_points : BaseTransformation -> NamedPoint -> result NamedPoint)
    (element : SpatialElement) (coordinate_system : string) (t : BaseTransformation)
    (min_coordinates max_coordinates : list number) (axes : list string)
    (transformed : list NamedPoint) :
  get_all_transformations element !! coordinate_system = Some t ->
  length min_coordinates = length axes ->
  length max_coordinates = length axes ->
  traverse (transform_points t)
           (map (combine axes) (corners min_coordinates max_coordinates)) = Ok transformed ->
  (forall p ax, p ∈ transformed -> ax ∈ axes -> exists v, coordinate ax p = Ok v) ->
  length (corners min_coordinates max_coordinates) = 2 ^ length axes /\
  (forall c, c ∈ corners min_coordinates max_coordinates
             <-> is_corner min_coordinates max_coordinates c) /\
  exists new_min new_max,
    _compute_extent_in_coordinate_system transform_points element coordinate_system
      min_coordinates max_coordinates axes = Ok (new_min, new_max, axes) /\
    length new_min = length axes /\ length new_max = length axes /\
    forall i ax, axes !! i = Some ax ->
      exists lo hi,
        new_min !! i = Some lo /\ new_max !! i = Some hi /\
        match lo, hi with
        | finite l, finite h =>
            on_axis ax transformed (finite l) /\ on_axis ax transformed (finite h) /\
            forall v, on_axis ax transformed (finite v) -> (l <= v <= h)%Z
        | nan, nan => forall v, ~ on_axis ax transformed (finite v)
        | _, _ => False
        end.
Proof.
  intros Ht Hmn Hmx Htr Hax. split; [|split].
  - rewrite corners_length, combine_length_same; congruence.
  - apply elem_of_corners.
  - destruct (traverse_total (fun p => traverse (fun ax => coordinate ax p) axes) transformed)
      as [rs Hrs].
    { intros p Hp. apply traverse_total. intros ax Hin. eauto. }
    set (df := {| columns := axes; df_rows := rs |}).
    exists (DataFrame_min df), (DataFrame_max df). split; [|split; [|split]].
    + rewrite (compute_extent_steps _ _ _ t) by assumption.
      unfold transform, named_rows. cbn [columns df_rows].
      rewrite Htr. cbn [bind]. rewrite Hrs. reflexivity.
    + apply DataFrame_min_length.
    + apply DataFrame_max_length.
    + intros i ax Hi.
      assert (Hlt : i < length (columns df)) by (simpl; eapply lookup_lt_Some, Hi).
      apply traverse_Forall2 in Hrs.
      pose proof (column_of_points axes transformed rs i ax Hrs Hi) as Hcol.
      exists (Series_min (column_values df i)), (Series_max (column_values df i)).
      split; [now apply DataFrame_min_lookup|]. split; [now apply DataFrame_max_lookup|].
      destruct (Series_cases (column_values df i))
        as [(Hnone & -> & ->)|(lo & hi & -> & -> & [Hlo Hlo_le] & [Hhi Hhi_le])].
      * intros v Hv%Hcol%elem_of_finite_entries.
        unfold column_values in Hnone. cbn [df_rows df] in Hnone.
        rewrite Hnone in Hv. inversion Hv.
      * split; [now apply Hcol, elem_of_finite_entries|].
        split; [now apply Hcol, elem_of_finite_entries|].
        intros v Hv%Hcol%elem_of_finite_entries.
        split; [now apply Hlo_le | now apply Hhi_le].
Qed.

Lemma C1_extent_from_transformed_corners_witness :
  exists new_min new_max,
    _compute_extent_in_coordinate_system Transformations.transform_points
      (points_element two_points) "global" [finite 0; finite 0] [finite 2; finite 1] ["x"; "y"]
    = Ok (new_min, new_max, ["x"; "y"])
    /\ new_min !! 0 = Some (finite (-1)) /\ new_max !! 1 = Some (finite 2).
Proof.
  destruct (C1_extent_from_transformed_corners Transformations.transform_points
              (points_element two_points) "global" quarter_turn
              [finite 0; finite 0] [finite 2; finite 1] ["x"; "y"]
              (map (map (fun c => (fst c, finite (snd c))))
                   [[("x", 0); ("y", 0)]; [("x", -1); ("y", 0)];
                    [("x", 0); ("y", 2)]; [("x", -1); ("y", 2)]]%Z))
    as (_ & _ & new_min & new_max & Hrun & _ & _ & _).
  - reflexivity.
  - reflexivity.
  - reflexivity.
  - reflexivity.
  - intros p ax Hp Hax. cbn [map fst snd] in Hp.
    repeat (apply elem_of_cons in Hp as [->|Hp]);
      [| | | |inversion Hp];
      repeat (apply elem_of_cons in Hax as [->|Hax]);
      try (inversion Hax); simpl; eauto.
  - exists new_min, new_max. split; [exact Hrun|].
    vm_compute in Hrun. injection Hrun as <- <-. split; reflexivity.
Defined.

(** ** The dictionaries of the dataset-level union *)

Lemma dd_extend_cons d ax v E :
  dd_extend d ((ax, v) :: E) = dd_extend (dd_append ax v d) E.
Proof. reflexivity. Qed.

Lemma dd_getitem_cons k vs (d : defaultdict) a :
  dd_getitem ((k, vs) :: d) a = if String.eqb k a then vs else dd_getitem d a.
Proof.
  unfold dd_getitem. cbn [list_find]. cbn [fst].
  destruct (String.eqb_spec k a) as [->|Hne].
  - rewrite decide_True by reflexivity. reflexivity.
  - rewrite decide_False by assumption.
    destruct (list_find _ d) as [[j c]|]; reflexivity.
Qed.

Lemma dd_getitem_append ax v d a :
  dd_getitem (dd_append ax v d) a
  = if String.eqb ax a then dd_getitem d a ++ [v] else dd_getitem d a.
Proof.
  induction d as [|[k vs] d IH]; cbn [dd_append].
  - rewrite dd_getitem_cons. unfold dd_getitem. simpl.
    destruct (String.eqb ax a); reflexivity.
  - destruct (String.eqb_spec k ax) as [->|Hk].
    + rewrite !dd_getitem_cons. destruct (String.eqb ax a); reflexivity.
    + rewrite !dd_getitem_cons, IH.
      destruct (String.eqb_spec k a) as [->|Hka]; [|reflexivity].
      destruct (String.eqb_spec ax a) as [->|]; [congruence | reflexivity].
Qed.

Lemma dd_keys_append ax v d a :
  a ∈ map fst (dd_append ax v d) <-> a = ax \/ a ∈ map fst d.
Proof.
  induction d as [|[k vs] d IH]; cbn [dd_append map fst].
  - rewrite list_elem_of_singleton. rewrite elem_of_nil. tauto.
  - destruct (String.eqb_spec k ax) as [->|Hk]; cbn [map fst].
    + rewrite !elem_of_cons. tauto.
    + rewrite !elem_of_cons, IH. tauto.
Qed.

Lemma dd_keys_append_NoDup ax v d :
  NoDup (map fst d) -> NoDup (map fst (dd_append ax v d)).
Proof.
  induction d as [|[k vs] d IH]; cbn [dd_append map fst]; intros H.
  - apply NoDup_singleton.
  - apply NoDup_cons in H as [Hk Hd].
    destruct (String.eqb_spec k ax) as [->|Hne]; cbn [map fst].
    + now apply NoDup_cons.
    + apply NoDup_cons. split; [|now apply IH].
      rewrite dd_keys_append. intros [->|]; congruence.
Qed.

Lemma filter_eqb_app ax (E F : list (string * number)) :
  values_on ax (E ++ F) = values_on ax E ++ values_on ax F.
Proof. unfold values_on. now rewrite List.filter_app, map_app. Qed.

Lemma dd_getitem_extend d E a :
  dd_getitem (dd_extend d E) a = dd_getitem d a ++ values_on a E.
Proof.
  revert d; induction E as [|[ax v] E IH]; intros d.
  - unfold values_on. simpl. now rewrite app_nil_r.
  - rewrite dd_extend_cons, IH, dd_getitem_append.
    unfold values_on. cbn [List.filter fst snd].
    destruct (String.eqb ax a); cbn [map snd]; [now rewrite <- app_assoc | reflexivity].
Qed.

Lemma dd_keys_extend d E a :
  a ∈ map fst (dd_extend d E) <-> a ∈ map fst d \/ a ∈ map fst E.
Proof.
  revert d; induction E as [|[ax v] E IH]; intros d.
  - simpl. rewrite elem_of_nil. tauto.
  - rewrite dd_extend_cons, IH, dd_keys_append.
    cbn [map fst]. rewrite elem_of_cons. tauto.
Qed.

Lemma dd_keys_extend_NoDup d E :
  NoDup (map fst d) -> NoDup (map fst (dd_extend d E)).
Proof.
  revert d; induction E as [|[ax v] E IH]; intros d H.
  - assumption.
  - rewrite dd_extend_cons. apply IH. now apply dd_keys_append_NoDup.
Qed.

Lemma elem_of_values_on ax (E : list (string * number)) v :
  v ∈ values_on ax E <-> (ax, v) ∈ E.
Proof.
  unfold values_on. rewrite list_elem_of_fmap. split.
  - intros ([a w] & -> & Hin). apply list_elem_of_In, List.filter_In in Hin as [Hin Heq].
    apply String.eqb_eq in Heq. simpl in *. subst. now apply list_elem_of_In.
  - intros Hin. exists (ax, v). split; [reflexivity|].
    apply list_elem_of_In, List.filter_In. split; [now apply list_elem_of_In|].
    apply String.eqb_refl.
Qed.

Lemma values_on_nonempty ax (E : list (string * number)) :
  ax ∈ map fst E -> values_on ax E <> [].
Proof.
  intros ([a v] & -> & Hin)%list_elem_of_fmap. simpl.
  apply elem_of_values_on in Hin. intros Heq. rewrite Heq in Hin. inversion Hin.
Qed.

(** ** Shape of the extent of one element *)

Section ShapeFacts.

Variable transform_points : BaseTransformation -> NamedPoint -> result NamedPoint.

Lemma transform_columns points t df :
  transform transform_points points t = Ok df -> columns df = columns points.
Proof.
  unfold transform. intros H. bind_inv H. bind_inv H. now injection H as <-.
Qed.

Lemma column_bounds df : well_formed (DataFrame_min df, DataFrame_max df, columns df).
Proof.
  unfold well_formed. cbn [fst snd].
  split; [apply DataFrame_min_length|]. split; [apply DataFrame_max_length|].
  intros i lo hi Hlo Hhi.
  assert (Hi : i < length (columns df))
    by (rewrite <- DataFrame_min_length; eapply lookup_lt_Some, Hlo).
  rewrite DataFrame_min_lookup in Hlo by assumption.
  rewrite DataFrame_max_lookup in Hhi by assumption.
  injection Hlo as <-. injection Hhi as <-.
  destruct (Series_cases (column_values df i))
    as [(_ & -> & ->)|(lo & hi & -> & -> & [Hlo _] & [_ Hhi])].
  - left. split; reflexivity.
  - right. cbn. now apply Hhi.
Qed.

Lemma compute_extent_well_formed element coordinate_system mn mx axes bb :
  _compute_extent_in_coordinate_system transform_points element coordinate_system mn mx axes
  = Ok bb ->
  bb.2 = axes /\ well_formed bb.
Proof.
  unfold _compute_extent_in_coordinate_system. intros H.
  bind_inv H. bind_inv H. bind_inv H. cbn zeta in H. bind_inv H. cbn zeta in H.
  injection H as <-. split; [reflexivity|].
  unfold PointsModel_parse in *.
  apply transform_columns in Ha2.
  unfold pd_DataFrame in Ha1. destruct (forallb _ _); [|discriminate].
  injection Ha1 as <-. cbn [columns] in Ha2.
  unfold get_bounding_box_corners in Ha0. bind_inv Ha0. injection Ha0 as <-.
  cbn [axis] in Ha2. rewrite <- Ha2. apply column_bounds.
Qed.

Lemma get_extent_element_well_formed element coordinate_system bb :
  get_extent_element transform_points element coordinate_system = Ok bb -> well_formed bb.
Proof.
  destruct element as [e|e|e|e]; cbn [get_extent_element].
  - unfold get_extent_GeoDataFrame. intros H. bind_inv H. bind_inv H. bind_inv H.
    destruct a1 as [[mn mx] axes]. now apply compute_extent_well_formed in H.
  - unfold get_extent_DaskDataFrame. intros H. bind_inv H. cbn zeta in H.
    bind_inv H. bind_inv H. now apply compute_extent_well_formed in H.
  - unfold get_extent_SpatialImage. intros H. bind_inv H. discriminate.
  - unfold get_extent_MultiscaleSpatialImage. intros H. bind_inv H. discriminate.
Qed.

End ShapeFacts.

(** ** The union over a dataset *)

Lemma dd_extend_app d E F : dd_extend d (E ++ F) = dd_extend (dd_extend d E) F.
Proof. unfold dd_extend. apply fold_left_app. Qed.

Lemma elem_of_combine {A B : Type} (l : list A) (k : list B) a b :
  (a, b) ∈ combine l k <-> exists j, l !! j = Some a /\ k !! j = Some b.
Proof.
  revert k; induction l as [|x l IH]; intros [|y k]; cbn [combine].
  1-3: rewrite elem_of_nil; split; [tauto | intros (j & H1 & H2)];
       try (now rewrite lookup_nil in H1); try (now rewrite lookup_nil in H2).
  rewrite elem_of_cons, IH. split.
  - intros [[= -> ->]|(j & H1 & H2)]; [exists 0 | exists (S j)]; auto.
  - intros ([|j] & H1 & H2); simpl in *; [left; congruence | right; eauto].
Qed.

Lemma keys_combine {A B : Type} (l : list A) (k : list B) :
  length l = length k -> map fst (combine l k) = l.
Proof.
  revert k; induction l as [|x l IH]; intros [|y k] H; simpl in *; try congruence.
  f_equal. apply IH. lia.
Qed.

Lemma item_lookup (a : list number) i v : a !! i = Some v -> item a i = Ok v.
Proof. unfold item. now intros ->. Qed.

Lemma append_coordinates_ok i axes mn mx d1 d2 :
  i + length axes <= length mn -> i + length axes <= length mx ->
  append_coordinates i axes mn mx (d1, d2)
  = Ok (dd_extend d1 (combine axes (drop i mn)), dd_extend d2 (combine axes (drop i mx))).
Proof.
  revert i d1 d2; induction axes as [|ax axes IH]; intros i d1 d2 Hmn Hmx.
  - reflexivity.
  - cbn [length] in Hmn, Hmx. cbn [append_coordinates].
    destruct (lookup_lt_is_Some_2 mn i) as [lo Hlo]; [lia|].
    destruct (lookup_lt_is_Some_2 mx i) as [hi Hhi]; [lia|].
    rewrite (item_lookup _ _ _ Hlo), (item_lookup _ _ _ Hhi). cbn [bind fst snd].
    rewrite IH by lia.
    rewrite (drop_S mn lo i Hlo), (drop_S mx hi i Hhi). reflexivity.
Qed.

Section UnionFacts.

Variable transform_points : BaseTransformation -> NamedPoint -> result NamedPoint.


Lemma collect_extents_ok elements coordinate_system bbs d1 d2 :
  traverse (fun el => get_extent_element transform_points el coordinate_system)
    (List.filter (fun el => has_coordinate_system el coordinate_system) elements) = Ok bbs ->
  collect_extents transform_points elements coordinate_system (d1, d2)
  = Ok (dd_extend d1 (min_entries bbs), dd_extend d2 (max_entries bbs)).
Proof.
  revert bbs d1 d2; induction elements as [|el els IH]; intros bbs d1 d2 H.
  - cbn in H. injection H as <-. reflexivity.
  - cbn [List.filter] in H. cbn [collect_extents].
    destruct (has_coordinate_system el coordinate_system) eqn:Hcs.
    + cbn [traverse] in H. bind_inv H. bind_inv H. injection H as <-.
      rewrite Ha. cbn [bind]. destruct a as [[mn mx] axes].
      destruct (get_extent_element_well_formed _ _ _ _ Ha) as (Ln & Lx & _).
      cbn [fst snd] in Ln, Lx.
      rewrite append_coordinates_ok by (simpl; lia). cbn [bind].
      rewrite (IH _ _ _ Ha0). unfold min_entries, max_entries.
      cbn [map concat fst snd]. rewrite !dd_extend_app, !drop_0. reflexivity.
    + cbn [bind]. now apply IH.
Qed.

End UnionFacts.

Lemma elem_of_concat {A : Type} (x : A) (ls : list (list A)) :
  x ∈ concat ls <-> exists l, x ∈ l /\ l ∈ ls.
Proof.
  induction ls as [|l ls IH]; cbn [concat].
  - rewrite elem_of_nil. split; [tauto | intros (l & _ & H); inversion H].
  - rewrite elem_of_app, IH. split.
    + intros [H|(l' & H1 & H2)]; [exists l; split; [assumption | left]|].
      exists l'. split; [assumption | now right].
    + intros (l' & H1 & H2). apply elem_of_cons in H2 as [->|H2]; eauto.
Qed.

Lemma elem_of_min_entries bbs ax v :
  (ax, v) ∈ min_entries bbs <-> axis_min_of bbs ax v.
Proof.
  unfold min_entries, axis_min_of. rewrite elem_of_concat. split.
  - intros (E & HE & (bb & -> & Hbb)%list_elem_of_fmap).
    apply elem_of_combine in HE as (j & H1 & H2). eauto.
  - intros (bb & j & Hbb & H1 & H2). exists (combine bb.2 bb.1.1). split.
    + apply elem_of_combine. eauto.
    + apply list_elem_of_fmap. eauto.
Qed.

Lemma elem_of_max_entries bbs ax v :
  (ax, v) ∈ max_entries bbs <-> axis_max_of bbs ax v.
Proof.
  unfold max_entries, axis_max_of. rewrite elem_of_concat. split.
  - intros (E & HE & (bb & -> & Hbb)%list_elem_of_fmap).
    apply elem_of_combine in HE as (j & H1 & H2). eauto.
  - intros (bb & j & Hbb & H1 & H2). exists (combine bb.2 bb.1.2). split.
    + apply elem_of_combine. eauto.
    + apply list_elem_of_fmap. eauto.
Qed.

Lemma keys_min_entries bbs :
  Forall well_formed bbs -> map fst (min_entries bbs) = concat (map snd bbs).
Proof.
  unfold min_entries. induction 1 as [|bb bbs (Ln & _ & _) _ IH]; [reflexivity|].
  cbn [map concat]. rewrite map_app, IH, keys_combine by congruence. reflexivity.
Qed.

Lemma keys_max_entries bbs :
  Forall well_formed bbs -> map fst (max_entries bbs) = concat (map snd bbs).
Proof.
  unfold max_entries. induction 1 as [|bb bbs (_ & Lx & _) _ IH]; [reflexivity|].
  cbn [map concat]. rewrite map_app, IH, keys_combine by congruence. reflexivity.
Qed.

Lemma py_min_total l : l <> [] -> exists m, py_min l = Ok m.
Proof. destruct l; [congruence | simpl; eauto]. Qed.

Lemma py_max_total l : l <> [] -> exists m, py_max l = Ok m.
Proof. destruct l; [congruence | simpl; eauto]. Qed.

(** Without NaN in the list, Python's [min] is below and [max] is above
    every entry. *)
Lemma py_min_least l lo :
  nan ∉ l -> py_min l = Ok lo -> forall v, v ∈ l -> number_le lo v.
Proof.
  intros Hn%map_finite_entries. revert Hn. generalize (finite_entries l) as zs.
  intros zs -> H v (w & -> & Hw)%list_elem_of_fmap.
  destruct (py_min_finite _ _ H) as [z ->]. apply py_min_spec in H as [_ Hle].
  cbn. now apply Hle.
Qed.

Lemma py_max_greatest l hi :
  nan ∉ l -> py_max l = Ok hi -> forall v, v ∈ l -> number_le v hi.
Proof.
  intros Hn%map_finite_entries. revert Hn. generalize (finite_entries l) as zs.
  intros zs -> H v (w & -> & Hw)%list_elem_of_fmap.
  destruct (py_max_finite _ _ H) as [z ->]. apply py_max_spec in H as [_ Hle].
  cbn. now apply Hle.
Qed.

(** A NaN in first place stays; a number in first place is only replaced
    by a number. *)
Lemma fold_py_min_nan xs :
  fold_left (fun m v => if number_lt v m then v else m) xs nan = nan.
Proof. induction xs as [|[y|] xs IH]; cbn; auto. Qed.

Lemma fold_py_max_nan xs :
  fold_left (fun m v => if number_lt m v then v else m) xs nan = nan.
Proof. induction xs as [|[y|] xs IH]; cbn; auto. Qed.

Lemma fold_py_min_below xs (x : Z) :
  exists z, fold_left (fun m v => if number_lt v m then v else m) xs (finite x) = finite z
            /\ (z <= x)%Z.
Proof.
  revert x; induction xs as [|[y|] xs IH]; intros x; cbn [fold_left number_lt].
  - exists x. split; [reflexivity | lia].
  - destruct (Z.ltb_spec y x).
    + destruct (IH y) as (z & -> & Hz). exists z. split; [reflexivity | lia].
    + apply IH.
  - apply IH.
Qed.

Lemma fold_py_max_above xs (x : Z) :
  exists z, fold_left (fun m v => if number_lt m v then v else m) xs (finite x) = finite z
            /\ (x <= z)%Z.
Proof.
  revert x; induction xs as [|[y|] xs IH]; intros x; cbn [fold_left number_lt].
  - exists x. split; [reflexivity | lia].
  - destruct (Z.ltb_spec x y).
    + destruct (IH y) as (z & -> & Hz). exists z. split; [reflexivity | lia].
    + apply IH.
  - apply IH.
Qed.

(** Lower and upper bounds recorded in step: when each pair agrees, so do
    Python's [min] of the lower and [max] of the upper ones. *)
Lemma py_extremes_agree L U lo hi :
  Forall2 bounds_agree L U -> py_min L = Ok lo -> py_max U = Ok hi -> bounds_agree lo hi.
Proof.
  intros HF. destruct HF as [|m M L U HmM _]; [discriminate|].
  cbn [py_min py_max]. intros [= <-] [= <-].
  destruct HmM as [[-> ->]|Hle].
  - left. split; [apply fold_py_min_nan | apply fold_py_max_nan].
  - destruct m as [a|], M as [b|]; cbn in Hle; try contradiction.
    destruct (fold_py_min_below L a) as (z & -> & Hz).
    destruct (fold_py_max_above U b) as (w & -> & Hw).
    right. cbn. lia.
Qed.

Lemma values_on_combine_agree a axes (mn mx : list number) :
  (forall i lo hi, mn !! i = Some lo -> mx !! i = Some hi -> bounds_agree lo hi) ->
  length mn = length axes -> length mx = length axes ->
  Forall2 bounds_agree (values_on a (combine axes mn)) (values_on a (combine axes mx)).
Proof.
  revert mn mx; induction axes as [|ax axes IH]; intros [|lo mn] [|hi mx] H Ln Lx;
    cbn [length] in Ln, Lx; try discriminate; try constructor.
  unfold values_on. cbn [combine List.filter fst].
  assert (Forall2 bounds_agree (values_on a (combine axes mn)) (values_on a (combine axes mx))).
  { apply IH; [|lia|lia]. intros i l h Hl Hh. apply (H (S i) l h); assumption. }
  destruct (String.eqb ax a); cbn [map snd]; [|assumption].
  constructor; [|assumption]. apply (H 0 lo hi); reflexivity.
Qed.

Lemma values_on_agree a bbs :
  Forall well_formed bbs ->
  Forall2 bounds_agree (values_on a (min_entries bbs)) (values_on a (max_entries bbs)).
Proof.
  induction 1 as [|bb bbs (Ln & Lx & Hbb) _ IH]; [constructor|].
  unfold min_entries, max_entries. cbn [map concat]. rewrite !filter_eqb_app.
  apply Forall2_app; [|exact IH]. now apply values_on_combine_agree.
Qed.

Lemma dd_getitem_nil a : dd_getitem [] a = [].
Proof. reflexivity. Qed.

Lemma nil_iff_no_elem {A : Type} (l : list A) : l = [] <-> forall a, a ∉ l.
Proof.
  split; [intros -> a H; inversion H|].
  destruct l as [|a l]; [reflexivity|]. intros H. destruct (H a). left.
Qed.

(** The dataset-level extent, given the extents [bbs] of the elements
    registered to the coordinate system. *)
Lemma dataset_extent_of_extents
    (transform_points : BaseTransformation -> NamedPoint -> result NamedPoint)
    (e : SpatialData) (coordinate_system : string) (bbs : list BoundingBoxDescription) :
  traverse (fun el => get_extent_element transform_points el coordinate_system)
    (List.filter (fun el => has_coordinate_system el coordinate_system)
                 (_gen_elements_values e)) = Ok bbs ->
  (concat (map snd bbs) = [] ->
   get_extent_SpatialData transform_points e coordinate_system
   = Raise (ValueError (no_element_in_coordinate_system coordinate_system))) /\
  (concat (map snd bbs) <> [] ->
   exists mins maxs axes,
     get_extent_SpatialData transform_points e coordinate_system = Ok (mins, maxs, axes) /\
     NoDup axes /\
     (forall a, a ∈ axes <-> a ∈ concat (map snd bbs)) /\
     length mins = length axes /\ length maxs = length axes /\
     forall i a, axes !! i = Some a ->
       exists lo hi, mins !! i = Some lo /\ maxs !! i = Some hi /\
         py_min (values_on a (min_entries bbs)) = Ok lo /\
         py_max (values_on a (max_entries bbs)) = Ok hi).
Proof.
  intros Hbbs.
  assert (Hwf : Forall well_formed bbs).
  { apply Forall_forall. intros bb Hbb. apply list_elem_of_lookup in Hbb as [k Hk].
    destruct (traverse_lookup_r _ _ _ _ _ Hbbs Hk) as (el & _ & Hel).
    eapply get_extent_element_well_formed, Hel. }
  unfold get_extent_SpatialData. rewrite (collect_extents_ok _ _ _ _ _ _ Hbbs).
  cbn [bind]. cbv zeta.
  set (dmin := dd_extend [] (min_entries bbs)).
  set (dmax := dd_extend [] (max_entries bbs)).
  assert (Hkeys : forall a, a ∈ map fst dmin <-> a ∈ concat (map snd bbs)).
  { intros a. unfold dmin. rewrite dd_keys_extend, keys_min_entries by assumption.
    simpl. rewrite elem_of_nil. tauto. }
  split.
  - intros Hnil. replace (map fst dmin) with (@nil string); [reflexivity|].
    symmetry. apply nil_iff_no_elem. intros a Ha%Hkeys. rewrite Hnil in Ha. inversion Ha.
  - intros Hne.
    assert (Hnonnil : map fst dmin <> []).
    { intros Hnil. destruct Hne. apply nil_iff_no_elem. intros a Ha%Hkeys.
      rewrite Hnil in Ha. inversion Ha. }
    replace (length (map fst dmin) =? 0) with false
      by (symmetry; apply Nat.eqb_neq; destruct (map fst dmin); [congruence | discriminate]).
    destruct (traverse_total (fun ax => py_min (dd_getitem dmin ax)) (map fst dmin))
      as [mins Hmins].
    { intros a Ha. apply py_min_total. unfold dmin.
      rewrite dd_getitem_extend, dd_getitem_nil. cbn [app].
      apply values_on_nonempty. rewrite keys_min_entries by assumption. now apply Hkeys. }
    destruct (traverse_total (fun ax => py_max (dd_getitem dmax ax)) (map fst dmin))
      as [maxs Hmaxs].
    { intros a Ha. apply py_max_total. unfold dmax.
      rewrite dd_getitem_extend, dd_getitem_nil. cbn [app].
      apply values_on_nonempty. rewrite keys_max_entries by assumption. now apply Hkeys. }
    exists mins, maxs, (map fst dmin). rewrite Hmins, Hmaxs. cbn [bind].
    split; [reflexivity|]. split; [|split; [exact Hkeys|split; [|split]]].
    + unfold dmin. apply dd_keys_extend_NoDup. constructor.
    + eapply traverse_length, Hmins.
    + eapply traverse_length, Hmaxs.
    + intros i a Hi.
      destruct (traverse_lookup _ _ _ _ _ Hmins Hi) as (lo & Hlo & Hlo').
      destruct (traverse_lookup _ _ _ _ _ Hmaxs Hi) as (hi & Hhi & Hhi').
      exists lo, hi. split; [assumption|]. split; [assumption|].
      unfold dmin, dmax in *.
      rewrite dd_getitem_extend, dd_getitem_nil in Hlo', Hhi'. now split.
Qed.

Lemma collect_extents_Ok_inv
    (transform_points : BaseTransformation -> NamedPoint -> result NamedPoint)
    elements coordinate_system dicts dicts' :
  collect_extents transform_points elements coordinate_system dicts = Ok dicts' ->
  exists bbs,
    traverse (fun el => get_extent_element transform_points el coordinate_system)
      (List.filter (fun el => has_coordinate_system el coordinate_system) elements) = Ok bbs.
Proof.
  revert dicts; induction elements as [|el els IH]; intros dicts H.
  - exists []. reflexivity.
  - cbn [collect_extents] in H. cbn [List.filter].
    destruct (has_coordinate_system el coordinate_system).
    + bind_inv H. bind_inv Ha. destruct (IH _ H) as [bbs Hbbs].
      exists (a0 :: bbs). cbn [traverse]. rewrite Ha0, Hbbs. reflexivity.
    + cbn [bind] in H. eauto.
Qed.


(** C3.  When no element contributes an axis to the union for the requested
    coordinate system (every element registered to it has an extent without
    axes; in particular when no element is registered to it), the
    dataset-level extent raises the "no element in the coordinate system"
    [ValueError] and returns no box. *)
Theorem C3_no_contributing_element
    (transform_points : BaseTransformation -> NamedPoint -> result NamedPoint)
    (e : SpatialData) (coordinate_system : string) :
  (forall el, el ∈ _gen_elements_values e ->
              has_coordinate_system el coordinate_system = true ->
              exists mn mx,
                get_extent_element transform_points el coordinate_system = Ok (mn, mx, [])) ->
  get_extent_SpatialData transform_points e coordinate_system
  = Raise (ValueError (no_element_in_coordinate_system coordinate_system)).
Proof.
  intros H.
  destruct (traverse_total
              (fun el => get_extent_element transform_points el coordinate_system)
              (List.filter (fun el => has_coordinate_system el coordinate_system)
                           (_gen_elements_values e))) as [bbs Hbbs].
  { intros el [Hel Hcs]%list_elem_of_In%List.filter_In.
    destruct (H el) as (mn & mx & Hrun); [now apply list_elem_of_In | assumption | eauto]. }
  destruct (dataset_extent_of_extents _ _ _ _ Hbbs) as [Hnone _]. apply Hnone.
  apply nil_iff_no_elem. intros a (l & Ha & (bb & -> & Hbb)%list_elem_of_fmap)%elem_of_concat.
  apply list_elem_of_lookup in Hbb as [k Hk].
  destruct (traverse_lookup_r _ _ _ _ _ Hbbs Hk) as (el & Hel & Hrun).
  apply list_elem_of_lookup_2, list_elem_of_In, List.filter_In in Hel as [Hel Hcs].
  destruct (H el) as (mn & mx & Hrun'); [now apply list_elem_of_In | assumption |].
  rewrite Hrun' in Hrun. injection Hrun as <-. inversion Ha.
Qed.


Lemma C3_no_contributing_element_witness :
  get_extent_SpatialData Transformations.transform_points small_dataset "unknown"
  = Raise (ValueError (no_element_in_coordinate_system "unknown")).
Proof.
  apply (C3_no_contributing_element Transformations.transform_points small_dataset "unknown").
  intros el Hel Hcs.
  repeat (apply elem_of_cons in Hel as [->|Hel]); try (vm_compute in Hcs; discriminate).
  inversion Hel.
Defined.

Lemma dataset_extent_well_formed
    (transform_points : BaseTransformation -> NamedPoint -> result NamedPoint)
    (e : SpatialData) (coordinate_system : string) (bb : BoundingBoxDescription) :
  get_extent_SpatialData transform_points e coordinate_system = Ok bb -> well_formed bb.
Proof.
  intros Hrun. pose proof Hrun as H. unfold get_extent_SpatialData in H.
  bind_inv H. clear H. destruct (collect_extents_Ok_inv _ _ _ _ _ Ha) as [bbs Hbbs].
  assert (Hwf : Forall well_formed bbs).
  { apply Forall_forall. intros b Hb. apply list_elem_of_lookup in Hb as [k Hk].
    destruct (traverse_lookup_r _ _ _ _ _ Hbbs Hk) as (el & _ & Hel).
    eapply get_extent_element_well_formed, Hel. }
  destruct (dataset_extent_of_extents _ _ _ _ Hbbs) as [Hnone Hsome].
  destruct (concat (map snd bbs)) as [|a0 l0] eqn:Hcat.
  { rewrite Hnone in Hrun by reflexivity. discriminate. }
  destruct Hsome as (mins & maxs & axes & Hrun' & _ & _ & Ln & Lx & Hvals); [discriminate|].
  rewrite Hrun' in Hrun. injection Hrun as <-.
  unfold well_formed. cbn [fst snd]. split; [assumption|]. split; [assumption|].
  intros i lo hi Hlo Hhi.
  destruct (lookup_lt_is_Some_2 axes i) as [ax Hax]; [rewrite <- Ln; eapply lookup_lt_Some, Hlo|].
  destruct (Hvals i ax Hax) as (lo' & hi' & Hlo' & Hhi' & Hl & Hh).
  assert (lo' = lo) by congruence. assert (hi' = hi) by congruence. subst.
  exact (py_extremes_agree _ _ _ _ (values_on_agree ax bbs Hwf) Hl Hh).
Qed.

(** C7, as the code has it.  Every bounding box description [get_extent]
    returns, for a single element in any coordinate system or for a whole
    dataset, has one minimum and one maximum per axis name; on every axis the
    two are NaN together (an element without a number on that axis), or the
    minimum does not exceed the maximum. *)
Theorem C7_returned_extents_are_well_formed
    (transform_points : BaseTransformation -> NamedPoint -> result NamedPoint)
    (o : object) (coordinate_system : string) (bb : BoundingBoxDescription) :
  get_extent transform_points o coordinate_system = Ok bb ->
  length bb.1.1 = length bb.2 /\
  length bb.1.2 = length bb.2 /\
  forall i lo hi, bb.1.1 !! i = Some lo -> bb.1.2 !! i = Some hi ->
    (lo = nan /\ hi = nan) \/ number_le lo hi.
Proof.
  destruct o as [e|e|]; cbn [get_extent]; intros H.
  - now apply dataset_extent_well_formed in H.
  - now apply get_extent_element_well_formed in H.
  - discriminate.
Qed.

Lemma C7_returned_extents_are_well_formed_witness :
  (length (map finite [-1; 0]%Z) = length ["x"; "y"] /\
   length (map finite [3; 3]%Z) = length ["x"; "y"] /\
   forall i lo hi,
     map finite [-1; 0]%Z !! i = Some lo -> map finite [3; 3]%Z !! i = Some hi ->
     (lo = nan /\ hi = nan) \/ number_le lo hi).
Proof.
  apply (C7_returned_extents_are_well_formed Transformations.transform_points
           (a_SpatialData small_dataset) "global"
           (map finite [-1; 0]%Z, map finite [3; 3]%Z, ["x"; "y"])).
  vm_compute. reflexivity.
Defined.

(** C7 as stated fails: a points table without rows, registered to
    "global", has an extent, and a dataset that holds only this table has
    one too; both are NaN on every axis, and NaN is not below or equal to
    NaN. *)
Lemma C7_well_formed_counterexample :
  get_extent Transformations.transform_points
    (a_SpatialElement (points_element no_points)) "global"
  = Ok ([nan; nan], [nan; nan], ["x"; "y"]) /\
  get_extent Transformations.transform_points
    (a_SpatialData {| _gen_elements_values := [points_element no_points] |}) "global"
  = Ok ([nan; nan], [nan; nan], ["x"; "y"]) /\
  ~ (forall i lo hi,
       [nan; nan] !! i = Some lo -> [nan; nan] !! i = Some hi -> number_le lo hi).
Proof.
  split; [vm_compute; reflexivity|]. split; [vm_compute; reflexivity|].
  intros H. exact (H 0 nan nan eq_refl eq_refl).
Qed.

(** ** Errors of the per-element extent *)

Lemma has_coordinate_system_false element coordinate_system :
  get_all_transformations element !! coordinate_system = None ->
  has_coordinate_system element coordinate_system = false.
Proof.
  intros H. unfold has_coordinate_system. rewrite H.
  apply bool_decide_eq_false. intros [t Ht]. discriminate.
Qed.

Lemma has_coordinate_system_true element coordinate_system t :
  get_all_transformations element !! coordinate_system = Some t ->
  has_coordinate_system element coordinate_system = true.
Proof.
  intros H. unfold has_coordinate_system. rewrite H.
  apply bool_decide_eq_true. eauto.
Qed.

(** C6.  An element without a registered transformation to the requested
    coordinate system makes the per-element extent raise the "element does
    not contain any coordinate system named ..." [ValueError]; this is
    decided before anything of the element is read (whatever its geometries,
    columns or pixels are), and no box is returned.  It holds for shapes and
    point tables, and for the rasters as well. *)
Theorem C6_missing_coordinate_system_raises
    (transform_points : BaseTransformation -> NamedPoint -> result NamedPoint)
    (element : SpatialElement) (coordinate_system : string) :
  get_all_transformations element !! coordinate_system = None ->
  _check_element_has_coordinate_system element coordinate_system
  = Raise (ValueError (element_lacks_coordinate_system coordinate_system)) /\
  get_extent transform_points (a_SpatialElement element) coordinate_system
  = Raise (ValueError (element_lacks_coordinate_system coordinate_system)).
Proof.
  intros H%has_coordinate_system_false.
  assert (Hc : _check_element_has_coordinate_system element coordinate_system
               = Raise (ValueError (element_lacks_coordinate_system coordinate_system))).
  { unfold _check_element_has_coordinate_system. now rewrite H. }
  split; [assumption|].
  destruct element as [e|e|e|e]; cbn [get_extent get_extent_element];
    unfold get_extent_GeoDataFrame, get_extent_DaskDataFrame,
           get_extent_SpatialImage, get_extent_MultiscaleSpatialImage;
    now rewrite Hc.
Qed.

Lemma C6_missing_coordinate_system_raises_witness :
  get_extent Transformations.transform_points
    (a_SpatialElement (shapes_element two_circles)) "global"
  = Raise (ValueError (element_lacks_coordinate_system "global")).
Proof.
  apply (C6_missing_coordinate_system_raises Transformations.transform_points
           (shapes_element two_circles) "global").
  vm_compute. reflexivity.
Defined.

(** C5, as stated, fails: a raster that is not registered to the requested
    coordinate system raises the same [ValueError] as any other element
    without that coordinate system, not the error of the unimplemented
    raster extent. *)
Lemma C5_raster_error_counterexample :
  get_extent Transformations.transform_points
    (a_SpatialElement (image_element blank_image)) "global"
  = Raise (ValueError (element_lacks_coordinate_system "global")) /\
  get_extent Transformations.transform_points
    (a_SpatialElement (image_element blank_image)) "global"
  <> Raise NotImplementedError.
Proof. split; [vm_compute; reflexivity | vm_compute; discriminate]. Qed.

(** C5, amended.  The extent of a raster (single-scale or multiscale) never
    returns a box: when the raster is registered to the requested coordinate
    system it raises [NotImplementedError], and otherwise the [ValueError] of
    a missing coordinate system, which is checked first. *)
Theorem C5_raster_extent_never_returns
    (transform_points : BaseTransformation -> NamedPoint -> result NamedPoint)
    (image : SpatialImage) (multiscale : MultiscaleSpatialImage)
    (coordinate_system : string) :
  get_extent transform_points (a_SpatialElement (image_element image)) coordinate_system
  = (if has_coordinate_system (image_element image) coordinate_system
     then Raise NotImplementedError
     else Raise (ValueError (element_lacks_coordinate_system coordinate_system))) /\
  get_extent transform_points
    (a_SpatialElement (multiscale_image_element multiscale)) coordinate_system
  = (if has_coordinate_system (multiscale_image_element multiscale) coordinate_system
     then Raise NotImplementedError
     else Raise (ValueError (element_lacks_coordinate_system coordinate_system))).
Proof.
  cbn [get_extent get_extent_element].
  unfold get_extent_SpatialImage, get_extent_MultiscaleSpatialImage,
    _check_element_has_coordinate_system.
  split.
  - destruct (has_coordinate_system (image_element image) coordinate_system); reflexivity.
  - destruct (has_coordinate_system (multiscale_image_element multiscale) coordinate_system);
      reflexivity.
Qed.

(** ** Circles *)

Lemma zip_with_Z_spec f a b r :
  zip_with_Z f a b = Ok r <-> length a = length b /\ r = zip_with f a (map finite b).
Proof.
  revert b r; induction a as [|x a IH]; intros [|y b] r;
    cbn [zip_with_Z zip_with length map].
  - split; [intros [= <-]; auto | intros [_ ->]; reflexivity].
  - split; [discriminate | intros [H _]; discriminate].
  - split; [discriminate | intros [H _]; discriminate].
  - split.
    + intros H. bind_inv H. injection H as <-. apply IH in Ha as [-> ->]. auto.
    + intros [H ->].
      replace (zip_with_Z f a b) with (Ok (zip_with f a (map finite b))); [reflexivity|].
      symmetry. apply IH. split; [lia | reflexivity].
Qed.

(** On columns of numbers the arithmetic is that of the integers. *)
Lemma zip_with_finite (f : number -> number -> number) (g : Z -> Z -> Z) (a b : list Z) :
  (forall x y, f (finite x) (finite y) = finite (g x y)) ->
  zip_with f (map finite a) (map finite b) = map finite (zip_with g a b).
Proof.
  intros Hfg. revert b; induction a as [|x a IH]; intros [|y b]; cbn; try reflexivity.
  now rewrite Hfg, IH.
Qed.

Lemma fold_np_min_finite (xs : list Z) (x : Z) :
  fold_left (fun m v => match m, v with
                        | finite a, finite b => finite (Z.min a b)
                        | _, _ => nan
                        end) (map finite xs) (finite x)
  = finite (fold_left Z.min xs x).
Proof. revert x; induction xs as [|y xs IH]; intros x; [reflexivity | apply IH]. Qed.

Lemma fold_np_max_finite (xs : list Z) (x : Z) :
  fold_left (fun m v => match m, v with
                        | finite a, finite b => finite (Z.max a b)
                        | _, _ => nan
                        end) (map finite xs) (finite x)
  = finite (fold_left Z.max xs x).
Proof. revert x; induction xs as [|y xs IH]; intros x; [reflexivity | apply IH]. Qed.

Lemma np_min_spec (l : list Z) m :
  np_min (map finite l) = Ok m <-> exists z, m = finite z /\ is_minimum z l.
Proof.
  destruct l as [|x xs]; cbn [map np_min].
  - split; [discriminate | intros (z & _ & H & _); inversion H].
  - rewrite fold_np_min_finite. split.
    + intros [= <-]. eexists. split; [reflexivity|]. now apply fold_min_spec.
    + intros (z & -> & Hz). apply fold_min_spec in Hz. now rewrite Hz.
Qed.

Lemma np_max_spec (l : list Z) m :
  np_max (map finite l) = Ok m <-> exists z, m = finite z /\ is_maximum z l.
Proof.
  destruct l as [|x xs]; cbn [map np_max].
  - split; [discriminate | intros (z & _ & H & _); inversion H].
  - rewrite fold_np_max_finite. split.
    + intros [= <-]. eexists. split; [reflexivity|]. now apply fold_max_spec.
    + intros (z & -> & Hz). apply fold_max_spec in Hz. now rewrite Hz.
Qed.

Lemma elem_of_zip_with_lookup (f : Z -> Z -> Z) (a b : list Z) (v : Z) :
  v ∈ zip_with f a b <-> exists i x y, a !! i = Some x /\ b !! i = Some y /\ v = f x y.
Proof.
  rewrite list_elem_of_lookup. split.
  - intros [i Hi]. apply lookup_zip_with_Some in Hi as (x & y & -> & Hx & Hy). eauto 6.
  - intros (i & x & y & Hx & Hy & ->). exists i. apply lookup_zip_with_Some. eauto.
Qed.

(** C4.  For a non-empty frame of circles (every geometry a point with a
    coordinate on every axis of the frame, and a radius column), the
    intrinsic extent exists and has, on every axis, as minimum the least
    "center minus radius" and as maximum the greatest "center plus radius"
    over all circles. *)
Theorem C4_extent_of_circles (circles : GeoDataFrame) (axes : list string) (radii : list Z) :
  geometry circles <> [] ->
  radius circles = Some radii ->
  length radii = length (geometry circles) ->
  get_axes_names_GeoDataFrame circles = Ok axes ->
  (forall g ax, g ∈ geometry circles -> ax ∈ axes ->
                exists c, GeoSeries_coordinate ax g = Ok (finite c)) ->
  exists min_coordinates max_coordinates,
    _get_extent_of_circles circles = Ok (min_coordinates, max_coordinates, axes) /\
    length min_coordinates = length axes /\
    length max_coordinates = length axes /\
    forall k ax, axes !! k = Some ax ->
      exists lo hi,
        min_coordinates !! k = Some (finite lo) /\ max_coordinates !! k = Some (finite hi) /\
        (exists c r, circle_on circles ax c r /\ lo = (c - r)%Z) /\
        (forall c r, circle_on circles ax c r -> (lo <= c - r)%Z) /\
        (exists c r, circle_on circles ax c r /\ hi = (c + r)%Z) /\
        (forall c r, circle_on circles ax c r -> (c + r <= hi)%Z).
Proof.
  intros Hne Hrad Hlen Haxes Hpts.
  destruct (geometry circles) as [|g0 gs] eqn:Hgeo; [congruence|]. clear Hne.
  assert (Hax0 : exists ax0, ax0 ∈ axes).
  { unfold get_axes_names_GeoDataFrame in Haxes. rewrite Hgeo in Haxes. cbn in Haxes.
    destruct g0 as [x y [z|]| |]; injection Haxes as <-; exists "x"; left. }
  destruct Hax0 as [ax0 Hax0].
  assert (Hp0 : isinstance_Point g0 = true).
  { destruct (Hpts g0 ax0) as [c Hc]; [left | assumption|]. now destruct g0. }
  destruct (traverse_total
              (fun dim_name => traverse (GeoSeries_coordinate dim_name) (g0 :: gs)) axes)
    as [centroids Hcen].
  { intros ax Hax. apply traverse_total. intros g Hg.
    destruct (Hpts g ax Hg Hax) as [c Hc]. eauto. }
  assert (Hcol : forall k ax col, axes !! k = Some ax -> centroids !! k = Some col ->
                   exists zcol, col = map finite zcol /\ length zcol = length radii /\
                     Forall2 (fun g c => GeoSeries_coordinate ax g = Ok (finite c))
                             (g0 :: gs) zcol).
  { intros k ax col Hk Hc.
    destruct (traverse_lookup _ _ _ _ _ Hcen Hk) as (col' & Hcol' & Htr).
    assert (col' = col) by congruence. subst col'.
    assert (Hin : ax ∈ axes) by (eapply list_elem_of_lookup_2, Hk).
    pose proof (traverse_length _ _ _ Htr) as Hl.
    apply traverse_Forall2 in Htr.
    assert (Hfin : nan ∉ col).
    { intros [j Hj]%list_elem_of_lookup.
      destruct (Forall2_lookup_r _ _ _ _ _ Htr Hj) as (g & Hg & Hgc).
      destruct (Hpts g ax) as [c Hc']; [eapply list_elem_of_lookup_2, Hg | assumption|].
      congruence. }
    apply map_finite_entries in Hfin. revert Hfin. generalize (finite_entries col) as zcol.
    intros zcol ->. exists zcol. split; [reflexivity|].
    rewrite length_map in Hl. split; [congruence|].
    now apply Forall2_fmap_r in Htr. }
  assert (Hsub : forall x y, number_sub (finite x) (finite y) = finite (x - y)) by reflexivity.
  assert (Hadd : forall x y, number_add (finite x) (finite y) = finite (x + y)) by reflexivity.
  assert (Hmin : forall k ax col, axes !! k = Some ax -> centroids !! k = Some col ->
            forall m, (let* d := zip_with_Z number_sub col radii in np_min d) = Ok m <->
              exists zcol z, col = map finite zcol /\ m = finite z /\
                             is_minimum z (zip_with Z.sub zcol radii)).
  { intros k ax col Hk Hc m. destruct (Hcol k ax col Hk Hc) as (zcol & -> & Hl & _).
    replace (zip_with_Z number_sub (map finite zcol) radii)
      with (Ok (map finite (zip_with Z.sub zcol radii)))
      by (symmetry; apply zip_with_Z_spec; rewrite length_map;
          split; [assumption | symmetry; now apply zip_with_finite]).
    cbn [bind]. rewrite np_min_spec. split.
    - intros (z & -> & Hz). eauto.
    - intros (zcol' & z & Heq & -> & Hz). exists z. split; [reflexivity|].
      assert (zcol' = zcol); [|now subst].
      apply (f_equal finite_entries) in Heq. now rewrite !finite_entries_map in Heq. }
  assert (Hmax : forall k ax col, axes !! k = Some ax -> centroids !! k = Some col ->
            forall m, (let* d := zip_with_Z number_add col radii in np_max d) = Ok m <->
              exists zcol z, col = map finite zcol /\ m = finite z /\
                             is_maximum z (zip_with Z.add zcol radii)).
  { intros k ax col Hk Hc m. destruct (Hcol k ax col Hk Hc) as (zcol & -> & Hl & _).
    replace (zip_with_Z number_add (map finite zcol) radii)
      with (Ok (map finite (zip_with Z.add zcol radii)))
      by (symmetry; apply zip_with_Z_spec; rewrite length_map;
          split; [assumption | symmetry; now apply zip_with_finite]).
    cbn [bind]. rewrite np_max_spec. split.
    - intros (z & -> & Hz). eauto.
    - intros (zcol' & z & Heq & -> & Hz). exists z. split; [reflexivity|].
      assert (zcol' = zcol); [|now subst].
      apply (f_equal finite_entries) in Heq. now rewrite !finite_entries_map in Heq. }
  assert (Hnonempty : forall k ax col zcol, axes !! k = Some ax -> centroids !! k = Some col ->
            col = map finite zcol -> forall (f : Z -> Z -> Z), zip_with f zcol radii <> []).
  { intros k ax col zcol Hk Hc -> f. destruct (Hcol k ax _ Hk Hc) as (zcol' & Heq & Hl & HF).
    apply (f_equal finite_entries) in Heq. rewrite !finite_entries_map in Heq. subst zcol'.
    apply Forall2_length in HF. cbn [length] in HF.
    destruct zcol, radii; simpl in *; congruence. }
  destruct (traverse_total
              (fun column => let* d := zip_with_Z number_sub column radii in np_min d) centroids)
    as [mins Hmins].
  { intros col [k Hk]%list_elem_of_lookup.
    destruct (traverse_lookup_r _ _ _ _ _ Hcen Hk) as (ax & Hax & _).
    destruct (Hcol k ax col Hax Hk) as (zcol & Heq & _).
    pose proof (Hnonempty k ax col zcol Hax Hk Heq Z.sub) as Hn.
    destruct (zip_with Z.sub zcol radii) as [|x xs] eqn:E; [congruence|].
    exists (finite (fold_left Z.min xs x)). apply (Hmin k ax col Hax Hk).
    exists zcol, (fold_left Z.min xs x). rewrite E.
    split; [assumption|]. split; [reflexivity | now apply fold_min_spec]. }
  destruct (traverse_total
              (fun column => let* d := zip_with_Z number_add column radii in np_max d) centroids)
    as [maxs Hmaxs].
  { intros col [k Hk]%list_elem_of_lookup.
    destruct (traverse_lookup_r _ _ _ _ _ Hcen Hk) as (ax & Hax & _).
    destruct (Hcol k ax col Hax Hk) as (zcol & Heq & _).
    pose proof (Hnonempty k ax col zcol Hax Hk Heq Z.add) as Hn.
    destruct (zip_with Z.add zcol radii) as [|x xs] eqn:E; [congruence|].
    exists (finite (fold_left Z.max xs x)). apply (Hmax k ax col Hax Hk).
    exists zcol, (fold_left Z.max xs x). rewrite E.
    split; [assumption|]. split; [reflexivity | now apply fold_max_spec]. }
  exists mins, maxs. split; [|split; [|split]].
  - unfold _get_extent_of_circles. rewrite Hgeo. cbn [iloc0 bind]. rewrite Hp0. cbn [assert bind].
    rewrite Hrad. rewrite bool_decide_eq_true_2 by eauto. cbn [assert bind].
    rewrite Haxes. cbn [bind]. rewrite Hcen. cbn [bind].
    rewrite Hmins. cbn [bind]. rewrite Hmaxs. reflexivity.
  - apply traverse_length in Hmins, Hcen. congruence.
  - apply traverse_length in Hmaxs, Hcen. congruence.
  - intros k ax Hk.
    destruct (traverse_lookup _ _ _ _ _ Hcen Hk) as (col & Hc & _).
    destruct (traverse_lookup _ _ _ _ _ Hmins Hc) as (lo & Hlo & Hlo').
    destruct (traverse_lookup _ _ _ _ _ Hmaxs Hc) as (hi & Hhi & Hhi').
    apply (Hmin k ax col Hk Hc) in Hlo' as (zcol & zlo & Heq & -> & [Hl1 Hl2]).
    apply (Hmax k ax col Hk Hc) in Hhi' as (zcol' & zhi & Heq' & -> & [Hh1 Hh2]).
    assert (zcol' = zcol).
    { rewrite Heq in Heq'. apply (f_equal finite_entries) in Heq'.
      now rewrite !finite_entries_map in Heq'. }
    subst zcol'. clear Heq'.
    destruct (Hcol k ax col Hk Hc) as (zcol' & Heq' & Hl & HF).
    assert (zcol' = zcol).
    { rewrite Heq in Heq'. apply (f_equal finite_entries) in Heq'.
      now rewrite !finite_entries_map in Heq'. }
    subst zcol'. clear Heq'.
    assert (Hon : forall c r, circle_on circles ax c r <->
                    exists i, zcol !! i = Some c /\ radii !! i = Some r).
    { intros c r. unfold circle_on. rewrite Hgeo, Hrad. split.
      - intros (i & g & radii' & Hg & Hgc & [= <-] & Hr). exists i. split; [|assumption].
        destruct (Forall2_lookup_l _ _ _ _ _ HF Hg) as (c' & Hc' & Hgc'). congruence.
      - intros (i & Hci & Hr).
        destruct (Forall2_lookup_r _ _ _ _ _ HF Hci) as (g & Hg & Hgc). eauto 8. }
    exists zlo, zhi. split; [assumption|]. split; [assumption|]. repeat split.
    + apply elem_of_zip_with_lookup in Hl1 as (i & c & r & H1 & H2 & ->).
      exists c, r. split; [apply Hon; eauto | reflexivity].
    + intros c r (i & H1 & H2)%Hon. apply Hl2, elem_of_zip_with_lookup. eauto 6.
    + apply elem_of_zip_with_lookup in Hh1 as (i & c & r & H1 & H2 & ->).
      exists c, r. split; [apply Hon; eauto | reflexivity].
    + intros c r (i & H1 & H2)%Hon. apply Hh2, elem_of_zip_with_lookup. eauto 6.
Qed.

Lemma C4_extent_of_circles_witness :
  _get_extent_of_circles two_circles
  = Ok (map finite [-1; -1]%Z, map finite [11; 1]%Z, ["x"; "y"]).
Proof.
  destruct (C4_extent_of_circles two_circles ["x"; "y"] [1; 1]%Z)
    as (mn & mx & Hrun & _).
  - discriminate.
  - reflexivity.
  - reflexivity.
  - reflexivity.
  - intros g ax Hg Hax. cbn [geometry two_circles] in Hg.
    repeat (apply elem_of_cons in Hg as [->|Hg]); try (inversion Hg);
      repeat (apply elem_of_cons in Hax as [->|Hax]); try (inversion Hax);
      cbn; eauto.
  - rewrite Hrun. vm_compute in Hrun. injection Hrun as <- <-. reflexivity.
Defined.

(** ** Raster unpadding *)

Lemma elem_of_indices sh idx : idx ∈ indices sh <-> in_bounds sh idx.
Proof.
  unfold in_bounds. revert idx; induction sh as [|n sh IH]; intros idx; cbn [indices].
  - rewrite list_elem_of_singleton. split; [intros ->; constructor | now inversion 1].
  - rewrite list_elem_of_In, in_flat_map. split.
    + intros (i & Hi%in_seq & (idx' & <- & Hidx')%in_map_iff).
      constructor; [lia | now apply IH, list_elem_of_In].
    + intros H. inversion H as [|i n' idx' sh' Hlt Hrest]; subst.
      exists i. split; [apply in_seq; lia|].
      apply in_map_iff. exists idx'. split; [reflexivity|].
      now apply list_elem_of_In, IH.
Qed.

Lemma sum_Z_zero (l : list Z) :
  (forall v, v ∈ l -> (0 <= v)%Z) -> sum_Z l = 0%Z -> forall v, v ∈ l -> v = 0%Z.
Proof.
  induction l as [|x l IH]; intros Hpos Hsum v Hv; [inversion Hv|].
  cbn [sum_Z fold_right] in Hsum. fold (sum_Z l) in Hsum.
  assert (0 <= x)%Z by (apply Hpos; left).
  assert (0 <= sum_Z l)%Z.
  { clear -Hpos. induction l as [|y l IH]; cbn [sum_Z fold_right]; [lia|].
    fold (sum_Z l). assert (0 <= y)%Z by (apply Hpos; right; left).
    assert (0 <= sum_Z l)%Z; [|lia].
    apply IH. intros v Hv. apply Hpos. apply elem_of_cons in Hv as [->|Hv];
      [left | right; now right]. }
  apply elem_of_cons in Hv as [->|Hv]; [lia|].
  apply IH; [intros w Hw; apply Hpos; now right | lia | assumption].
Qed.

Lemma NoDup_List_filter {A : Type} (f : A -> bool) (l : list A) :
  NoDup l -> NoDup (List.filter f l).
Proof.
  induction 1 as [|x l Hx Hl IH]; cbn [List.filter]; [constructor|].
  destruct (f x); [|assumption]. constructor; [|assumption].
  intros Hin%list_elem_of_In%List.filter_In. apply Hx, list_elem_of_In, Hin.
Qed.

Lemma NoDup_indices sh : NoDup (indices sh).
Proof.
  induction sh as [|n sh IH]; cbn [indices]; [apply NoDup_singleton|].
  generalize 0 as a. induction n as [|n IHn]; intros a; cbn [seq flat_map]; [constructor|].
  apply NoDup_app. split; [|split].
  - apply NoDup_fmap_2_strong; [|assumption]. now intros x y _ _ [= ->].
  - intros idx (idx' & -> & _)%list_elem_of_fmap Hin.
    apply list_elem_of_In, in_flat_map in Hin as (i & Hi%in_seq & Hin).
    apply in_map_iff in Hin as (idx2 & [= <- _] & _). lia.
  - apply IHn.
Qed.

(** The pixels of a window are pixels of the raster it was cut from. *)
Lemma window_backward (sh : list nat) k n n' left_pad idx :
  sh !! k = Some n -> left_pad + n' <= n ->
  in_bounds (<[k := n']> sh) idx -> in_bounds sh (alter (fun i => i + left_pad) k idx).
Proof.
  intros Hn Hle Hb. unfold in_bounds in *.
  pose proof (Forall2_length _ _ _ Hb) as Hlen. rewrite length_insert in Hlen.
  apply Forall2_same_length_lookup. split; [now rewrite length_alter|].
  intros j a b Ha Hb'. destruct (decide (k = j)) as [<-|Hne].
  - rewrite list_lookup_alter_eq in Ha.
    destruct (idx !! k) as [x|] eqn:Hx; [|discriminate]. injection Ha as <-.
    assert (x < n').
    { eapply Forall2_lookup_lr; [exact Hb | exact Hx |].
      apply list_lookup_insert_eq. eapply lookup_lt_Some, Hn. }
    assert (b = n) by congruence. lia.
  - rewrite list_lookup_alter_ne in Ha by assumption.
    eapply Forall2_lookup_lr; [exact Hb | exact Ha |].
    now rewrite list_lookup_insert_ne.
Qed.

Lemma alter_add_inj (left_pad k : nat) (l1 l2 : list nat) :
  alter (fun i => i + left_pad) k l1 = alter (fun i => i + left_pad) k l2 -> l1 = l2.
Proof.
  intros H. apply list_eq. intros j. apply (f_equal (fun l => l !! j)) in H.
  destruct (decide (k = j)) as [<-|Hne].
  - rewrite !list_lookup_alter_eq in H.
    destruct (l1 !! k), (l2 !! k); cbn in H; try congruence.
    injection H as H. f_equal. lia.
  - now rewrite !list_lookup_alter_ne in H.
Qed.

Section UnpaddingFacts.

Variable dt : dtype.

(** In a slice whose sum is close to zero, a raster whose sums tell padding
    from data is zero. *)
Lemma sum_others_zero data k i idx :
  padding_is_zeros dt data ->
  isclose_0 dt (sum_others dt data k i) = true ->
  in_bounds (shape data) idx -> nth k idx 0 = i ->
  values data idx = 0%Z.
Proof.
  intros Hp Hsum Hidx Hk. unfold sum_others in Hsum.
  apply (Hp _ (NoDup_List_filter _ _ (NoDup_indices _))) with (j := idx) in Hsum;
    [assumption| |].
  - intros j [Hj _]%list_elem_of_In%List.filter_In.
    now apply elem_of_indices, list_elem_of_In.
  - apply list_elem_of_In, List.filter_In. split.
    + now apply list_elem_of_In, elem_of_indices.
    + now apply Nat.eqb_eq.
Qed.

(** A window of a raster whose sums tell padding from data is such a
    raster. *)
Lemma padding_is_zeros_window data u k n n' left_pad :
  shape data !! k = Some n -> left_pad + n' <= n ->
  shape u = <[k := n']> (shape data) ->
  (forall idx, values u idx = values data (alter (fun i => i + left_pad) k idx)) ->
  padding_is_zeros dt data -> padding_is_zeros dt u.
Proof.
  intros Hn Hle Hs Hv Hp js Hnd Hb Hclose j Hj. rewrite Hv.
  apply (Hp (map (alter (fun i => i + left_pad) k) js)).
  - apply NoDup_fmap_2_strong; [|assumption]. intros x y _ _. apply alter_add_inj.
  - intros j' (j0 & -> & Hj0)%list_elem_of_fmap.
    apply (window_backward _ _ n n'); [assumption | assumption|].
    rewrite <- Hs. now apply Hb.
  - rewrite map_map. erewrite map_ext; [exact Hclose|]. intros idx. cbn. now rewrite Hv.
  - apply list_elem_of_fmap. eauto.
Qed.

Lemma filter_seq_head (f : nat -> bool) a n x l :
  List.filter f (seq a n) = x :: l -> forall y, y ∈ x :: l -> x <= y.
Proof.
  revert a; induction n as [|n IH]; intros a H y Hy; [discriminate|].
  cbn [seq List.filter] in H. destruct (f a).
  - injection H as <- <-. apply elem_of_cons in Hy as [->|Hy]; [lia|].
    apply list_elem_of_In, List.filter_In in Hy as [Hy%in_seq _]. lia.
  - eapply IH; eauto.
Qed.

Lemma filter_seq_last (f : nat -> bool) a n y :
  y ∈ List.filter f (seq a n) -> y <= List.last (List.filter f (seq a n)) 0.
Proof.
  revert a; induction n as [|n IH] using nat_ind; intros a Hy; [inversion Hy|].
  rewrite seq_S, List.filter_app in *. cbn [List.filter] in *.
  destruct (f (a + n)).
  - rewrite last_last.
    apply elem_of_app in Hy as [Hy|Hy].
    + apply list_elem_of_In, List.filter_In in Hy as [Hy%in_seq _]. lia.
    + apply list_elem_of_singleton in Hy. lia.
  - rewrite app_nil_r in *. now apply IH.
Qed.

Lemma last_filter_seq_lt (f : nat -> bool) a n x l :
  List.filter f (seq a n) = x :: l -> List.last (x :: l) 0 < a + n.
Proof.
  intros H.
  assert (Hin : List.last (x :: l) 0 ∈ x :: l).
  { clear H. revert x; induction l as [|z l IH]; intros x; [left|].
    change (List.last (x :: z :: l) 0) with (List.last (z :: l) 0). right. apply IH. }
  rewrite <- H in Hin at 2.
  apply list_elem_of_In, List.filter_In in Hin as [Hy%in_seq _]. lia.
Qed.

(** One step of the loop: [_unpad_axis] on the dimension at position [k].
    What is cut off are slices whose sum over the other dimensions is close
    to zero. *)
Lemma unpad_axis_spec data axis k :
  index_of axis (dims data) = Some k -> k < length (shape data) ->
  exists u left_pad n' n,
    _unpad_axis dt data axis = Ok (u, left_pad) /\
    shape data !! k = Some n /\ left_pad + n' <= n /\
    dims u = dims data /\ si_transform u = si_transform data /\
    shape u = <[k := n']> (shape data) /\
    (forall idx, values u idx = values data (alter (fun i => i + left_pad) k idx)) /\
    (forall i, i < n -> i < left_pad \/ left_pad + n' <= i ->
               isclose_0 dt (sum_others dt data k i) = true).
Proof.
  intros Hk Hlt. destruct (lookup_lt_is_Some_2 _ _ Hlt) as [n Hn].
  unfold _unpad_axis. rewrite Hk. cbv zeta.
  assert (Hnth : nth k (shape data) 0 = n) by (now apply nth_lookup_Some with (d := 0) in Hn).
  rewrite Hnth.
  destruct (List.filter _ (seq 0 n)) as [|x l] eqn:Hnz.
  - exists data, 0, n, n. split; [reflexivity|]. split; [assumption|]. split; [lia|].
    split; [reflexivity|]. split; [reflexivity|]. split; [now rewrite list_insert_id|].
    split; [|intros; lia].
    intros idx. f_equal. symmetry. apply list_alter_id. intros; lia.
  - pose proof (last_filter_seq_lt _ _ _ _ _ Hnz) as Hlast.
    assert (Hx : x <= List.last (x :: l) 0).
    { rewrite <- Hnz. apply filter_seq_last. rewrite Hnz. left. }
    exists (isel data k x (List.last (x :: l) 0 + 1)), x, (List.last (x :: l) 0 + 1 - x), n.
    split; [reflexivity|]. split; [assumption|]. split; [lia|].
    split; [reflexivity|]. split; [reflexivity|]. split; [reflexivity|].
    split; [reflexivity|].
    intros i Hi Hout.
    destruct (isclose_0 dt (sum_others dt data k i)) eqn:Hz; [reflexivity|].
    assert (Hin : i ∈ x :: l).
    { rewrite <- Hnz. apply list_elem_of_In, List.filter_In. split; [apply in_seq; lia|].
      now rewrite Hz. }
    pose proof (filter_seq_head _ _ _ _ _ Hnz i Hin).
    rewrite <- Hnz in Hin. apply filter_seq_last in Hin. rewrite Hnz in Hin. lia.
Qed.

End UnpaddingFacts.

Lemma index_of_middle (pre suf : list string) (ax : string) :
  ax ∉ pre -> index_of ax (pre ++ ax :: suf) = Some (length pre).
Proof.
  intros Hpre. unfold index_of.
  rewrite list_find_app_r.
  - cbn [list_find]. rewrite decide_True by reflexivity. reflexivity.
  - apply list_find_None, Forall_forall. intros x Hx ->. contradiction.
Qed.

Lemma zip_add_alter (left_pad k : nat) (idx offs : list nat) :
  zip_with Nat.add (alter (fun i => i + left_pad) k idx) offs
  = zip_with Nat.add idx (alter (fun o => o + left_pad) k offs).
Proof.
  apply list_eq. intros j. rewrite !lookup_zip_with.
  destruct (decide (k = j)) as [->|Hne].
  - rewrite !list_lookup_alter_eq.
    destruct (idx !! j), (offs !! j); cbn; try reflexivity. f_equal. lia.
  - now rewrite !list_lookup_alter_ne.
Qed.

(** *** Parameters of the translation built by the loop *)

Lemma combine_snoc {A B : Type} (l : list A) (k : list B) a b :
  length l = length k -> combine (l ++ [a]) (k ++ [b]) = combine l k ++ [(a, b)].
Proof.
  revert k; induction l as [|x l IH]; intros [|y k] H; simpl in *; try congruence.
  f_equal. apply IH. lia.
Qed.

Lemma parameter_of_absent axes vs d a :
  a ∉ axes -> Transformations.parameter_of axes vs d a = d.
Proof.
  intros Ha. unfold Transformations.parameter_of.
  replace (list_find _ (combine axes vs)) with (@None (nat * (string * Z))); [reflexivity|].
  symmetry. apply list_find_None, Forall_forall. intros [x v] Hx Heq. simpl in Heq. subst x.
  apply Ha. apply elem_of_combine in Hx as (j & Hj & _). eapply list_elem_of_lookup_2, Hj.
Qed.

Lemma parameter_of_snoc_old axes vs d ax v a :
  length axes = length vs -> a ∈ axes ->
  Transformations.parameter_of (axes ++ [ax]) (vs ++ [v]) d a
  = Transformations.parameter_of axes vs d a.
Proof.
  intros Hlen Ha. unfold Transformations.parameter_of. rewrite combine_snoc by assumption.
  destruct (list_find (fun c => c.1 = a) (combine axes vs)) as [[i c]|] eqn:Hfind.
  - now rewrite (list_find_app_l _ _ _ _ _ Hfind).
  - exfalso. apply list_find_None in Hfind.
    apply list_elem_of_lookup in Ha as [j Hj].
    destruct (lookup_lt_is_Some_2 vs j) as [w Hw]; [rewrite <- Hlen; eapply lookup_lt_Some, Hj|].
    apply (proj1 (Forall_forall _ _) Hfind (a, w)); [|reflexivity].
    apply elem_of_combine. eauto.
Qed.

Lemma parameter_of_snoc_new axes vs d ax v :
  length axes = length vs -> ax ∉ axes ->
  Transformations.parameter_of (axes ++ [ax]) (vs ++ [v]) d ax = v.
Proof.
  intros Hlen Ha. unfold Transformations.parameter_of. rewrite combine_snoc by assumption.
  rewrite list_find_app_r.
  - cbn [list_find fst]. rewrite decide_True by reflexivity. reflexivity.
  - apply list_find_None, Forall_forall. intros [x w] Hx Heq. simpl in Heq. subst x.
    apply Ha. apply elem_of_combine in Hx as (j & Hj & _). eapply list_elem_of_lookup_2, Hj.
Qed.

(** *** The window kept by the loop *)

Lemma window_cases sh offs idx :
  length idx = length sh -> length offs = length sh ->
  outside sh offs idx \/
  exists idx', in_bounds sh idx' /\ idx = zip_with Nat.add idx' offs.
Proof.
  revert offs idx; induction sh as [|n sh IH]; intros [|o offs] [|i idx] Hi Ho;
    simpl in *; try congruence.
  - right. exists []. split; [constructor | reflexivity].
  - destruct (decide (i < o \/ o + n <= i)) as [Hout|Hin].
    + left. exists 0, i, o, n. auto.
    + destruct (IH offs idx) as [(k & i' & o' & n' & H1 & H2 & H3 & H4)|(idx' & Hb & ->)];
        [lia | lia | |].
      * left. exists (S k), i', o', n'. auto.
      * right. exists ((i - o) :: idx'). split.
        -- constructor; [lia | assumption].
        -- simpl. f_equal. lia.
Qed.

Lemma in_bounds_length sh idx : in_bounds sh idx -> length idx = length sh.
Proof. apply Forall2_length. Qed.

Lemma in_bounds_lookup sh idx k i n :
  in_bounds sh idx -> idx !! k = Some i -> sh !! k = Some n -> i < n.
Proof. intros H Hi Hn. eapply Forall2_lookup_lr; eauto. Qed.

(** *** The loop over the axes *)

Section UnpaddingLoop.

Variable dt : dtype.

Lemma unpadded_from_start r :
  length (dims r) = length (shape r) ->
  unpadded_from dt r [] (r, [], []) (replicate (length (shape r)) 0).
Proof.
  intros Hwf. split; cbn [fst snd]; try reflexivity.
  - apply length_replicate.
  - intros a Ha. inversion Ha.
  - constructor.
  - intros k n' Hk. exists n', 0. split; [assumption|]. split; [|lia].
    apply lookup_replicate. split; [reflexivity | eapply lookup_lt_Some, Hk].
  - intros idx Hlen. f_equal. apply list_eq. intros j. rewrite lookup_zip_with.
    destruct (idx !! j) as [i|] eqn:Hi; [|reflexivity]. cbn.
    rewrite (proj2 (lookup_replicate _ _ 0 j)); [cbn; f_equal; lia|].
    split; [reflexivity|]. rewrite <- Hlen. eapply lookup_lt_Some, Hi.
  - intros k a o _ [-> _]%lookup_replicate. reflexivity.
  - intros k a Hk _. split; [|reflexivity]. apply lookup_replicate. split; [reflexivity|].
    rewrite <- Hwf. eapply lookup_lt_Some, Hk.
  - intros Hp. exact Hp.
  - intros _ idx Hb (k & i & o & n & Hi & [-> _]%lookup_replicate & Hn & Hout).
    pose proof (in_bounds_lookup _ _ _ _ _ Hb Hi Hn). lia.
Qed.

Lemma unpadded_from_skip r processed state offs :
  unpadded_from dt r processed state offs ->
  unpadded_from dt r (processed ++ ["c"]) state offs.
Proof.
  intros []. split; try assumption.
  - intros a Ha. destruct (uf_axes0 a Ha). split; [apply elem_of_app; now left | assumption].
  - rewrite List.filter_app. cbn. now rewrite app_nil_r.
Qed.

Lemma in_bounds_window r processed state offs idx :
  unpadded_from dt r processed state offs ->
  in_bounds (shape state.1.1) idx -> in_bounds (shape r) (zip_with Nat.add idx offs).
Proof.
  intros Inv Hb. unfold in_bounds in *.
  apply Forall2_same_length_lookup. split.
  - rewrite length_zip_with, (uf_offs_length _ _ _ _ _ Inv), (Forall2_length _ _ _ Hb),
      (uf_shape_length _ _ _ _ _ Inv). lia.
  - intros k v n Hv Hn. rewrite lookup_zip_with in Hv.
    destruct (idx !! k) as [i|] eqn:Hi; [|discriminate]. cbn in Hv.
    destruct (offs !! k) as [o|] eqn:Ho; [|discriminate]. cbn in Hv. injection Hv as <-.
    destruct (Forall2_lookup_l _ _ _ _ _ Hb Hi) as (n' & Hn' & Hlt).
    destruct (uf_window _ _ _ _ _ Inv k n' Hn') as (n0 & o0 & Hn0 & Ho0 & Hle).
    assert (n0 = n) by congruence. assert (o0 = o) by congruence. subst. lia.
Qed.

Lemma unpadded_from_step r pre ax suf state offs :
  length (dims r) = length (shape r) -> NoDup (dims r) ->
  dims r = pre ++ ax :: suf -> ax <> "c" ->
  unpadded_from dt r pre state offs ->
  exists u left_pad offs',
    _unpad_axis dt state.1.1 ax = Ok (u, left_pad) /\
    unpadded_from dt r (pre ++ [ax])
      (u, state.1.2 ++ [ax], state.2 ++ [Z.of_nat left_pad]) offs'.
Proof.
  intros Hwf Hnd Hdims Hc Inv. destruct state as [[u0 taxes] tvals].
  pose proof Inv as [Id It Iol Isl Ial Iax Iaf Ioff Iw Iv Ip Iu Ipad Iz]. cbn [fst snd] in *.
  set (k0 := length pre).
  assert (Hpre : ax ∉ pre).
  { rewrite Hdims in Hnd. apply NoDup_app in Hnd as (_ & Hdisj & _).
    intros Hin. apply (Hdisj ax Hin). left. }
  assert (Hk0 : dims r !! k0 = Some ax) by (rewrite Hdims; apply list_lookup_middle; reflexivity).
  assert (Hlt : k0 < length (shape u0)).
  { rewrite Isl, <- Hwf. eapply lookup_lt_Some, Hk0. }
  assert (Hidx : index_of ax (dims u0) = Some k0).
  { rewrite Id, Hdims. now apply index_of_middle. }
  assert (Hfresh : ax ∉ taxes) by (intros Hin; now destruct (Iax ax Hin)).
  destruct (Iu k0 ax Hk0 Hfresh) as [Ho0 Hs0].
  destruct (unpad_axis_spec dt u0 ax k0 Hidx Hlt)
    as (u & left_pad & n' & n & Hrun & Hn & Hle & Hd & Ht & Hs & Hv & Hsum).
  exists u, left_pad, (alter (fun o => o + left_pad) k0 offs).
  split; [assumption|].
  assert (Hother : forall k a, dims r !! k = Some a -> a <> ax -> k <> k0).
  { intros k a Hk Hne ->. congruence. }
  split; cbn [fst snd].
  - congruence.
  - congruence.
  - now rewrite length_alter.
  - now rewrite Hs, length_insert.
  - rewrite !length_app. simpl. lia.
  - intros a [Ha|Ha%list_elem_of_singleton]%elem_of_app.
    + destruct (Iax a Ha). split; [apply elem_of_app; now left | assumption].
    + subst a. split; [apply elem_of_app; right; left | assumption].
  - rewrite List.filter_app, <- Iaf. cbn [List.filter].
    destruct (String.eqb_spec ax "c"); [contradiction | reflexivity].
  - apply Forall2_app.
    + apply Forall2_same_length_lookup. split; [assumption|].
      intros j a v Ha Hval.
      destruct (Forall2_lookup_lr _ _ _ _ _ _ Ioff Ha Hval) as (k & o & Hk & Ho & ->).
      exists k, o. split; [assumption|].
      split; [|reflexivity]. rewrite list_lookup_alter_ne; [assumption|].
      intros <-. assert (a = ax) by congruence. subst a.
      apply Hfresh. eapply list_elem_of_lookup_2, Ha.
    + constructor; [|constructor]. exists k0, left_pad. split; [assumption|].
      split; [|reflexivity]. now rewrite list_lookup_alter_eq, Ho0.
  - intros k m Hk. rewrite Hs in Hk. destruct (decide (k = k0)) as [->|Hne].
    + rewrite list_lookup_insert_eq in Hk by assumption. injection Hk as <-.
      destruct (Iw k0 n Hn) as (nr & o & Hnr & Ho & Hb).
      exists nr, (o + left_pad). split; [assumption|].
      split; [rewrite list_lookup_alter_eq, Ho; reflexivity | lia].
    + rewrite list_lookup_insert_ne in Hk by congruence.
      destruct (Iw k m Hk) as (nr & o & Hnr & Ho & Hb).
      exists nr, o. split; [assumption|].
      split; [rewrite list_lookup_alter_ne by congruence; assumption | assumption].
  - intros idx Hlen. rewrite Hv, Iv by (now rewrite length_alter).
    now rewrite zip_add_alter.
  - intros k a o Hk Ho. destruct (decide (k = k0)) as [->|Hne].
    + assert (a = ax) by congruence. subst a.
      rewrite list_lookup_alter_eq, Ho0 in Ho. injection Ho as <-.
      rewrite parameter_of_snoc_new by assumption. reflexivity.
    + rewrite list_lookup_alter_ne in Ho by congruence.
      destruct (decide (a ∈ taxes)) as [Hin|Hnin].
      * rewrite parameter_of_snoc_old by assumption. eapply Ip; eauto.
      * destruct (Iu k a Hk Hnin) as [Ho' _]. assert (o = 0) by congruence. subst o.
        apply parameter_of_absent.
        intros [Hin|Hin%list_elem_of_singleton]%elem_of_app; [contradiction|].
        subst a. apply Hne. eapply NoDup_lookup; eauto.
  - intros k a Hk Hnin.
    assert (a ∉ taxes) by (intros Hin; apply Hnin, elem_of_app; now left).
    assert (a <> ax) by (intros ->; apply Hnin, elem_of_app; right; left).
    destruct (Iu k a Hk) as [Ho Hsh]; [assumption|].
    assert (k <> k0) by eauto.
    split; [now rewrite list_lookup_alter_ne by congruence|].
    rewrite Hs. now rewrite list_lookup_insert_ne by congruence.
  - intros Hp. eapply padding_is_zeros_window; eauto.
  - intros Hpos idx Hb (k & i & o' & m & Hi & Ho' & Hm & Hout).
    rewrite Hs in Hm. destruct (decide (k = k0)) as [->|Hne].
    2:{ apply (Iz Hpos idx Hb). exists k, i, o', m.
        rewrite list_lookup_alter_ne in Ho' by congruence.
        rewrite list_lookup_insert_ne in Hm by congruence. auto. }
    rewrite list_lookup_insert_eq in Hm by assumption. injection Hm as <-.
    rewrite list_lookup_alter_eq, Ho0 in Ho'. injection Ho' as <-.
    destruct (window_cases (shape u0) offs idx) as [Hold|(idx' & Hb' & ->)].
    + rewrite (in_bounds_length _ _ Hb). congruence.
    + congruence.
    + now apply (Iz Hpos idx Hb).
    + rewrite <- Iv by (rewrite (in_bounds_length _ _ Hb'); assumption).
      rewrite lookup_zip_with in Hi.
      destruct (idx' !! k0) as [i'|] eqn:Hi'; [|discriminate]. cbn in Hi.
      rewrite Ho0 in Hi. cbn in Hi. injection Hi as <-.
      pose proof (in_bounds_lookup _ _ _ _ _ Hb' Hi' Hn) as Hi'n.
      apply (sum_others_zero dt u0 k0 i').
      * now apply Ipad.
      * apply Hsum; [assumption | lia].
      * assumption.
      * now apply nth_lookup_Some with (d := 0) in Hi'.
Qed.

Lemma unpad_axes_spec r suf :
  length (dims r) = length (shape r) -> NoDup (dims r) ->
  forall pre state offs,
    dims r = pre ++ suf -> unpadded_from dt r pre state offs ->
    exists state' offs',
      unpad_axes dt suf state = Ok state' /\ unpadded_from dt r (dims r) state' offs'.
Proof.
  intros Hwf Hnd. induction suf as [|ax suf IH]; intros pre state offs Hdims Inv.
  - exists state, offs. split; [reflexivity|]. now rewrite Hdims, app_nil_r.
  - cbn [unpad_axes]. destruct (String.eqb_spec ax "c") as [->|Hc].
    + apply (IH (pre ++ ["c"]) state offs).
      * now rewrite <- app_assoc.
      * now apply unpadded_from_skip.
    + destruct (unpadded_from_step r pre ax suf state offs Hwf Hnd Hdims Hc Inv)
        as (u & left_pad & offs' & Hrun & Inv').
      rewrite Hrun. cbn [bind].
      apply (IH (pre ++ [ax]) _ offs'); [now rewrite <- app_assoc | assumption].
Qed.

End UnpaddingLoop.

(** The loop over [old_transformations.items()]: every registered
    transformation is replaced by [f] of it, and nothing else changes. *)
Lemma set_all_transformations (f : BaseTransformation -> BaseTransformation)
    (u : SpatialImage) (m : Transformations) :
  si_transform u = m ->
  let u' := map_fold (fun target_cs old_transform unpadded =>
                        set_transformation unpadded (f old_transform) target_cs) u m in
  dims u' = dims u /\ shape u' = shape u /\ values u' = values u /\
  si_transform u' = f <$> m.
Proof.
  intros Hm. cbv zeta.
  pose (P := fun (acc : SpatialImage) (m' : Transformations) =>
               dims acc = dims u /\ shape acc = shape u /\ values acc = values u /\
               forall k, si_transform acc !! k
                         = match m' !! k with Some v => Some (f v) | None => m !! k end).
  assert (HP : P (map_fold (fun target_cs old_transform unpadded =>
                              set_transformation unpadded (f old_transform) target_cs) u m) m).
  { apply (map_fold_weak_ind P).
    - repeat split; try reflexivity. intros k. now rewrite lookup_empty, Hm.
    - intros i x m' acc Hi (Hd & Hs & Hv & Hl). repeat split; try assumption.
      intros k. cbn [set_transformation si_transform].
      destruct (decide (i = k)) as [->|Hne].
      + now rewrite !lookup_insert_eq.
      + rewrite !lookup_insert_ne by assumption. apply Hl. }
  destruct HP as (Hd & Hs & Hv & Hl). repeat split; try assumption.
  apply map_eq. intros k. rewrite Hl, lookup_fmap. now destruct (m !! k).
Qed.

Lemma bind_Ok_r {A : Type} (c : result A) : bind c Ok = c.
Proof. now destruct c. Qed.

(** A [Sequence] of a translation and [old] first shifts the point, then
    applies [old]. *)
Lemma transform_points_translated translation axes old p :
  Transformations.transform_points (Sequence [Translation translation axes; old]) p
  = Transformations.transform_points old
      (map (fun c => (c.1, number_add c.2
                             (finite (Transformations.parameter_of axes translation 0 c.1)))) p).
Proof. cbn. apply bind_Ok_r. Qed.

Lemma combine_zip {A B : Type} (l : list A) (k : list B) : combine l k = zip_with pair l k.
Proof. revert k; induction l as [|x l IH]; intros [|y k]; simpl; congruence. Qed.

Lemma pixel_shifted (ds : list string) (idx offs : list nat) (param : string -> Z) :
  length idx = length ds -> length offs = length ds ->
  (forall k a o, ds !! k = Some a -> offs !! k = Some o -> param a = Z.of_nat o) ->
  map (fun c => (c.1, number_add c.2 (finite (param c.1)))) (pixel ds idx)
  = pixel ds (zip_with Nat.add idx offs).
Proof.
  intros Hi Ho Hp. unfold pixel. rewrite !combine_zip. apply list_eq. intros k.
  rewrite list_lookup_fmap, !lookup_zip_with, !list_lookup_fmap, lookup_zip_with.
  destruct (ds !! k) as [a|] eqn:Ha; [|reflexivity]. cbn.
  destruct (lookup_lt_is_Some_2 idx k) as [i Hik]; [rewrite Hi; eapply lookup_lt_Some, Ha|].
  destruct (lookup_lt_is_Some_2 offs k) as [o Hok]; [rewrite Ho; eapply lookup_lt_Some, Ha|].
  rewrite Hik, Hok. cbn. rewrite (Hp k a o Ha Hok). cbn. do 3 f_equal. lia.
Qed.

(** On a single-scale raster (named dimensions, one extent per dimension)
    [unpad_raster] returns, whatever the dtype, a raster that is a window of
    the input: it keeps the dimensions, never crops the channel dimension
    "c", and its pixel at an index vector is the input's pixel at that
    vector shifted by the left-crop offsets.  If the sums of the input tell
    padding from data, every pixel it drops is zero.  For every coordinate
    system of the input it registers [Sequence [translation; old]], where
    [translation] is the translation by the left-crop offsets of the
    dimensions other than "c" and [old] the transformation of the input, and
    under that sequence a pixel of the result goes where [old] sends the
    pixel of the input it was taken from. *)
Theorem unpad_raster_window (dt : dtype) (raster : SpatialImage) :
  length (dims raster) = length (shape raster) -> NoDup (dims raster) ->
  exists unpadded offsets translation_values,
    let translation_axes := List.filter (fun a => negb (String.eqb a "c")) (dims raster) in
    let translation := Translation translation_values translation_axes in
    unpad_raster dt raster = Ok unpadded /\
    dims unpadded = dims raster /\
    length offsets = length (shape raster) /\
    length (shape unpadded) = length (shape raster) /\
    (forall k n', shape unpadded !! k = Some n' ->
       exists n o, shape raster !! k = Some n /\ offsets !! k = Some o /\ o + n' <= n) /\
    (forall k, dims raster !! k = Some "c" ->
       offsets !! k = Some 0 /\ shape unpadded !! k = shape raster !! k) /\
    (forall idx, length idx = length (shape raster) ->
       values unpadded idx = values raster (zip_with Nat.add idx offsets)) /\
    (padding_is_zeros dt raster ->
     forall idx, in_bounds (shape raster) idx -> outside (shape unpadded) offsets idx ->
                 values raster idx = 0%Z) /\
    Forall2 (fun a v => exists k o,
               dims raster !! k = Some a /\ offsets !! k = Some o /\ v = Z.of_nat o)
            translation_axes translation_values /\
    si_transform unpadded = (fun old => Sequence [translation; old]) <$> si_transform raster /\
    forall old idx, length idx = length (shape raster) ->
      Transformations.transform_points (Sequence [translation; old]) (pixel (dims unpadded) idx)
      = Transformations.transform_points old
          (pixel (dims raster) (zip_with Nat.add idx offsets)).
Proof.
  intros Hwf Hnd.
  destruct (unpad_axes_spec dt raster (dims raster) Hwf Hnd [] (raster, [], [])
              (replicate (length (shape raster)) 0) eq_refl (unpadded_from_start dt raster Hwf))
    as ([[u taxes] tvals] & offs & Hrun & Inv).
  pose proof Inv as [Id It Iol Isl Ial Iax Iaf Ioff Iw Iv Ip Iu Ipad Iz]. cbn [fst snd] in *.
  pose proof (set_all_transformations
                (fun old => Sequence [Translation tvals taxes; old]) u (si_transform raster) It)
    as Hset. cbv zeta in Hset. destruct Hset as (Hd & Hs & Hv & Hreg).
  eexists _, offs, tvals. cbv zeta. rewrite <- Iaf.
  split.
  { unfold unpad_raster, get_dims. rewrite Hrun. cbn [bind]. reflexivity. }
  rewrite Hd, Hs, Hv.
  split; [assumption|]. split; [assumption|]. split; [assumption|]. split; [assumption|].
  split.
  { intros k Hk. apply (Iu k "c" Hk). intros Hin. now destruct (Iax _ Hin). }
  split; [assumption|]. split; [assumption|]. split; [assumption|]. split; [assumption|].
  intros old idx Hlen. rewrite transform_points_translated. f_equal. rewrite Id.
  apply pixel_shifted; [congruence | congruence | assumption].
Qed.

Lemma unpad_raster_window_witness :
  exists unpadded,
    unpad_raster int64 padded_image = Ok unpadded /\
    shape unpadded = [2; 2] /\
    map (values unpadded) (indices (shape unpadded)) = [1; 2; 3; 0]%Z /\
    si_transform unpadded !! "global"
    = Some (Sequence [Translation [1; 1]%Z ["y"; "x"]; Scale [2; 2]%Z ["y"; "x"]]).
Proof.
  destruct (unpad_raster_window int64 padded_image) as (unpadded & offs & tvals & Hrun & _).
  - reflexivity.
  - apply (bool_decide_unpack _). vm_compute. exact I.
  - exists unpadded. split; [exact Hrun|].
    vm_compute in Hrun. injection Hrun as <-.
    split; [reflexivity|]. split; vm_compute; reflexivity.
Defined.

(** C10.  The code against its documentation ("Contiguous zero values are
    considered padding") and against the claim that only all-zero border
    slices are cropped: the first row of [signed_image], a raster of 64-bit
    integers, holds 1 and -1, which sum to zero, and [unpad_raster] cuts it.
    The result has the one row [2; 3], and "global" is reached through the
    translation by one row. *)
Lemma C10_unpad_raster_cuts_signed_row :
  exists unpadded,
    unpad_raster int64 signed_image = Ok unpadded /\
    shape unpadded = [1; 2] /\
    map (values unpadded) (indices (shape unpadded)) = [2; 3]%Z /\
    si_transform unpadded !! "global"
    = Some (Sequence [Translation [1; 0]%Z ["y"; "x"]; Identity]) /\
    outside (shape unpadded) [1; 0] [0; 0] /\
    values signed_image [0; 0] = 1%Z /\ values signed_image [0; 1] = (-1)%Z.
Proof.
  eexists. split; [vm_compute; reflexivity|]. cbn [shape isel].
  split; [reflexivity|]. split; [vm_compute; reflexivity|].
  split; [vm_compute; reflexivity|]. split; [|split; reflexivity].
  exists 0, 0, 1, 1. repeat split. left. lia.
Qed.

(** ** The JSON printer and reader *)

Module SerializationFacts.
Import Serialization.

Lemma json_induction (P : json -> Prop) :
  (forall z, P (JNumber z)) -> (forall s, P (JString s)) ->
  (forall l, Forall P l -> P (JList l)) ->
  (forall items, Forall (fun kv => P (snd kv)) items -> P (JDict items)) ->
  forall j, P j.
Proof.
  intros HN HS HL HD. fix IH 1. intros [z|s|l|items]; [apply HN | apply HS | |].
  - apply HL. induction l as [|x l IHl]; constructor; [apply IH | exact IHl].
  - apply HD. induction items as [|[k v] items IHl]; constructor; [apply IH | exact IHl].
Qed.

Lemma read_string_escape s r : read_string (escape s ++ quote :: r) = Some (s, r).
Proof.
  induction s as [|c s IH]; [reflexivity|]. cbn [escape].
  destruct (Ascii.eqb c quote) eqn:Eq; cbn [orb].
  - cbn [app read_string]. change (Ascii.eqb backslash quote) with false.
    rewrite Ascii.eqb_refl. cbn iota. now rewrite IH.
  - destruct (Ascii.eqb c backslash) eqn:Eb.
    + cbn [app read_string]. change (Ascii.eqb backslash quote) with false.
      rewrite Ascii.eqb_refl. cbn iota. now rewrite IH.
    + cbn [app read_string]. rewrite Eq, Eb, IH. reflexivity.
Qed.

Lemma read_uint_chars d r : ends_number r -> read_uint (uint_chars d ++ r) = (d, r).
Proof.
  intros Hr. induction d as [|d IH|d IH|d IH|d IH|d IH|d IH|d IH|d IH|d IH|d IH];
    cbn [uint_chars app read_uint];
    try (change (digit_of _) with (Some Decimal.D0) || change (digit_of _) with (Some Decimal.D1)
         || change (digit_of _) with (Some Decimal.D2) || change (digit_of _) with (Some Decimal.D3)
         || change (digit_of _) with (Some Decimal.D4) || change (digit_of _) with (Some Decimal.D5)
         || change (digit_of _) with (Some Decimal.D6) || change (digit_of _) with (Some Decimal.D7)
         || change (digit_of _) with (Some Decimal.D8) || change (digit_of _) with (Some Decimal.D9));
    try (rewrite IH; reflexivity).
  destruct r as [|c r]; [reflexivity|]. cbn [read_uint]. cbn in Hr. now rewrite Hr.
Qed.

Lemma read_value_space n cs : read_value n (" "%char :: cs) = read_value n cs.
Proof. destruct n; reflexivity. Qed.

Lemma read_elements_space n cs : read_elements n (" "%char :: cs) = read_elements n cs.
Proof. destruct n; [reflexivity|]. cbn [read_elements]. now rewrite read_value_space. Qed.

Lemma read_members_space n cs : read_members n (" "%char :: cs) = read_members n cs.
Proof. destruct n; reflexivity. Qed.

Lemma uint_chars_head d :
  d <> Decimal.Nil -> exists c cs f, uint_chars d = c :: cs /\ digit_of c = Some f.
Proof. destruct d; [congruence|..]; intros _; cbn [uint_chars]; eauto. Qed.

Lemma dumps_chars_head j : exists c cs, dumps_chars j = c :: cs /\ first_char c.
Proof.
  destruct j as [z|s|l|items]; cbn [dumps_chars quoted].
  - unfold number_chars. destruct z as [|p|p]; cbn [Z.to_int].
    + eexists _, _. split; [reflexivity|]. now apply (first_digit _ Decimal.D0).
    + destruct (uint_chars_head _ (Unsigned.to_uint_nonnil p)) as (c & cs & f & -> & Hc).
      eexists _, _. split; [reflexivity|]. now apply (first_digit _ f).
    + eexists _, _. split; [reflexivity | constructor].
  - eexists _, _. split; [reflexivity | constructor].
  - eexists _, _. split; [reflexivity | constructor].
  - eexists _, _. split; [reflexivity | constructor].
Qed.

Lemma first_char_facts c :
  first_char c -> Ascii.eqb c " "%char = false /\ Ascii.eqb c "]"%char = false.
Proof.
  intros [ | | | |c' f Hc]; try (split; reflexivity).
  split.
  - destruct (Ascii.eqb_spec c' " "%char) as [->|]; [discriminate | reflexivity].
  - destruct (Ascii.eqb_spec c' "]"%char) as [->|]; [discriminate | reflexivity].
Qed.

Lemma digit_facts c f :
  digit_of c = Some f ->
  Ascii.eqb c " "%char = false /\ Ascii.eqb c quote = false /\
  Ascii.eqb c "["%char = false /\ Ascii.eqb c "{"%char = false /\
  Ascii.eqb c "-"%char = false.
Proof.
  intros Hc. repeat split.
  - destruct (Ascii.eqb_spec c " "%char) as [->|]; [discriminate | reflexivity].
  - destruct (Ascii.eqb_spec c quote) as [->|]; [discriminate | reflexivity].
  - destruct (Ascii.eqb_spec c "["%char) as [->|]; [discriminate | reflexivity].
  - destruct (Ascii.eqb_spec c "{"%char) as [->|]; [discriminate | reflexivity].
  - destruct (Ascii.eqb_spec c "-"%char) as [->|]; [discriminate | reflexivity].
Qed.

Lemma read_value_number z n r :
  ends_number r -> read_value (S n) (number_chars z ++ r) = Some (JNumber z, r).
Proof.
  intros Hr. rewrite <- (DecimalZ.of_to z) at 2. unfold number_chars.
  destruct (Z.to_int z) as [d|d] eqn:E.
  - assert (Hd : d <> Decimal.Nil).
    { destruct z as [|p|p]; cbn in E; try discriminate; injection E as <-;
        [discriminate | apply Unsigned.to_uint_nonnil]. }
    destruct (uint_chars_head d Hd) as (c & cs & f & Hu & Hc).
    destruct (digit_facts c f Hc) as (H1 & H2 & H3 & H4 & H5).
    rewrite Hu. cbn [app read_value skip_spaces]. rewrite H1, H2, H3, H4, H5, Hc.
    change (c :: cs ++ r) with ((c :: cs) ++ r). rewrite <- Hu, read_uint_chars by assumption.
    reflexivity.
  - cbn [app read_value skip_spaces]. cbn [Ascii.eqb Bool.eqb quote].
    rewrite read_uint_chars by assumption. reflexivity.
Qed.

Lemma dumps_chars_list l :
  dumps_chars (JList l) = "["%char :: join separator (map dumps_chars l) ++ ["]"%char].
Proof. reflexivity. Qed.

Lemma dumps_chars_dict items :
  dumps_chars (JDict items)
  = "{"%char :: join separator (map (member_chars dumps_chars) items) ++ ["}"%char].
Proof. reflexivity. Qed.

Lemma join_cons sep x y l : join sep (x :: y :: l) = x ++ sep ++ join sep (y :: l).
Proof. reflexivity. Qed.

Lemma read_elements_join l :
  Forall reads_back l -> l <> [] ->
  forall fuel r, length (join separator (map dumps_chars l)) + 1 <= fuel ->
    read_elements fuel (join separator (map dumps_chars l) ++ "]"%char :: r) = Some (l, r).
Proof.
  induction 1 as [|x l Hx Hl IH]; [congruence|]. intros _ fuel r Hfuel.
  destruct fuel as [|n]; [lia|]. destruct l as [|y l].
  - cbn [map join] in *. cbn [read_elements].
    rewrite Hx; [|lia|reflexivity]. reflexivity.
  - cbn [map] in *. rewrite join_cons in *. rewrite <- !app_assoc.
    rewrite !length_app in Hfuel. cbn [length separator] in Hfuel.
    cbn [read_elements]. rewrite Hx; [|lia|reflexivity].
    cbn [separator app skip_spaces Ascii.eqb Bool.eqb]. cbn iota.
    rewrite read_elements_space, IH; [reflexivity | discriminate | lia].
Qed.

Lemma read_members_join items :
  Forall (fun kv => reads_back (snd kv)) items -> items <> [] ->
  forall fuel r,
    length (join separator (map (member_chars dumps_chars) items)) + 1 <= fuel ->
    read_members fuel (join separator (map (member_chars dumps_chars) items)
                       ++ "}"%char :: r) = Some (items, r).
Proof.
  induction 1 as [|[k v] l Hx Hl IH]; [congruence|]. intros _ fuel r Hfuel.
  destruct fuel as [|n]; [lia|]. cbn [snd] in Hx. destruct l as [|y l].
  - cbn [map join] in *. unfold member_chars, quoted in *. cbn [fst snd] in *.
    rewrite !length_app in Hfuel. cbn [length] in Hfuel. rewrite !length_app in Hfuel.
    cbn [length] in Hfuel.
    rewrite <- !app_assoc. cbn [app read_members skip_spaces].
    change (Ascii.eqb quote " "%char) with false. cbn iota.
    rewrite Ascii.eqb_refl. rewrite <- app_assoc. cbn [app].
    rewrite read_string_escape.
    cbn [skip_spaces Ascii.eqb Bool.eqb]. cbn iota.
    rewrite read_value_space, Hx; [|lia|reflexivity]. reflexivity.
  - cbn [map] in *. rewrite join_cons in *.
    unfold member_chars at 1, quoted. unfold member_chars at 1 in Hfuel.
    unfold quoted in Hfuel. cbn [fst snd] in *.
    rewrite !length_app in Hfuel. cbn [length separator] in Hfuel.
    rewrite !length_app in Hfuel. cbn [length] in Hfuel.
    rewrite <- !app_assoc. cbn [app read_members skip_spaces].
    change (Ascii.eqb quote " "%char) with false. cbn iota.
    rewrite Ascii.eqb_refl. rewrite <- !app_assoc. cbn [app].
    rewrite read_string_escape.
    cbn [skip_spaces Ascii.eqb Bool.eqb]. cbn iota.
    rewrite read_value_space, Hx; [|lia|reflexivity].
    cbn [separator app skip_spaces Ascii.eqb Bool.eqb]. cbn iota.
    rewrite read_members_space, IH; [reflexivity | discriminate | lia].
Qed.

Lemma join_head sep x l : exists cs, join sep (x :: l) = x ++ cs.
Proof. destruct l; [exists []; cbn; now rewrite app_nil_r | eexists; reflexivity]. Qed.

Lemma read_value_dumps j : reads_back j.
Proof.
  induction j as [z|s|l IH|items IH] using json_induction; intros fuel r Hfuel Hr.
  - destruct fuel as [|n].
    + destruct (dumps_chars_head (JNumber z)) as (c & cs & E & _). rewrite E in Hfuel.
      cbn in Hfuel. lia.
    + now apply read_value_number.
  - destruct fuel as [|n]; [cbn in Hfuel; lia|].
    cbn [dumps_chars quoted app]. rewrite <- app_assoc.
    cbn [app read_value skip_spaces].
    change (Ascii.eqb quote " "%char) with false. cbn iota. rewrite Ascii.eqb_refl.
    now rewrite read_string_escape.
  - rewrite dumps_chars_list in *. destruct fuel as [|n]; [cbn in Hfuel; lia|].
    destruct l as [|x l]; [reflexivity|].
    cbn [length] in Hfuel. rewrite length_app in Hfuel. cbn [length] in Hfuel.
    cbn [app]. rewrite <- app_assoc.
    cbn [app read_value skip_spaces Ascii.eqb Bool.eqb quote]. cbn iota.
    destruct (join_head separator (dumps_chars x) (map dumps_chars l)) as [rest Hj].
    destruct (dumps_chars_head x) as (c & cs & Hx & Hc%first_char_facts).
    destruct Hc as [Hc1 Hc2].
    cbn [map] in *.
    assert (Hskip : skip_spaces (join separator (dumps_chars x :: map dumps_chars l)
                                 ++ "]"%char :: r)
                    = c :: cs ++ rest ++ "]"%char :: r).
    { rewrite Hj, Hx. rewrite <- !app_assoc. cbn [app skip_spaces]. now rewrite Hc1. }
    rewrite Hskip, Hc2.
    change (dumps_chars x :: map dumps_chars l) with (map dumps_chars (x :: l)).
    rewrite read_elements_join; [reflexivity | assumption | discriminate |].
    cbn [map]. lia.
  - rewrite dumps_chars_dict in *. destruct fuel as [|n]; [cbn in Hfuel; lia|].
    destruct items as [|[k v] items]; [reflexivity|].
    cbn [length] in Hfuel. rewrite length_app in Hfuel. cbn [length] in Hfuel.
    cbn [app]. rewrite <- app_assoc.
    cbn [app read_value skip_spaces Ascii.eqb Bool.eqb quote]. cbn iota.
    destruct (join_head separator (member_chars dumps_chars (k, v))
                (map (member_chars dumps_chars) items)) as [rest Hj].
    cbn [map] in *.
    assert (Hskip : exists cs,
              skip_spaces (join separator (member_chars dumps_chars (k, v)
                             :: map (member_chars dumps_chars) items)
                           ++ "}"%char :: r) = quote :: cs).
    { rewrite Hj. unfold member_chars, quoted. cbn [fst snd app]. eexists. reflexivity. }
    destruct Hskip as [cs Hskip].
    rewrite Hskip. change (Ascii.eqb quote "}"%char) with false. cbn iota.
    change (member_chars dumps_chars (k, v) :: map (member_chars dumps_chars) items)
      with (map (member_chars dumps_chars) ((k, v) :: items)).
    rewrite read_members_join; [reflexivity | assumption | discriminate |].
    cbn [map]. lia.
Qed.

Lemma length_string_of_list_ascii l : String.length (string_of_list_ascii l) = length l.
Proof. induction l as [|c l IH]; cbn; congruence. Qed.

Lemma loads_dumps_text j : loads_text (dumps_text j) = Ok j.
Proof.
  unfold loads_text, dumps_text.
  rewrite list_ascii_of_string_of_list_ascii, length_string_of_list_ascii.
  rewrite <- (app_nil_r (dumps_chars j)) at 2.
  rewrite (read_value_dumps j); [reflexivity | lia | exact I].
Qed.

End SerializationFacts.

(** ** Serialization round trip *)

Lemma Transformation_induction (P : Serialization.Transformation -> Prop) :
  (forall v input output, P (Serialization.Single v input output)) ->
  (forall ts input output, Forall P ts -> P (Serialization.Composed ts input output)) ->
  forall t, P t.
Proof.
  intros HS HC. fix IH 1. intros [v i o|ts i o]; [apply HS|].
  apply HC. induction ts as [|t ts IHts]; constructor; [apply IH | exact IHts].
Qed.

Lemma decode_numbers (v : list Z) :
  traverse Serialization.as_number (map Serialization.JNumber v) = Ok v.
Proof. induction v as [|z v IH]; cbn; [reflexivity | now rewrite IH]. Qed.

Lemma decode_strings (l : list string) :
  traverse Serialization.as_string (map Serialization.JString l) = Ok l.
Proof. induction l as [|z l IH]; cbn; [reflexivity | now rewrite IH]. Qed.

Lemma decode_rows (m : list (list Z)) :
  traverse (Serialization.as_list Serialization.as_number) (map Serialization.numbers m)
  = Ok m.
Proof.
  induction m as [|r m IH]; cbn; [reflexivity|]. rewrite decode_numbers. cbn.
  now rewrite IH.
Qed.

Lemma decode_names (m : list (string * string)) :
  traverse (fun kv : string * Serialization.json =>
              let* s := Serialization.as_string kv.2 in Ok (kv.1, s))
           (map (fun oi : string * string => (oi.1, Serialization.JString oi.2)) m)
  = Ok m.
Proof. induction m as [|[o i] m IH]; cbn; [reflexivity | now rewrite IH]. Qed.

Lemma decode_axis (a : Serialization.Axis) :
  Serialization.axis_from_dict (Serialization.axis_to_dict a) = Ok a.
Proof. destruct a as [n t [u|]]; reflexivity. Qed.

Lemma decode_axes (l : list Serialization.Axis) :
  traverse Serialization.axis_from_dict (map Serialization.axis_to_dict l) = Ok l.
Proof.
  induction l as [|a l IH]; cbn [map traverse]; [reflexivity|].
  rewrite decode_axis, IH. reflexivity.
Qed.

Lemma decode_reference (r : Serialization.coordinate_system_reference) :
  Serialization.reference_from_json (Serialization.reference_to_json r) = Ok r.
Proof.
  destruct r as [s|[n l]]; [reflexivity|].
  cbn -[Serialization.axis_from_dict Serialization.axis_to_dict].
  now rewrite decode_axes.
Qed.

(** Reading the coordinate systems back from the items written last. *)
Lemma get_app_absent key (pre rest : list (string * Serialization.json)) :
  key ∉ map fst pre -> Serialization.get key (pre ++ rest) = Serialization.get key rest.
Proof.
  induction pre as [|[k v] pre IH]; intros Hk; [reflexivity|].
  cbn [app Serialization.get]. destruct (String.eqb_spec k key) as [->|Hne].
  - destruct Hk. left.
  - apply IH. intros Hin. apply Hk. now right.
Qed.

Lemma decode_coordinate_systems pre input output :
  "input" ∉ map fst pre -> "output" ∉ map fst pre ->
  Serialization.get_optional "input" Serialization.reference_from_json
    (pre ++ Serialization.coordinate_systems input output) = Ok input /\
  Serialization.get_optional "output" Serialization.reference_from_json
    (pre ++ Serialization.coordinate_systems input output) = Ok output.
Proof.
  intros Hi Ho. unfold Serialization.get_optional.
  rewrite !get_app_absent by assumption. unfold Serialization.coordinate_systems.
  destruct input as [i|], output as [o|]; cbn [app Serialization.get String.eqb Ascii.eqb
                                                Bool.eqb];
    rewrite ?decode_reference; split; reflexivity.
Qed.

Lemma fields_without_coordinate_systems v :
  ("input" ∉ map fst (("type", Serialization.JString (Serialization.tag_of v))
                       :: Serialization.fields_of v)) /\
  ("output" ∉ map fst (("type", Serialization.JString (Serialization.tag_of v))
                        :: Serialization.fields_of v)).
Proof.
  split; destruct v; cbn [map fst Serialization.fields_of]; intros Hin;
    repeat (apply elem_of_cons in Hin as [Heq|Hin]; [discriminate|]); inversion Hin.
Qed.

Lemma decode_variant v rest :
  Serialization.variant_from (Serialization.tag_of v) (Serialization.fields_of v ++ rest)
  = Ok v.
Proof.
  destruct v; cbn;
    rewrite ?decode_numbers, ?decode_strings, ?decode_rows, ?decode_names; cbn;
    rewrite ?decode_numbers, ?decode_strings, ?decode_rows, ?decode_names; cbn;
    rewrite ?decode_numbers, ?decode_strings, ?decode_rows, ?decode_names; reflexivity.
Qed.

Lemma from_dict_to_dict (t : Serialization.Transformation) :
  Serialization.from_dict (Serialization.to_dict t) = Ok t.
Proof.
  induction t as [v i o|ts i o IH] using Transformation_induction.
  - cbn [Serialization.to_dict Serialization.from_dict Serialization.get String.eqb
         Ascii.eqb Bool.eqb bind Serialization.as_string].
    replace (String.eqb (Serialization.tag_of v) "sequence") with false
      by (now destruct v).
    assert (Hv : Serialization.variant_from (Serialization.tag_of v)
                   (("type", Serialization.JString (Serialization.tag_of v))
                    :: Serialization.fields_of v ++ Serialization.coordinate_systems i o)
                 = Ok v).
    { rewrite <- (decode_variant v (Serialization.coordinate_systems i o)).
      now destruct v. }
    rewrite Hv. cbn [bind].
    destruct (fields_without_coordinate_systems v) as [Hi Ho].
    destruct (decode_coordinate_systems _ i o Hi Ho) as [Ei Eo].
    cbn [app] in Ei, Eo. rewrite Ei. cbn [bind]. rewrite Eo. reflexivity.
  - cbn [Serialization.to_dict Serialization.from_dict Serialization.get String.eqb
         Ascii.eqb Bool.eqb bind Serialization.as_string].
    match goal with
    | |- bind ?c _ = _ => assert (Hts : c = Ok ts)
    end.
    { induction IH as [|t ts' Ht _ IHts]; cbn [map]; [reflexivity|].
      rewrite Ht. cbn [bind]. rewrite IHts. reflexivity. }
    rewrite Hts. cbn [bind].
    destruct (decode_coordinate_systems
                [("type", Serialization.JString "sequence");
                 ("transformations",
                  Serialization.JList (map Serialization.to_dict ts))] i o) as [Ei Eo].
    { cbn. intros Hin.
      repeat (apply elem_of_cons in Hin as [Heq|Hin]; [discriminate|]); inversion Hin. }
    { cbn. intros Hin.
      repeat (apply elem_of_cons in Hin as [Heq|Hin]; [discriminate|]); inversion Hin. }
    cbn [app] in Ei, Eo. rewrite Ei. cbn [bind]. rewrite Eo. reflexivity.
Qed.

(** C8.  For every transformation, including arbitrarily nested sequences
    and with coordinate systems set by name or in full, [from_dict (to_dict
    t)] exists and has the same [to_dict] as [t]; [from_json (to_json t)]
    exists and has the same [to_json] as [t] for the JSON printer and reader
    of this file, and for every other pair of a writer and a reader that
    give back the dictionary of [t]. *)
Theorem C8_serialization_round_trip (t : Serialization.Transformation) :
  (exists t', Serialization.from_dict (Serialization.to_dict t) = Ok t' /\
              Serialization.to_dict t' = Serialization.to_dict t) /\
  (exists t', Serialization.from_json Serialization.loads_text
                (Serialization.to_json Serialization.dumps_text t) = Ok t' /\
              Serialization.to_json Serialization.dumps_text t'
              = Serialization.to_json Serialization.dumps_text t) /\
  (forall (dumps : Serialization.json -> string) (loads : string -> result Serialization.json),
     loads (dumps (Serialization.to_dict t)) = Ok (Serialization.to_dict t) ->
     exists t', Serialization.from_json loads (Serialization.to_json dumps t) = Ok t' /\
                Serialization.to_json dumps t' = Serialization.to_json dumps t).
Proof.
  split; [|split].
  - exists t. split; [apply from_dict_to_dict | reflexivity].
  - exists t. split; [|reflexivity].
    unfold Serialization.from_json, Serialization.to_json.
    rewrite SerializationFacts.loads_dumps_text. cbn [bind]. apply from_dict_to_dict.
  - intros dumps loads Hjson. exists t. split; [|reflexivity].
    unfold Serialization.from_json, Serialization.to_json. rewrite Hjson. cbn [bind].
    apply from_dict_to_dict.
Qed.

Lemma C8_serialization_round_trip_witness :
  Serialization.from_json Serialization.loads_text
    (Serialization.to_json Serialization.dumps_text nested_sequence) = Ok nested_sequence.
Proof.
  destruct (C8_serialization_round_trip nested_sequence) as (_ & (t' & Hrun & _) & _).
  rewrite Hrun. vm_compute in Hrun. injection Hrun as <-. reflexivity.
Defined.

(** ** The corners are needed *)

(** The box with minimum (0, 0) and maximum (2, 1).  Under the quarter turn
    its extent is the box of the four turned corners, min (-1, 0) and max
    (0, 2), which is not the pair of the turned minimum (0, 0) and the turned
    maximum (-1, 2).  Under [turn_and_stretch] the extent, min (-1, 0) and
    max (2, 3), is not even the box spanned by the images (0, 0) and (1, 3)
    of the minimum and the maximum: the corners (2, 0) and (0, 1) decide. *)
Lemma corner_enumeration_needed :
  get_extent Transformations.transform_points
    (a_SpatialElement (points_element two_points)) "global"
  = Ok (map finite [-1; 0]%Z, map finite [0; 2]%Z, ["x"; "y"]) /\
  Transformations.transform_points quarter_turn [("x", finite 0); ("y", finite 0)]
  = Ok [("x", finite 0); ("y", finite 0)] /\
  Transformations.transform_points quarter_turn [("x", finite 2); ("y", finite 1)]
  = Ok [("x", finite (-1)); ("y", finite 2)] /\
  get_extent Transformations.transform_points
    (a_SpatialElement (points_element two_turned_points)) "global"
  = Ok (map finite [-1; 0]%Z, map finite [2; 3]%Z, ["x"; "y"]) /\
  Transformations.transform_points turn_and_stretch [("x", finite 0); ("y", finite 0)]
  = Ok [("x", finite 0); ("y", finite 0)] /\
  Transformations.transform_points turn_and_stretch [("x", finite 2); ("y", finite 1)]
  = Ok [("x", finite 1); ("y", finite 3)].
Proof. repeat split; vm_compute; reflexivity. Qed.

(** ** What one step of the unpadding cuts *)

(** Along a dimension of the raster, [_unpad_axis] keeps a window of the
    slices and every slice it cuts, before or after the window, has a sum
    over the other dimensions, taken in the dtype of the raster, that
    [isclose] takes for zero; the pixels of such a slice need not be zero. *)
Theorem unpad_axis_cuts_zero_sums (dt : dtype) (data : SpatialImage) (axis : string)
    (k : nat) :
  index_of axis (dims data) = Some k -> k < length (shape data) ->
  exists unpadded left_pad kept n,
    _unpad_axis dt data axis = Ok (unpadded, left_pad) /\
    shape data !! k = Some n /\ left_pad + kept <= n /\
    shape unpadded = <[k := kept]> (shape data) /\
    forall i, i < n -> i < left_pad \/ left_pad + kept <= i ->
              isclose_0 dt (sum_others dt data k i) = true.
Proof.
  intros Hk Hlt.
  destruct (unpad_axis_spec dt data axis k Hk Hlt)
    as (u & left_pad & n' & n & Hrun & Hn & Hle & _ & _ & Hs & _ & Hsum).
  exists u, left_pad, n', n. auto.
Qed.

Lemma unpad_axis_cuts_zero_sums_witness :
  exists unpadded left_pad kept n,
    _unpad_axis int64 signed_image "y" = Ok (unpadded, left_pad) /\
    shape signed_image !! 0 = Some n /\ left_pad + kept <= n /\
    shape unpadded = <[0 := kept]> (shape signed_image) /\
    forall i, i < n -> i < left_pad \/ left_pad + kept <= i ->
              isclose_0 int64 (sum_others int64 signed_image 0 i) = true.
Proof.
  apply (unpad_axis_cuts_zero_sums int64 signed_image "y" 0).
  - reflexivity.
  - cbn. lia.
Defined.

(** ** An extent that the transformation leaves in place *)

Lemma traverse_map {A B : Type} (f : A -> result B) (g : A -> B) (xs : list A) :
  (forall x, x ∈ xs -> f x = Ok (g x)) -> traverse f xs = Ok (map g xs).
Proof.
  induction xs as [|x xs IH]; intros H; cbn; [reflexivity|].
  rewrite H by left. cbn. rewrite IH; [reflexivity|]. intros y Hy. apply H. now right.
Qed.

Lemma traverse_unmap {A B : Type} (f : B -> result A) (h : A -> B) (xs : list A) :
  (forall x, x ∈ xs -> f (h x) = Ok x) -> traverse f (map h xs) = Ok xs.
Proof.
  induction xs as [|x xs IH]; intros H; cbn; [reflexivity|].
  rewrite H by left. cbn. rewrite IH; [reflexivity|]. intros y Hy. apply H. now right.
Qed.

Lemma coordinate_combine (axes : list string) (c : list number) i ax v :
  NoDup axes -> axes !! i = Some ax -> c !! i = Some v ->
  coordinate ax (combine axes c) = Ok v.
Proof.
  revert c i; induction axes as [|a axes IH]; intros [|x c] i Hnd Ha Hc;
    try (now destruct i).
  apply NoDup_cons in Hnd as [Hna Hnd]. cbn [combine coordinate].
  destruct i as [|i]; cbn in Ha, Hc.
  - injection Ha as ->. injection Hc as ->. now rewrite String.eqb_refl.
  - destruct (String.eqb_spec a ax) as [->|Hne].
    + destruct Hna. eapply list_elem_of_lookup_2, Ha.
    + eapply IH; eauto.
Qed.

Lemma coordinates_of_combine (axes : list string) (c : list number) :
  NoDup axes -> length c = length axes ->
  traverse (fun ax => coordinate ax (combine axes c)) axes = Ok c.
Proof.
  intros Hnd Hlen. apply traverse_Forall2, Forall2_same_length_lookup.
  split; [congruence|]. intros i ax v Ha Hc. eapply coordinate_combine; eauto.
Qed.

Lemma lower_is_corner {A : Type} (mn mx : list A) :
  length mn = length mx -> mn ∈ corners mn mx.
Proof.
  intros H. apply elem_of_corners. unfold is_corner.
  revert mx H; induction mn as [|a mn IH]; intros [|b mx] H; simpl in *; try congruence.
  - constructor.
  - constructor; [now left | apply IH; lia].
Qed.

Lemma upper_is_corner {A : Type} (mn mx : list A) :
  length mn = length mx -> mx ∈ corners mn mx.
Proof.
  intros H. apply elem_of_corners. unfold is_corner.
  revert mx H; induction mn as [|a mn IH]; intros [|b mx] H; simpl in *; try congruence.
  - constructor.
  - constructor; [now right | apply IH; lia].
Qed.

Lemma corner_lookup {A : Type} (mn mx c : list A) i a b :
  c ∈ corners mn mx -> mn !! i = Some a -> mx !! i = Some b ->
  c !! i = Some a \/ c !! i = Some b.
Proof.
  intros Hc%elem_of_corners Ha Hb. unfold is_corner in Hc.
  assert (Hab : combine mn mx !! i = Some (a, b)).
  { rewrite combine_zip, lookup_zip_with, Ha, Hb. reflexivity. }
  destruct (Forall2_lookup_r _ _ _ _ _ Hc Hab) as (v & Hv & [->| ->]); auto.
Qed.

Lemma corners_fmap {A B : Type} (h : A -> B) (mn mx : list A) :
  corners (map h mn) (map h mx) = map (map h) (corners mn mx).
Proof.
  revert mx; induction mn as [|lo mn IH]; intros [|hi mx]; try reflexivity.
  cbn [map corners]. rewrite IH, map_app, !map_map. reflexivity.
Qed.

(** The minimum and the maximum of a series depend on the numbers it holds
    only. *)
Lemma Series_min_same_members l l' :
  (forall v, finite v ∈ l <-> finite v ∈ l') -> Series_min l = Series_min l'.
Proof.
  intros H.
  assert (H' : forall v, v ∈ finite_entries l <-> v ∈ finite_entries l')
    by (intros v; now rewrite !elem_of_finite_entries).
  destruct (Series_min l) as [m|] eqn:E.
  - symmetry. apply Series_min_spec. apply Series_min_spec in E as [E1 E2].
    split; [now apply H' | intros v Hv%H'; now apply E2].
  - symmetry. apply Series_min_nan. apply Series_min_nan in E.
    apply nil_iff_no_elem. intros v Hv%H'. rewrite E in Hv. inversion Hv.
Qed.

Lemma Series_max_same_members l l' :
  (forall v, finite v ∈ l <-> finite v ∈ l') -> Series_max l = Series_max l'.
Proof.
  intros H.
  assert (H' : forall v, v ∈ finite_entries l <-> v ∈ finite_entries l')
    by (intros v; now rewrite !elem_of_finite_entries).
  destruct (Series_max l) as [m|] eqn:E.
  - symmetry. apply Series_max_spec. apply Series_max_spec in E as [E1 E2].
    split; [now apply H' | intros v Hv%H'; now apply E2].
  - symmetry. apply Series_max_nan. apply Series_max_nan in E.
    apply nil_iff_no_elem. intros v Hv%H'. rewrite E in Hv. inversion Hv.
Qed.

(** The [i]-th column of the table of corners holds the two bounds of axis
    [i] and nothing else. *)
Lemma column_of_corners (mn mx : list number) i a b :
  length mn = length mx -> mn !! i = Some a -> mx !! i = Some b ->
  forall v, v ∈ map (fun c => nth i c nan) (corners mn mx) <-> v ∈ [a; b].
Proof.
  intros Hlen Ha Hb v. rewrite list_elem_of_fmap. split.
  - intros (c & -> & Hc).
    destruct (corner_lookup _ _ _ _ _ _ Hc Ha Hb) as [H|H];
      rewrite (nth_lookup_Z _ _ _ H); [left | right; left].
  - intros [->|[->|Hv]%elem_of_cons]%elem_of_cons; [| |inversion Hv].
    + exists mn. split; [|now apply lower_is_corner]. symmetry. now apply nth_lookup_Z.
    + exists mx. split; [|now apply upper_is_corner]. symmetry. now apply nth_lookup_Z.
Qed.

(** When the transformed corners are the corners of a box, the extent has,
    on every axis, the minimum and the maximum of the two bounds of that
    box. *)
Lemma compute_extent_corner_images
    (transform_points : BaseTransformation -> NamedPoint -> result NamedPoint)
    (element : SpatialElement) (coordinate_system : string) (t : BaseTransformation)
    (min_coordinates max_coordinates new_min new_max : list number) (axes : list string) :
  get_all_transformations element !! coordinate_system = Some t ->
  length min_coordinates = length axes -> length max_coordinates = length axes ->
  length new_min = length axes -> length new_max = length axes ->
  NoDup axes ->
  traverse (transform_points t) (map (combine axes) (corners min_coordinates max_coordinates))
  = Ok (map (combine axes) (corners new_min new_max)) ->
  _compute_extent_in_coordinate_system transform_points element coordinate_system
    min_coordinates max_coordinates axes
  = Ok (zip_with (fun a b => Series_min [a; b]) new_min new_max,
        zip_with (fun a b => Series_max [a; b]) new_min new_max, axes).
Proof.
  intros Ht Hmn Hmx Hmn' Hmx' Hnd Himg.
  rewrite (compute_extent_steps _ _ _ t) by assumption.
  unfold transform, named_rows. cbn [columns df_rows].
  rewrite Himg. cbn [bind].
  assert (Hdata : traverse (fun p : NamedPoint => traverse (fun ax => coordinate ax p) axes)
                    (map (combine axes) (corners new_min new_max))
                  = Ok (corners new_min new_max)).
  { apply traverse_unmap. intros c Hc. apply coordinates_of_combine; [assumption|].
    rewrite (corner_width _ _ _ Hc), combine_length_same; congruence. }
  rewrite Hdata. cbn [bind].
  set (df := {| columns := axes; df_rows := corners new_min new_max |}).
  do 2 f_equal. f_equal.
  - apply list_eq_same_length with (length axes).
    + rewrite length_zip_with. lia.
    + apply DataFrame_min_length.
    + intros i lo v Hi Hlo Hv.
      apply lookup_zip_with_Some in Hv as (a & b & -> & Ha & Hb).
      rewrite DataFrame_min_lookup in Hlo by assumption. injection Hlo as <-.
      apply Series_min_same_members. intros v.
      apply column_of_corners; [congruence | assumption | assumption].
  - apply list_eq_same_length with (length axes).
    + rewrite length_zip_with. lia.
    + apply DataFrame_max_length.
    + intros i hi v Hi Hhi Hv.
      apply lookup_zip_with_Some in Hv as (a & b & -> & Ha & Hb).
      rewrite DataFrame_max_lookup in Hhi by assumption. injection Hhi as <-.
      apply Series_max_same_members. intros v.
      apply column_of_corners; [congruence | assumption | assumption].
Qed.

(** Bounds that agree are the minimum and the maximum of the two. *)
Lemma zip_agree (mn mx : list number) :
  Forall2 bounds_agree mn mx ->
  zip_with (fun a b => Series_min [a; b]) mn mx = mn /\
  zip_with (fun a b => Series_max [a; b]) mn mx = mx.
Proof.
  induction 1 as [|a b mn mx Hab _ [IH1 IH2]]; cbn [zip_with]; [auto|].
  rewrite IH1, IH2. destruct Hab as [[-> ->]|Hle]; [split; reflexivity|].
  destruct a as [a|], b as [b|]; cbn in Hle; try contradiction.
  unfold Series_min, Series_max. cbn. split; do 2 f_equal; lia.
Qed.

(** A transformation that moves no corner of a box whose bounds agree
    gives the box back. *)
Lemma compute_extent_fixed_corners
    (transform_points : BaseTransformation -> NamedPoint -> result NamedPoint)
    (element : SpatialElement) (coordinate_system : string) (t : BaseTransformation)
    (min_coordinates max_coordinates : list number) (axes : list string) :
  get_all_transformations element !! coordinate_system = Some t ->
  length min_coordinates = length axes ->
  length max_coordinates = length axes ->
  NoDup axes ->
  Forall2 bounds_agree min_coordinates max_coordinates ->
  (forall c, c ∈ corners min_coordinates max_coordinates ->
             transform_points t (combine axes c) = Ok (combine axes c)) ->
  _compute_extent_in_coordinate_system transform_points element coordinate_system
    min_coordinates max_coordinates axes
  = Ok (min_coordinates, max_coordinates, axes).
Proof.
  intros Ht Hmn Hmx Hnd Hagree Hfix.
  assert (Himg : traverse (transform_points t)
                   (map (combine axes) (corners min_coordinates max_coordinates))
                 = Ok (map (combine axes) (corners min_coordinates max_coordinates))).
  { rewrite (traverse_map _ (fun p => p)); [now rewrite map_id|].
    intros p (c & -> & Hc)%list_elem_of_fmap. now apply Hfix. }
  rewrite (compute_extent_corner_images _ _ _ t _ _ min_coordinates max_coordinates axes
             Ht Hmn Hmx Hmn Hmx Hnd Himg).
  now destruct (zip_agree _ _ Hagree) as [-> ->].
Qed.

Lemma traverse_map_map {A B C : Type} (f : B -> result C) (h : A -> B) (g : A -> C)
    (xs : list A) :
  (forall x, x ∈ xs -> f (h x) = Ok (g x)) -> traverse f (map h xs) = Ok (map g xs).
Proof.
  induction xs as [|x xs IH]; intros H; cbn; [reflexivity|].
  rewrite H by left. cbn. rewrite IH; [reflexivity|]. intros y Hy. apply H. now right.
Qed.

Lemma corners_along (fs : list (Z -> Z)) (mn mx : list Z) :
  length fs = length mn -> length mn = length mx ->
  map (along_axes fs) (corners mn mx) = corners (along_axes fs mn) (along_axes fs mx).
Proof.
  revert mn mx; induction fs as [|f fs IH]; intros [|lo mn] [|hi mx] Hf Hm;
    simpl in Hf, Hm; try congruence; [reflexivity|].
  cbn [corners along_axes zip_with]. fold (along_axes fs mn) (along_axes fs mx).
  rewrite map_app, !map_map, <- IH by lia. rewrite !map_map. reflexivity.
Qed.

(** A transformation that acts on the corners of a box of numbers axis by
    axis (as a translation does, or a scaling, also by a negative factor)
    gives the extent spanned by the images of the two bounds of each axis:
    the lesser image is the minimum and the greater the maximum.  Nothing is
    asked of the functions; for the identity the box comes back, its bounds
    put in order. *)
Theorem extent_under_axiswise_transformation
    (transform_points : BaseTransformation -> NamedPoint -> result NamedPoint)
    (element : SpatialElement) (coordinate_system : string) (t : BaseTransformation)
    (fs : list (Z -> Z)) (min_coordinates max_coordinates : list Z) (axes : list string) :
  get_all_transformations element !! coordinate_system = Some t ->
  length min_coordinates = length axes ->
  length max_coordinates = length axes ->
  length fs = length axes ->
  NoDup axes ->
  (forall c, c ∈ corners min_coordinates max_coordinates ->
             transform_points t (combine axes (map finite c))
             = Ok (combine axes (map finite (along_axes fs c)))) ->
  _compute_extent_in_coordinate_system transform_points element coordinate_system
    (map finite min_coordinates) (map finite max_coordinates) axes
  = Ok (map finite
          (zip_with Z.min (along_axes fs min_coordinates) (along_axes fs max_coordinates)),
        map finite
          (zip_with Z.max (along_axes fs min_coordinates) (along_axes fs max_coordinates)),
        axes).
Proof.
  intros Ht Hmn Hmx Hfs Hnd Hact.
  rewrite (compute_extent_corner_images _ _ _ t _ _
             (map finite (along_axes fs min_coordinates))
             (map finite (along_axes fs max_coordinates))); try assumption.
  - now rewrite !(zip_with_finite _ _ _ _ (fun x y => eq_refl)).
  - now rewrite length_map.
  - now rewrite length_map.
  - unfold along_axes. rewrite length_map, length_zip_with. lia.
  - unfold along_axes. rewrite length_map, length_zip_with. lia.
  - rewrite !corners_fmap, <- corners_along by congruence. rewrite !map_map.
    now apply traverse_map_map.
Qed.

Lemma extent_under_axiswise_transformation_witness :
  _compute_extent_in_coordinate_system Transformations.transform_points
    (shapes_element mirrored_squares) "global"
    (map finite [0; 0]%Z) (map finite [3; 3]%Z) ["x"; "y"]
  = Ok (map finite [-6; 0]%Z, map finite [0; 9]%Z, ["x"; "y"]).
Proof.
  apply (extent_under_axiswise_transformation Transformations.transform_points
           (shapes_element mirrored_squares) "global" (Scale [-2; 3]%Z ["x"; "y"])
           [Z.mul (-2); Z.mul 3] [0; 0]%Z [3; 3]%Z ["x"; "y"]).
  - reflexivity.
  - reflexivity.
  - reflexivity.
  - reflexivity.
  - apply (bool_decide_unpack _). vm_compute. exact I.
  - apply Forall_forall. cbn [corners map app].
    repeat (constructor; [reflexivity|]). constructor.
Defined.

(** ** Points *)

Lemma axes_of_points_NoDup e : NoDup (get_axes_names_DaskDataFrame e).
Proof.
  apply NoDup_List_filter. apply (bool_decide_unpack _). vm_compute. exact I.
Qed.

Lemma getitem_column df ax :
  ax ∈ columns df -> exists j, getitem df ax = Ok (column_values df j) /\ columns df !! j = Some ax.
Proof.
  intros Hin. unfold getitem.
  destruct (list_find (fun name => name = ax) (columns df)) as [[j name]|] eqn:Hfind.
  - apply list_find_Some in Hfind as (Hj & -> & _). eauto.
  - apply list_find_None in Hfind. exfalso.
    apply (proj1 (Forall_forall _ _) Hfind ax Hin). reflexivity.
Qed.

Lemma Series_agree l : bounds_agree (Series_min l) (Series_max l).
Proof.
  destruct (Series_cases l) as [(_ & -> & ->)|(lo & hi & -> & -> & [Hlo _] & [_ Hhi])].
  - left. split; reflexivity.
  - right. cbn. now apply Hhi.
Qed.

(** The extent of a points element in a coordinate system whose registered
    transformation moves no point: it has, for each of the axes x, y, z that
    is a column of the table, the least and the greatest number of that
    column, and NaN for both when the column holds no number (a table
    without rows among them). *)
Theorem extent_of_points_left_in_place
    (transform_points : BaseTransformation -> NamedPoint -> result NamedPoint)
    (e : DaskDataFrame) (coordinate_system : string) (t : BaseTransformation) :
  ddf_transform e !! coordinate_system = Some t ->
  (forall p, transform_points t p = Ok p) ->
  exists min_coordinates max_coordinates,
    get_extent transform_points (a_SpatialElement (points_element e)) coordinate_system
    = Ok (min_coordinates, max_coordinates, get_axes_names_DaskDataFrame e) /\
    forall i ax, get_axes_names_DaskDataFrame e !! i = Some ax ->
      exists column lo hi,
        getitem (ddf_frame e) ax = Ok column /\
        min_coordinates !! i = Some lo /\ max_coordinates !! i = Some hi /\
        match lo, hi with
        | finite l, finite h =>
            is_minimum l (finite_entries column) /\ is_maximum h (finite_entries column)
        | nan, nan => finite_entries column = []
        | _, _ => False
        end.
Proof.
  intros Ht Hfix. cbn [get_extent get_extent_element].
  unfold get_extent_DaskDataFrame, _check_element_has_coordinate_system.
  rewrite (has_coordinate_system_true (points_element e) coordinate_system t Ht).
  cbn [bind]. cbv zeta. set (axes := get_axes_names_DaskDataFrame e).
  assert (Hcol : forall ax, ax ∈ axes -> exists column, getitem (ddf_frame e) ax = Ok column).
  { intros ax Hax. apply list_elem_of_In, List.filter_In in Hax as [_ Hax].
    apply bool_decide_eq_true in Hax.
    destruct (getitem_column _ _ Hax) as (j & Hj & _). eauto. }
  destruct (traverse_total
              (fun ax => let* c := getitem (ddf_frame e) ax in Ok (Series_min c)) axes)
    as [mn Hmn].
  { intros ax Hax. destruct (Hcol ax Hax) as (column & ->). cbn [bind]. eauto. }
  destruct (traverse_total
              (fun ax => let* c := getitem (ddf_frame e) ax in Ok (Series_max c)) axes)
    as [mx Hmx].
  { intros ax Hax. destruct (Hcol ax Hax) as (column & ->). cbn [bind]. eauto. }
  rewrite Hmn, Hmx. cbn [bind].
  assert (Hfacts : forall i ax, axes !! i = Some ax ->
            exists column,
              getitem (ddf_frame e) ax = Ok column /\
              mn !! i = Some (Series_min column) /\ mx !! i = Some (Series_max column)).
  { intros i ax Hi.
    destruct (traverse_lookup _ _ _ _ _ Hmn Hi) as (lo & Hlo & Hlo').
    destruct (traverse_lookup _ _ _ _ _ Hmx Hi) as (hi & Hhi & Hhi').
    destruct (Hcol ax) as (column & Hget); [eapply list_elem_of_lookup_2, Hi|].
    rewrite Hget in Hlo', Hhi'. cbn [bind] in Hlo', Hhi'.
    injection Hlo' as <-. injection Hhi' as <-. eauto. }
  assert (Lmn : length mn = length axes) by (eapply traverse_length, Hmn).
  assert (Lmx : length mx = length axes) by (eapply traverse_length, Hmx).
  assert (Hle : Forall2 bounds_agree mn mx).
  { apply Forall2_same_length_lookup. split; [congruence|].
    intros i lo hi Hlo Hhi.
    destruct (lookup_lt_is_Some_2 axes i) as [ax Hax];
      [rewrite <- Lmn; eapply lookup_lt_Some, Hlo|].
    destruct (Hfacts i ax Hax) as (column & _ & Hlo' & Hhi').
    assert (lo = Series_min column) by congruence.
    assert (hi = Series_max column) by congruence. subst. apply Series_agree. }
  exists mn, mx. split.
  - apply (compute_extent_fixed_corners transform_points (points_element e)
             coordinate_system t mn mx axes Ht Lmn Lmx (axes_of_points_NoDup e) Hle
             (fun c _ => Hfix _)).
  - intros i ax Hi. destruct (Hfacts i ax Hi) as (column & Hget & Hlo & Hhi).
    exists column, (Series_min column), (Series_max column).
    split; [assumption|]. split; [assumption|]. split; [assumption|].
    destruct (Series_cases column) as [(Hnone & -> & ->)|(lo & hi & -> & -> & H)];
      [assumption | exact H].
Qed.

Lemma extent_of_points_left_in_place_witness :
  exists min_coordinates max_coordinates,
    get_extent Transformations.transform_points
      (a_SpatialElement (points_element plain_points)) "global"
    = Ok (min_coordinates, max_coordinates, get_axes_names_DaskDataFrame plain_points) /\
    forall i ax, get_axes_names_DaskDataFrame plain_points !! i = Some ax ->
      exists column lo hi,
        getitem (ddf_frame plain_points) ax = Ok column /\
        min_coordinates !! i = Some lo /\ max_coordinates !! i = Some hi /\
        match lo, hi with
        | finite l, finite h =>
            is_minimum l (finite_entries column) /\ is_maximum h (finite_entries column)
        | nan, nan => finite_entries column = []
        | _, _ => False
        end.
Proof.
  apply (extent_of_points_left_in_place Transformations.transform_points
           plain_points "global" Identity).
  - reflexivity.
  - reflexivity.
Defined.

(** ** Polygons and multipolygons *)

Lemma bounds_vertices g : bounds g = bounds_of_coords (vertices g).
Proof. destruct g; reflexivity. Qed.

Lemma bounds_of_coords_spec cs b :
  bounds_of_coords cs = Some b ->
  is_minimum b.1.1.1 (map fst cs) /\ is_minimum b.1.1.2 (map snd cs) /\
  is_maximum b.1.2 (map fst cs) /\ is_maximum b.2 (map snd cs).
Proof.
  destruct cs as [|[x y] cs]; [discriminate|]. cbn [bounds_of_coords].
  intros [= <-]. cbn [fst snd map]. repeat split;
    auto using fold_min_attained, fold_min_lower, fold_max_attained, fold_max_upper.
Qed.

Lemma bounds_total g : vertices g <> [] -> exists b, bounds g = Some b.
Proof.
  rewrite bounds_vertices. destruct (vertices g) as [|[x y] cs]; [congruence|].
  cbn [bounds_of_coords]. eauto.
Qed.

Lemma elem_of_bounds_column f gs v :
  v ∈ finite_entries (bounds_column f gs)
  <-> exists g b, g ∈ gs /\ bounds g = Some b /\ v = f b.
Proof.
  rewrite elem_of_finite_entries. unfold bounds_column. rewrite list_elem_of_fmap. split.
  - intros (g & Hb & Hg). destruct (bounds g) as [b|] eqn:E; [|discriminate].
    injection Hb as ->. eauto.
  - intros (g & b & Hg & Hb & ->). exists g. split; [|assumption]. now rewrite Hb.
Qed.

Lemma Series_min_total l : finite_entries l <> [] -> exists m, Series_min l = finite m.
Proof. unfold Series_min. destruct (finite_entries l); [congruence | eauto]. Qed.

Lemma Series_max_total l : finite_entries l <> [] -> exists m, Series_max l = finite m.
Proof. unfold Series_max. destruct (finite_entries l); [congruence | eauto]. Qed.

Lemma elem_of_all_coordinates {A : Type} (pr : Z * Z -> A) gs v :
  v ∈ map pr (concat (map vertices gs)) <-> exists g, g ∈ gs /\ v ∈ map pr (vertices g).
Proof.
  rewrite list_elem_of_fmap. split.
  - intros (p & -> & (l & Hp & (g & -> & Hg)%list_elem_of_fmap)%elem_of_concat).
    exists g. split; [assumption|]. apply list_elem_of_fmap. eauto.
  - intros (g & Hg & (p & -> & Hp)%list_elem_of_fmap). exists p. split; [reflexivity|].
    apply elem_of_concat. exists (vertices g). split; [assumption|].
    apply list_elem_of_fmap. eauto.
Qed.

Lemma nonempty_map {A B : Type} (f : A -> B) (l : list A) (b : B) :
  b ∈ map f l -> l <> [].
Proof. intros H ->. inversion H. Qed.

(** The least of the per-geometry lower bounds is the least coordinate of
    all the vertices, and likewise for the upper bounds. *)
Lemma minimum_of_bounds (f : Z * Z * Z * Z -> Z) (pr : Z * Z -> Z) gs m :
  (forall cs b, bounds_of_coords cs = Some b -> is_minimum (f b) (map pr cs)) ->
  is_minimum m (finite_entries (bounds_column f gs)) ->
  is_minimum m (map pr (concat (map vertices gs))).
Proof.
  intros Hf [Hin Hle]. apply elem_of_bounds_column in Hin as (g & b & Hg & Hb & ->).
  rewrite bounds_vertices in Hb. split.
  - apply elem_of_all_coordinates. exists g. split; [assumption|]. now apply Hf.
  - intros v (g' & Hg' & Hv)%elem_of_all_coordinates.
    destruct (bounds_total g') as [b' Hb']; [eapply nonempty_map, Hv|].
    assert (f b <= f b')%Z by (apply Hle, elem_of_bounds_column; eauto).
    rewrite bounds_vertices in Hb'. apply Hf in Hb' as [_ Hlow].
    specialize (Hlow v Hv). lia.
Qed.

Lemma maximum_of_bounds (f : Z * Z * Z * Z -> Z) (pr : Z * Z -> Z) gs m :
  (forall cs b, bounds_of_coords cs = Some b -> is_maximum (f b) (map pr cs)) ->
  is_maximum m (finite_entries (bounds_column f gs)) ->
  is_maximum m (map pr (concat (map vertices gs))).
Proof.
  intros Hf [Hin Hle]. apply elem_of_bounds_column in Hin as (g & b & Hg & Hb & ->).
  rewrite bounds_vertices in Hb. split.
  - apply elem_of_all_coordinates. exists g. split; [assumption|]. now apply Hf.
  - intros v (g' & Hg' & Hv)%elem_of_all_coordinates.
    destruct (bounds_total g') as [b' Hb']; [eapply nonempty_map, Hv|].
    assert (f b' <= f b)%Z by (apply Hle, elem_of_bounds_column; eauto).
    rewrite bounds_vertices in Hb'. apply Hf in Hb' as [_ Hup].
    specialize (Hup v Hv). lia.
Qed.

Lemma bounds_column_nonempty f gs :
  (exists g, g ∈ gs /\ vertices g <> []) -> finite_entries (bounds_column f gs) <> [].
Proof.
  intros (g & Hg & Hv). destruct (bounds_total g Hv) as [b Hb].
  assert (Hin : f b ∈ finite_entries (bounds_column f gs))
    by (apply elem_of_bounds_column; eauto).
  intros Heq. rewrite Heq in Hin. inversion Hin.
Qed.

(** The extent of a frame of polygons and multipolygons (its first geometry
    is one) with at least one vertex is the tight box around all the
    vertices of the frame, on the axes x and y: geometries without vertices
    are skipped, and a point that sits in a later row counts as a vertex,
    whatever its radius. *)
Theorem extent_of_polygons_is_tight (shapes : GeoDataFrame) (g0 : Geometry)
    (rest : list Geometry) :
  geometry shapes = g0 :: rest -> isinstance_Point g0 = false ->
  all_vertices shapes <> [] ->
  exists minx miny maxx maxy,
    _get_extent_of_polygons_multipolygons shapes
    = Ok ([finite minx; finite miny], [finite maxx; finite maxy], ["x"; "y"]) /\
    is_minimum minx (map fst (all_vertices shapes)) /\
    is_minimum miny (map snd (all_vertices shapes)) /\
    is_maximum maxx (map fst (all_vertices shapes)) /\
    is_maximum maxy (map snd (all_vertices shapes)).
Proof.
  intros Hgeo Hg0 Hsome.
  assert (Hex : exists g, g ∈ geometry shapes /\ vertices g <> []).
  { unfold all_vertices in Hsome. destruct (concat _) as [|p ps] eqn:E; [congruence|].
    assert (Hp : p ∈ concat (map vertices (geometry shapes))) by (rewrite E; left).
    apply elem_of_concat in Hp as (l & Hp & (g & -> & Hg)%list_elem_of_fmap).
    exists g. split; [assumption|]. intros Heq. rewrite Heq in Hp. inversion Hp. }
  unfold _get_extent_of_polygons_multipolygons, get_axes_names_GeoDataFrame.
  rewrite Hgeo. cbn [iloc0 bind]. rewrite Hg0. cbn [negb assert bind].
  destruct g0 as [x y z|cs|ps]; [discriminate| |]; rewrite <- Hgeo.
  all: destruct (Series_min_total _ (bounds_column_nonempty (fun b => b.1.1.1) _ Hex))
         as [minx Hminx];
       destruct (Series_min_total _ (bounds_column_nonempty (fun b => b.1.1.2) _ Hex))
         as [miny Hminy];
       destruct (Series_max_total _ (bounds_column_nonempty (fun b => b.1.2) _ Hex))
         as [maxx Hmaxx];
       destruct (Series_max_total _ (bounds_column_nonempty (fun b => b.2) _ Hex))
         as [maxy Hmaxy];
       cbv zeta; rewrite Hminx, Hminy, Hmaxx, Hmaxy; cbn [bind];
       exists minx, miny, maxx, maxy; split; [reflexivity|];
       apply Series_min_spec in Hminx, Hminy; apply Series_max_spec in Hmaxx, Hmaxy;
       unfold all_vertices; repeat split.
  all: first [ apply (minimum_of_bounds (fun b => b.1.1.1) fst); [|assumption]
             | apply (minimum_of_bounds (fun b => b.1.1.2) snd); [|assumption]
             | apply (maximum_of_bounds (fun b => b.1.2) fst); [|assumption]
             | apply (maximum_of_bounds (fun b => b.2) snd); [|assumption] ];
       intros cs' b Hb; now apply bounds_of_coords_spec in Hb.
Qed.

Lemma extent_of_polygons_is_tight_witness :
  exists minx miny maxx maxy,
    _get_extent_of_polygons_multipolygons mixed_shapes
    = Ok ([finite minx; finite miny], [finite maxx; finite maxy], ["x"; "y"]) /\
    is_minimum minx (map fst (all_vertices mixed_shapes)) /\
    is_minimum miny (map snd (all_vertices mixed_shapes)) /\
    is_maximum maxx (map fst (all_vertices mixed_shapes)) /\
    is_maximum maxy (map snd (all_vertices mixed_shapes)).
Proof.
  eapply (extent_of_polygons_is_tight mixed_shapes).
  - reflexivity.
  - reflexivity.
  - discriminate.
Defined.

(** ** Frames of shapes that have no extent *)

Lemma traverse_raises {A B : Type} (f : A -> result B) (xs : list A) (e : exn) :
  (forall x, x ∈ xs -> (exists y, f x = Ok y) \/ f x = Raise e) ->
  (exists x, x ∈ xs /\ f x = Raise e) ->
  traverse f xs = Raise e.
Proof.
  induction xs as [|x xs IH]; intros Hall (x0 & Hin & Hx0); [inversion Hin|].
  cbn [traverse]. destruct (Hall x) as [[y Hy]|Hx]; [left | | now rewrite Hx].
  rewrite Hy. cbn [bind]. rewrite IH; [reflexivity | intros; apply Hall; now right |].
  apply elem_of_cons in Hin as [->|Hin]; [congruence | eauto].
Qed.

(** A frame of shapes registered to the coordinate system is read through
    its first geometry: without any row, looking that geometry up raises
    [IndexError]; when it is a point, a frame without a radius column is
    refused by the assertion, and a frame with one is taken to hold circles
    only, so that a polygon in any later row makes reading the centres raise
    the [ValueError] of geopandas. *)
Theorem shapes_extent_errors
    (transform_points : BaseTransformation -> NamedPoint -> result NamedPoint)
    (e : GeoDataFrame) (coordinate_system : string) :
  has_coordinate_system (shapes_element e) coordinate_system = true ->
  (geometry e = [] ->
   get_extent transform_points (a_SpatialElement (shapes_element e)) coordinate_system
   = Raise IndexError) /\
  (forall x y z rest, geometry e = Point x y z :: rest -> radius e = None ->
   get_extent transform_points (a_SpatialElement (shapes_element e)) coordinate_system
   = Raise (AssertionError "Shapes must have a 'radius' column.")) /\
  (forall x y z rest radii, geometry e = Point x y z :: rest -> radius e = Some radii ->
   (exists g, g ∈ rest /\ isinstance_Point g = false) ->
   get_extent transform_points (a_SpatialElement (shapes_element e)) coordinate_system
   = Raise (ValueError not_point_geometries)).
Proof.
  intros Hcs. cbn [get_extent get_extent_element].
  unfold get_extent_GeoDataFrame, _check_element_has_coordinate_system.
  rewrite Hcs. cbn [bind]. repeat split.
  - intros ->. reflexivity.
  - intros x y z rest -> ->. reflexivity.
  - intros x y z rest radii Hgeo Hrad (g & Hg & Hnp).
    assert (Hx : traverse (GeoSeries_coordinate "x") rest
                 = Raise (ValueError not_point_geometries)).
    { apply traverse_raises.
      - intros [x' y' z'|cs|ps] _; [left; cbn; eauto | now right | now right].
      - exists g. split; [assumption|]. destruct g; [discriminate| |]; reflexivity. }
    unfold _get_extent_of_circles, get_axes_names_GeoDataFrame.
    destruct e as [gs r registry]. cbn [geometry radius] in *. subst gs r.
    cbn [iloc0 bind isinstance_Point]. rewrite bool_decide_eq_true_2 by eauto.
    cbn [assert bind].
    destruct z; cbn [bind traverse GeoSeries_coordinate String.eqb Ascii.eqb Bool.eqb];
      rewrite Hx; reflexivity.
Qed.

Lemma shapes_extent_errors_witness :
  get_extent Transformations.transform_points
    (a_SpatialElement (shapes_element circles_then_triangle)) "global"
  = Raise (ValueError not_point_geometries).
Proof.
  destruct (shapes_extent_errors Transformations.transform_points
              circles_then_triangle "global") as (_ & _ & Hmixed).
  - reflexivity.
  - eapply (Hmixed 0%Z 0%Z None); [reflexivity | reflexivity |].
    exists (Polygon [(0, 0); (4, 1); (2, 5)]%Z). split; [|reflexivity].
    right. left.
Defined.

(** ** A raster in the dataset *)

Lemma raster_extent_raises
    (transform_points : BaseTransformation -> NamedPoint -> result NamedPoint)
    (element : SpatialElement) (coordinate_system : string) :
  is_raster element = true -> has_coordinate_system element coordinate_system = true ->
  get_extent_element transform_points element coordinate_system = Raise NotImplementedError.
Proof.
  intros Hr Hcs. destruct element as [e|e|e|e]; try discriminate; cbn [get_extent_element].
  - unfold get_extent_SpatialImage, _check_element_has_coordinate_system. now rewrite Hcs.
  - unfold get_extent_MultiscaleSpatialImage, _check_element_has_coordinate_system.
    now rewrite Hcs.
Qed.

Lemma collect_extents_raster
    (transform_points : BaseTransformation -> NamedPoint -> result NamedPoint)
    (elements : list SpatialElement) (coordinate_system : string) (raster : SpatialElement)
    (dicts : defaultdict * defaultdict) :
  raster ∈ elements -> is_raster raster = true ->
  has_coordinate_system raster coordinate_system = true ->
  (forall el, el ∈ elements -> has_coordinate_system el coordinate_system = true ->
     is_raster el = false ->
     exists bb, get_extent_element transform_points el coordinate_system = Ok bb) ->
  collect_extents transform_points elements coordinate_system dicts
  = Raise NotImplementedError.
Proof.
  intros Hin Hr Hcs. revert dicts.
  induction elements as [|el els IH]; intros dicts Hothers; [inversion Hin|].
  cbn [collect_extents].
  assert (Htail : raster ∈ els ->
            forall d, collect_extents transform_points els coordinate_system d
                      = Raise NotImplementedError).
  { intros Hin' d. apply IH; [assumption|]. intros el' Hel'. apply Hothers. now right. }
  destruct (has_coordinate_system el coordinate_system) eqn:Hel.
  - destruct (is_raster el) eqn:Hrel.
    + now rewrite (raster_extent_raises _ _ _ Hrel Hel).
    + destruct (Hothers el) as [[[mn mx] axes] Hbb]; [left | assumption | assumption |].
      rewrite Hbb. cbn [bind].
      destruct (get_extent_element_well_formed _ _ _ _ Hbb) as (Ln & Lx & _).
      cbn [fst snd] in Ln, Lx. destruct dicts as [d1 d2].
      rewrite append_coordinates_ok by (simpl; lia). cbn [bind].
      apply Htail. apply elem_of_cons in Hin as [->|Hin]; [congruence | assumption].
  - cbn [bind]. apply Htail.
    apply elem_of_cons in Hin as [->|Hin]; [congruence | assumption].
Qed.

(** A dataset that holds a raster registered to the requested coordinate
    system has no extent there: [get_extent] never returns a box for it,
    whatever else the dataset holds, and when the shapes and points
    registered to the coordinate system have extents of their own the error
    is the raster's [NotImplementedError]. *)
Theorem dataset_with_registered_raster
    (transform_points : BaseTransformation -> NamedPoint -> result NamedPoint)
    (e : SpatialData) (coordinate_system : string) (raster : SpatialElement) :
  raster ∈ _gen_elements_values e -> is_raster raster = true ->
  has_coordinate_system raster coordinate_system = true ->
  (forall bb, get_extent transform_points (a_SpatialData e) coordinate_system <> Ok bb) /\
  ((forall el, el ∈ _gen_elements_values e ->
      has_coordinate_system el coordinate_system = true -> is_raster el = false ->
      exists bb, get_extent transform_points (a_SpatialElement el) coordinate_system = Ok bb) ->
   get_extent transform_points (a_SpatialData e) coordinate_system
   = Raise NotImplementedError).
Proof.
  intros Hin Hr Hcs. cbn [get_extent]. unfold get_extent_SpatialData. split.
  - intros bb H. bind_inv H. destruct a as [d1 d2].
    destruct (collect_extents_Ok_inv _ _ _ _ _ Ha) as [bbs Hbbs].
    assert (Hf : raster ∈ List.filter
                   (fun el => has_coordinate_system el coordinate_system)
                   (_gen_elements_values e)).
    { apply list_elem_of_In, List.filter_In. split; [now apply list_elem_of_In | assumption]. }
    apply list_elem_of_lookup in Hf as [i Hi].
    destruct (traverse_lookup _ _ _ _ _ Hbbs Hi) as (bb' & _ & Hbb').
    rewrite (raster_extent_raises _ _ _ Hr Hcs) in Hbb'. discriminate.
  - intros Hothers.
    now rewrite (collect_extents_raster transform_points _ coordinate_system raster
                   ([], []) Hin Hr Hcs Hothers).
Qed.

Lemma dataset_with_registered_raster_witness :
  (forall bb, get_extent Transformations.transform_points
                (a_SpatialData points_and_image) "global" <> Ok bb) /\
  get_extent Transformations.transform_points (a_SpatialData points_and_image) "global"
  = Raise NotImplementedError.
Proof.
  destruct (dataset_with_registered_raster Transformations.transform_points
              points_and_image "global" (image_element padded_image)) as [Hnever Hraise].
  - right. left.
  - reflexivity.
  - reflexivity.
  - split; [exact Hnever|]. apply Hraise. intros el Hel Hcs Hr.
    apply elem_of_cons in Hel as [->|Hel]; [eexists; vm_compute; reflexivity|].
    apply list_elem_of_singleton in Hel as ->. discriminate.
Defined.

(** ** A dataset with one registered element, and the order of the elements *)

Lemma axes_of_shapes_NoDup e axes : get_axes_names_GeoDataFrame e = Ok axes -> NoDup axes.
Proof.
  unfold get_axes_names_GeoDataFrame. intros H. bind_inv H.
  destruct a as [x y [z|]|cs|ps]; injection H as <-;
    apply (bool_decide_unpack _); vm_compute; exact I.
Qed.

Lemma get_extent_element_axes_NoDup
    (transform_points : BaseTransformation -> NamedPoint -> result NamedPoint)
    (element : SpatialElement) (coordinate_system : string) mn mx axes :
  get_extent_element transform_points element coordinate_system = Ok (mn, mx, axes) ->
  NoDup axes.
Proof.
  destruct element as [e|e|e|e]; cbn [get_extent_element].
  - unfold get_extent_GeoDataFrame. intros H. bind_inv H. bind_inv H. bind_inv H.
    destruct a1 as [[mn0 mx0] axes0].
    apply compute_extent_well_formed in H as [Hax _]. cbn [snd] in Hax. subst axes0.
    destruct (isinstance_Point a0).
    + bind_inv Ha1. unfold _get_extent_of_circles in Ha1.
      bind_inv Ha1. bind_inv Ha1. bind_inv Ha1. bind_inv Ha1. bind_inv Ha1. bind_inv Ha1.
      bind_inv Ha1. bind_inv Ha1. injection Ha1 as _ _ <-. eapply axes_of_shapes_NoDup; eauto.
    + bind_inv Ha1. unfold _get_extent_of_polygons_multipolygons in Ha1.
      bind_inv Ha1. bind_inv Ha1. bind_inv Ha1. cbv zeta in Ha1.
      injection Ha1 as _ _ <-. eapply axes_of_shapes_NoDup; eauto.
  - unfold get_extent_DaskDataFrame. intros H. bind_inv H. cbn zeta in H.
    bind_inv H. bind_inv H. apply compute_extent_well_formed in H as [Hax _].
    cbn [snd] in Hax. subst axes. apply axes_of_points_NoDup.
  - unfold get_extent_SpatialImage. intros H. bind_inv H. discriminate.
  - unfold get_extent_MultiscaleSpatialImage. intros H. bind_inv H. discriminate.
Qed.

Lemma dd_append_fresh ax v (d : defaultdict) :
  ax ∉ map fst d -> dd_append ax v d = d ++ [(ax, [v])].
Proof.
  induction d as [|[k vs] d IH]; intros Hfresh; [reflexivity|].
  cbn [dd_append]. destruct (String.eqb_spec k ax) as [->|Hne].
  - exfalso. apply Hfresh. left.
  - cbn [app]. f_equal. apply IH. intros Hin. apply Hfresh. now right.
Qed.

Lemma dd_keys_extend_fresh (d : defaultdict) (axes : list string) (vs : list number) :
  NoDup axes -> (forall a, a ∈ axes -> a ∉ map fst d) ->
  map fst (dd_extend d (combine axes vs)) = map fst d ++ map fst (combine axes vs).
Proof.
  intros Hnd. revert d vs; induction Hnd as [|a axes Ha Hnd IH]; intros d vs Hfresh.
  - cbn. now rewrite app_nil_r.
  - destruct vs as [|v vs]; [cbn; now rewrite app_nil_r|].
    cbn [combine]. rewrite dd_extend_cons, dd_append_fresh by (apply Hfresh; left).
    rewrite IH.
    + rewrite map_app. cbn [map fst]. now rewrite <- app_assoc.
    + intros a' Ha'. rewrite map_app. cbn [map fst].
      intros [Hin|Hin%list_elem_of_singleton]%elem_of_app.
      * apply (Hfresh a'); [now right | assumption].
      * congruence.
Qed.

Lemma values_on_combine (axes : list string) (vs : list number) i ax v :
  NoDup axes -> axes !! i = Some ax -> vs !! i = Some v ->
  values_on ax (combine axes vs) = [v].
Proof.
  intros Hnd. revert vs i; induction Hnd as [|a axes Ha Hnd IH]; intros vs i Hax Hv.
  - destruct i; discriminate.
  - destruct vs as [|w vs]; [destruct i; discriminate|].
    unfold values_on. cbn [combine List.filter fst].
    destruct i as [|i]; cbn in Hax, Hv.
    + injection Hax as ->. injection Hv as ->. rewrite String.eqb_refl. cbn [map snd].
      f_equal. fold (values_on ax (combine axes vs)).
      destruct (values_on ax (combine axes vs)) as [|u us] eqn:E; [reflexivity|].
      exfalso. apply Ha.
      assert (Hu : u ∈ values_on ax (combine axes vs)) by (rewrite E; left).
      apply elem_of_values_on, elem_of_combine in Hu as (j & Hj & _).
      eapply list_elem_of_lookup_2, Hj.
    + destruct (String.eqb_spec a ax) as [->|Hne].
      * exfalso. apply Ha. eapply list_elem_of_lookup_2, Hax.
      * apply (IH vs i Hax Hv).
Qed.

(** When exactly one element of the dataset is registered to the coordinate
    system and it has an extent with at least one axis, the extent of the
    dataset is that extent, axis for axis in the same order. *)
Theorem dataset_of_one_registered_element
    (transform_points : BaseTransformation -> NamedPoint -> result NamedPoint)
    (e : SpatialData) (coordinate_system : string) (element : SpatialElement)
    (min_coordinates max_coordinates : list number) (axes : list string) :
  List.filter (fun el => has_coordinate_system el coordinate_system) (_gen_elements_values e)
  = [element] ->
  get_extent transform_points (a_SpatialElement element) coordinate_system
  = Ok (min_coordinates, max_coordinates, axes) ->
  axes <> [] ->
  get_extent transform_points (a_SpatialData e) coordinate_system
  = Ok (min_coordinates, max_coordinates, axes).
Proof.
  cbn [get_extent]. intros Hone Hext Hne.
  pose proof (get_extent_element_axes_NoDup _ _ _ _ _ _ Hext) as Hnd.
  destruct (get_extent_element_well_formed _ _ _ _ Hext) as (Ln & Lx & _).
  cbn [fst snd] in Ln, Lx.
  unfold get_extent_SpatialData.
  rewrite (collect_extents_ok transform_points _ coordinate_system
             [(min_coordinates, max_coordinates, axes)] [] []).
  2:{ rewrite Hone. cbn [traverse]. rewrite Hext. reflexivity. }
  cbn [bind]. unfold min_entries, max_entries. cbn [map concat fst snd].
  rewrite !app_nil_r.
  rewrite (dd_keys_extend_fresh [] axes min_coordinates Hnd) by (intros a _ H; inversion H).
  cbn [map app]. rewrite keys_combine by congruence.
  destruct axes as [|a0 axes0] eqn:Eaxes; [congruence|]. cbn [length Nat.eqb].
  rewrite <- Eaxes in *. clear Hne.
  assert (Hmin : traverse (fun ax => py_min (dd_getitem
                   (dd_extend [] (combine axes min_coordinates)) ax)) axes
                 = Ok min_coordinates).
  { apply traverse_Forall2, Forall2_same_length_lookup. split; [congruence|].
    intros i ax lo Hax Hlo. rewrite dd_getitem_extend, dd_getitem_nil. cbn [app].
    now rewrite (values_on_combine axes min_coordinates i ax lo Hnd Hax Hlo). }
  assert (Hmax : traverse (fun ax => py_max (dd_getitem
                   (dd_extend [] (combine axes max_coordinates)) ax)) axes
                 = Ok max_coordinates).
  { apply traverse_Forall2, Forall2_same_length_lookup. split; [congruence|].
    intros i ax hi Hax Hhi. rewrite dd_getitem_extend, dd_getitem_nil. cbn [app].
    now rewrite (values_on_combine axes max_coordinates i ax hi Hnd Hax Hhi). }
  rewrite Hmin, Hmax. reflexivity.
Qed.

Lemma dataset_of_one_registered_element_witness :
  get_extent Transformations.transform_points (a_SpatialData small_dataset) "local"
  = Ok (map finite [-1; -1]%Z, map finite [11; 1]%Z, ["x"; "y"]).
Proof.
  apply (dataset_of_one_registered_element Transformations.transform_points
           small_dataset "local" (shapes_element two_circles)).
  - vm_compute. reflexivity.
  - vm_compute. reflexivity.
  - discriminate.
Defined.

Lemma extents_of_permuted
    (transform_points : BaseTransformation -> NamedPoint -> result NamedPoint)
    (elements elements' : list SpatialElement) (coordinate_system : string)
    (bbs : list BoundingBoxDescription) :
  elements ≡ₚ elements' ->
  traverse (fun el => get_extent_element transform_points el coordinate_system)
    (List.filter (fun el => has_coordinate_system el coordinate_system) elements) = Ok bbs ->
  exists bbs',
    traverse (fun el => get_extent_element transform_points el coordinate_system)
      (List.filter (fun el => has_coordinate_system el coordinate_system) elements')
    = Ok bbs' /\
    forall bb, bb ∈ bbs <-> bb ∈ bbs'.
Proof.
  intros Hperm Hbbs.
  assert (Hmem : forall el,
            el ∈ List.filter (fun el => has_coordinate_system el coordinate_system) elements
            <-> el ∈ List.filter (fun el => has_coordinate_system el coordinate_system)
                      elements').
  { intros el. rewrite !list_elem_of_In, !List.filter_In, <- !list_elem_of_In.
    now rewrite Hperm. }
  destruct (traverse_total
              (fun el => get_extent_element transform_points el coordinate_system)
              (List.filter (fun el => has_coordinate_system el coordinate_system) elements'))
    as [bbs' Hbbs'].
  { intros el [i Hi]%Hmem%list_elem_of_lookup.
    destruct (traverse_lookup _ _ _ _ _ Hbbs Hi) as (bb & _ & Hbb). eauto. }
  exists bbs'. split; [assumption|]. intros bb. split.
  - intros [i Hi]%list_elem_of_lookup.
    destruct (traverse_lookup_r _ _ _ _ _ Hbbs Hi) as (el & Hel & Hrun).
    apply list_elem_of_lookup_2, Hmem, list_elem_of_lookup in Hel as [j Hj].
    destruct (traverse_lookup _ _ _ _ _ Hbbs' Hj) as (bb' & Hbb' & Hrun').
    rewrite Hrun in Hrun'. injection Hrun' as <-. eapply list_elem_of_lookup_2, Hbb'.
  - intros [i Hi]%list_elem_of_lookup.
    destruct (traverse_lookup_r _ _ _ _ _ Hbbs' Hi) as (el & Hel & Hrun).
    apply list_elem_of_lookup_2, Hmem, list_elem_of_lookup in Hel as [j Hj].
    destruct (traverse_lookup _ _ _ _ _ Hbbs Hj) as (bb' & Hbb' & Hrun').
    rewrite Hrun in Hrun'. injection Hrun' as <-. eapply list_elem_of_lookup_2, Hbb'.
Qed.

(** Without NaN, Python's [min] and [max] depend on the entries of the
    list only, not on their order. *)
Lemma py_min_same_members l l' m m' :
  nan ∉ l -> (forall v, v ∈ l <-> v ∈ l') -> py_min l = Ok m -> py_min l' = Ok m' -> m = m'.
Proof.
  intros Hn Hmem H H'.
  assert (Hn' : nan ∉ l') by (intros Hin; apply Hn, Hmem, Hin).
  pose proof (py_min_member _ _ H) as Hin. pose proof (py_min_member _ _ H') as Hin'.
  pose proof (py_min_least _ _ Hn H _ (proj2 (Hmem _) Hin')) as H1.
  pose proof (py_min_least _ _ Hn' H' _ (proj1 (Hmem _) Hin)) as H2.
  destruct m, m'; cbn in H1, H2; try contradiction. f_equal. lia.
Qed.

Lemma py_max_same_members l l' m m' :
  nan ∉ l -> (forall v, v ∈ l <-> v ∈ l') -> py_max l = Ok m -> py_max l' = Ok m' -> m = m'.
Proof.
  intros Hn Hmem H H'.
  assert (Hn' : nan ∉ l') by (intros Hin; apply Hn, Hmem, Hin).
  pose proof (py_max_member _ _ H) as Hin. pose proof (py_max_member _ _ H') as Hin'.
  pose proof (py_max_greatest _ _ Hn H _ (proj2 (Hmem _) Hin')) as H1.
  pose proof (py_max_greatest _ _ Hn' H' _ (proj1 (Hmem _) Hin)) as H2.
  destruct m, m'; cbn in H1, H2; try contradiction. f_equal. lia.
Qed.

(** When no element registered to the coordinate system has a NaN in its
    extent, the extent of a dataset does not depend on the order in which
    the dataset yields its elements: listing them in another order gives the
    same axes, possibly in another order, and the same two bounds on each
    axis. *)
Theorem dataset_extent_order_independent
    (transform_points : BaseTransformation -> NamedPoint -> result NamedPoint)
    (e e' : SpatialData) (coordinate_system : string)
    (min_coordinates max_coordinates : list number) (axes : list string) :
  _gen_elements_values e ≡ₚ _gen_elements_values e' ->
  (forall el bb, el ∈ _gen_elements_values e ->
     get_extent transform_points (a_SpatialElement el) coordinate_system = Ok bb ->
     finite_box bb) ->
  get_extent transform_points (a_SpatialData e) coordinate_system
  = Ok (min_coordinates, max_coordinates, axes) ->
  exists min_coordinates' max_coordinates' axes',
    get_extent transform_points (a_SpatialData e') coordinate_system
    = Ok (min_coordinates', max_coordinates', axes') /\
    axes ≡ₚ axes' /\
    forall i ax, axes !! i = Some ax ->
      exists j, axes' !! j = Some ax /\
                min_coordinates' !! j = min_coordinates !! i /\
                max_coordinates' !! j = max_coordinates !! i.
Proof.
  cbn [get_extent]. intros Hperm Hfinite Hrun.
  assert (Hbbs : exists bbs,
            traverse (fun el => get_extent_element transform_points el coordinate_system)
              (List.filter (fun el => has_coordinate_system el coordinate_system)
                           (_gen_elements_values e)) = Ok bbs).
  { pose proof Hrun as H. unfold get_extent_SpatialData in H. bind_inv H.
    eapply collect_extents_Ok_inv, Ha. }
  destruct Hbbs as [bbs Hbbs].
  assert (Hfin : forall bb, bb ∈ bbs -> finite_box bb).
  { intros bb [k Hk]%list_elem_of_lookup.
    destruct (traverse_lookup_r _ _ _ _ _ Hbbs Hk) as (el & Hel & Hbb).
    apply list_elem_of_lookup_2, list_elem_of_In, List.filter_In in Hel as [Hel _].
    apply (Hfinite el bb); [now apply list_elem_of_In | exact Hbb]. }
  destruct (extents_of_permuted _ _ _ _ _ Hperm Hbbs) as (bbs' & Hbbs' & Hmem).
  assert (Hkeys : forall a, a ∈ concat (map snd bbs) <-> a ∈ concat (map snd bbs')).
  { intros a. rewrite !elem_of_concat. split.
    - intros (l & Ha & (bb & -> & Hbb)%list_elem_of_fmap). exists bb.2.
      split; [assumption|]. apply list_elem_of_fmap. exists bb. split; [reflexivity|].
      now apply Hmem.
    - intros (l & Ha & (bb & -> & Hbb)%list_elem_of_fmap). exists bb.2.
      split; [assumption|]. apply list_elem_of_fmap. exists bb. split; [reflexivity|].
      now apply Hmem. }
  destruct (dataset_extent_of_extents _ _ _ _ Hbbs) as [Hnone Hsome].
  destruct (dataset_extent_of_extents _ _ _ _ Hbbs') as [_ Hsome'].
  assert (Hne : concat (map snd bbs) <> []).
  { intros Hnil. rewrite (Hnone Hnil) in Hrun. discriminate. }
  destruct (Hsome Hne) as (mins & maxs & axes0 & Hrun0 & Hnd & Hax & _ & _ & Hvals).
  rewrite Hrun0 in Hrun. injection Hrun as -> -> ->.
  destruct Hsome' as (mins' & maxs' & axes' & Hrun' & Hnd' & Hax' & _ & _ & Hvals').
  { intros Hnil. apply Hne, nil_iff_no_elem. intros a Ha%Hkeys.
    rewrite Hnil in Ha. inversion Ha. }
  exists mins', maxs', axes'. split; [assumption|]. split.
  - apply NoDup_Permutation; [assumption | assumption|].
    intros a. now rewrite Hax, Hax', Hkeys.
  - intros i ax Hi.
    assert (Hin : ax ∈ axes') by (apply Hax', Hkeys, Hax; eapply list_elem_of_lookup_2, Hi).
    apply list_elem_of_lookup in Hin as [j Hj]. exists j. split; [assumption|].
    destruct (Hvals i ax Hi) as (lo & hi & -> & -> & Hlo & Hhi).
    destruct (Hvals' j ax Hj) as (lo' & hi' & -> & -> & Hlo' & Hhi').
    split; f_equal.
    + eapply py_min_same_members; [| | exact Hlo' | exact Hlo].
      * intros (bb & k & Hbb & _ & H2)%elem_of_values_on%elem_of_min_entries.
        apply Hmem, Hfin in Hbb as [Hb _]. apply Hb. eapply list_elem_of_lookup_2, H2.
      * intros v. rewrite !elem_of_values_on, !elem_of_min_entries. unfold axis_min_of.
        split; intros (bb & k & Hbb & H1 & H2); exists bb, k; (split; [now apply Hmem|]);
          split; assumption.
    + eapply py_max_same_members; [| | exact Hhi' | exact Hhi].
      * intros (bb & k & Hbb & _ & H2)%elem_of_values_on%elem_of_max_entries.
        apply Hmem, Hfin in Hbb as [_ Hb]. apply Hb. eapply list_elem_of_lookup_2, H2.
      * intros v. rewrite !elem_of_values_on, !elem_of_max_entries. unfold axis_max_of.
        split; intros (bb & k & Hbb & H1 & H2); exists bb, k; (split; [now apply Hmem|]);
          split; assumption.
Qed.

Lemma dataset_extent_order_independent_witness :
  exists min_coordinates' max_coordinates' axes',
    get_extent Transformations.transform_points
      (a_SpatialData {| _gen_elements_values := rev (_gen_elements_values small_dataset) |})
      "global"
    = Ok (min_coordinates', max_coordinates', axes') /\
    [ "x"; "y" ] ≡ₚ axes' /\
    forall i ax, [ "x"; "y" ] !! i = Some ax ->
      exists j, axes' !! j = Some ax /\
                min_coordinates' !! j = map finite [-1; 0]%Z !! i /\
                max_coordinates' !! j = map finite [3; 3]%Z !! i.
Proof.
  apply (dataset_extent_order_independent Transformations.transform_points small_dataset).
  - cbn [_gen_elements_values]. apply Permutation_rev.
  - intros el bb Hel Hrun. cbn [_gen_elements_values small_dataset] in Hel.
    repeat (apply elem_of_cons in Hel as [->|Hel]); [| | |inversion Hel];
      vm_compute in Hrun; try discriminate; injection Hrun as <-;
      split; cbn [fst snd]; intros Hin;
      repeat (apply elem_of_cons in Hin as [Heq|Hin]; [discriminate|]); inversion Hin.
  - vm_compute. reflexivity.
Defined.

(** With a NaN among the extents the order of the elements decides: a
    table without rows in first place makes every bound NaN, in second
    place it is passed over. *)
Lemma dataset_extent_order_with_nan :
  get_extent Transformations.transform_points
    (a_SpatialData {| _gen_elements_values :=
                        [points_element no_points; points_element two_points] |}) "global"
  = Ok ([nan; nan], [nan; nan], ["x"; "y"]) /\
  get_extent Transformations.transform_points
    (a_SpatialData {| _gen_elements_values :=
                        [points_element two_points; points_element no_points] |}) "global"
  = Ok (map finite [-1; 0]%Z, map finite [0; 2]%Z, ["x"; "y"]).
Proof. split; vm_compute; reflexivity. Qed.

(** ** The window of one step of the unpadding is the smallest one *)

Lemma last_elem_of (x : nat) (l : list nat) : List.last (x :: l) 0 ∈ x :: l.
Proof.
  revert x; induction l as [|z l IH]; intros x; [left|].
  change (List.last (x :: z :: l) 0) with (List.last (z :: l) 0). right. apply IH.
Qed.

Lemma unpad_axis_ends dt data axis k n :
  index_of axis (dims data) = Some k -> shape data !! k = Some n ->
  ((forall i, i < n -> isclose_0 dt (sum_others dt data k i) = true) /\
   _unpad_axis dt data axis = Ok (data, 0)) \/
  (exists left_pad kept,
     _unpad_axis dt data axis = Ok (isel data k left_pad (left_pad + kept), left_pad) /\
     0 < kept /\ left_pad + kept <= n /\
     isclose_0 dt (sum_others dt data k left_pad) = false /\
     isclose_0 dt (sum_others dt data k (left_pad + kept - 1)) = false /\
     forall i, i < n -> isclose_0 dt (sum_others dt data k i) = false ->
               left_pad <= i < left_pad + kept).
Proof.
  intros Hk Hn. unfold _unpad_axis. rewrite Hk. cbv zeta.
  assert (Hnth : nth k (shape data) 0 = n) by (now apply nth_lookup_Some with (d := 0) in Hn).
  rewrite Hnth.
  assert (Hmem : forall i, i ∈ List.filter
                     (fun i => negb (isclose_0 dt (sum_others dt data k i))) (seq 0 n)
                   <-> i < n /\ isclose_0 dt (sum_others dt data k i) = false).
  { intros i. rewrite list_elem_of_In, List.filter_In, in_seq.
    rewrite negb_true_iff. split; intros []; split; auto; lia. }
  destruct (List.filter _ (seq 0 n)) as [|x l] eqn:Hnz.
  - left. split; [|reflexivity]. intros i Hi.
    destruct (isclose_0 dt (sum_others dt data k i)) eqn:Hne; [reflexivity|].
    assert (Hin : i ∈ @nil nat) by (apply Hmem; auto). inversion Hin.
  - right. pose proof (last_filter_seq_lt _ _ _ _ _ Hnz) as Hlast.
    assert (Hx : x <= List.last (x :: l) 0).
    { rewrite <- Hnz. apply filter_seq_last. rewrite Hnz. left. }
    exists x, (List.last (x :: l) 0 + 1 - x).
    replace (x + (List.last (x :: l) 0 + 1 - x)) with (List.last (x :: l) 0 + 1) by lia.
    split; [reflexivity|]. split; [lia|]. split; [lia|].
    split; [apply Hmem; left|].
    split.
    + replace (List.last (x :: l) 0 + 1 - 1) with (List.last (x :: l) 0) by lia.
      apply Hmem, last_elem_of.
    + intros i Hi Hne. assert (Hin : i ∈ x :: l) by (apply Hmem; auto).
      pose proof (filter_seq_head _ _ _ _ _ Hnz i Hin).
      rewrite <- Hnz in Hin. apply filter_seq_last in Hin. rewrite Hnz in Hin. lia.
Qed.

(** Along the dimension it is called on, [_unpad_axis] cuts as much as
    [isclose] lets it: when some slice has a sum over the other dimensions
    that is not close to zero, the first and the last slice that it keeps
    are such slices, and at least one slice is kept; when every sum is close
    to zero it cuts nothing and hands the raster back as it is, with no
    offset. *)
Theorem unpad_axis_window_is_tight (dt : dtype) (data unpadded : SpatialImage)
    (axis : string) (k n left_pad : nat) :
  index_of axis (dims data) = Some k -> shape data !! k = Some n ->
  _unpad_axis dt data axis = Ok (unpadded, left_pad) ->
  ((forall i, i < n -> isclose_0 dt (sum_others dt data k i) = true) ->
   unpadded = data /\ left_pad = 0) /\
  ((exists i, i < n /\ isclose_0 dt (sum_others dt data k i) = false) ->
   exists kept,
     shape unpadded !! k = Some kept /\ 0 < kept /\ left_pad + kept <= n /\
     isclose_0 dt (sum_others dt data k left_pad) = false /\
     isclose_0 dt (sum_others dt data k (left_pad + kept - 1)) = false).
Proof.
  intros Hk Hn Hrun.
  destruct (unpad_axis_ends dt data axis k n Hk Hn)
    as [[Hzero Hrun']|(lp & kept & Hrun' & Hpos & Hle & Hfirst & Hlast & _)];
    rewrite Hrun' in Hrun; injection Hrun as <- <-.
  - split; [auto|]. intros (i & Hi & Hne). rewrite Hzero in Hne by assumption. discriminate.
  - split.
    + intros Hzero. rewrite Hzero in Hfirst by lia. discriminate.
    + intros _. exists kept. cbn [shape isel].
      replace (lp + kept - lp) with kept by lia.
      split; [|auto]. apply list_lookup_insert_eq. eapply lookup_lt_Some, Hn.
Qed.

Lemma unpad_axis_window_is_tight_witness :
  exists unpadded left_pad,
    _unpad_axis int64 padded_image "y" = Ok (unpadded, left_pad) /\
    exists kept,
      shape unpadded !! 0 = Some kept /\ 0 < kept /\ left_pad + kept <= 4 /\
      isclose_0 int64 (sum_others int64 padded_image 0 left_pad) = false /\
      isclose_0 int64 (sum_others int64 padded_image 0 (left_pad + kept - 1)) = false.
Proof.
  eexists _, _. split; [vm_compute; reflexivity|].
  apply (unpad_axis_window_is_tight int64 padded_image _ "y" 0 4 1).
  - reflexivity.
  - reflexivity.
  - vm_compute. reflexivity.
  - exists 1. split; [lia|]. vm_compute. reflexivity.
Defined.

(** ** A raster of zeros *)

Lemma sum_others_blank dt data k i :
  (forall idx, in_bounds (shape data) idx -> values data idx = 0%Z) ->
  isclose_0 dt (sum_others dt data k i) = true.
Proof.
  intros Hzero. unfold sum_others. apply sum_of_zeros, Forall_forall.
  intros v (idx & -> & Hidx)%list_elem_of_fmap. apply Hzero.
  apply list_elem_of_In, List.filter_In in Hidx as [Hidx _].
  now apply elem_of_indices, list_elem_of_In.
Qed.

Lemma filter_none {A : Type} (f : A -> bool) (l : list A) :
  (forall x, f x = false) -> List.filter f l = [].
Proof.
  intros H. induction l as [|x l IH]; [reflexivity|]. cbn [List.filter].
  now rewrite H.
Qed.

Lemma index_of_elem_of (ax : string) (ds : list string) :
  ax ∈ ds -> exists k, index_of ax ds = Some k.
Proof.
  intros Hin. unfold index_of.
  destruct (list_find (fun d => d = ax) ds) as [[k d]|] eqn:Hfind; [cbn; eauto|].
  apply list_find_None in Hfind. exfalso.
  apply (proj1 (Forall_forall _ _) Hfind ax Hin). reflexivity.
Qed.

Lemma unpad_axis_blank dt data axis :
  axis ∈ dims data ->
  (forall idx, in_bounds (shape data) idx -> values data idx = 0%Z) ->
  _unpad_axis dt data axis = Ok (data, 0).
Proof.
  intros Hin Hzero. destruct (index_of_elem_of _ _ Hin) as [k Hk].
  unfold _unpad_axis. rewrite Hk. cbv zeta. rewrite filter_none; [reflexivity|].
  intros i. now rewrite sum_others_blank.
Qed.

Lemma unpad_axes_blank dt r axes translation_axes translation_values :
  (forall a, a ∈ axes -> a ∈ dims r) ->
  (forall idx, in_bounds (shape r) idx -> values r idx = 0%Z) ->
  unpad_axes dt axes (r, translation_axes, translation_values)
  = Ok (r, translation_axes ++ List.filter (fun a => negb (String.eqb a "c")) axes,
        translation_values
        ++ map (fun _ => 0%Z) (List.filter (fun a => negb (String.eqb a "c")) axes)).
Proof.
  intros Hsub Hzero. revert translation_axes translation_values.
  induction axes as [|ax axes IH]; intros ta tv.
  - cbn. now rewrite !app_nil_r.
  - cbn [unpad_axes List.filter]. destruct (String.eqb ax "c").
    + cbn [negb]. apply IH. intros a Ha. apply Hsub. now right.
    + cbn [negb fst snd map]. rewrite unpad_axis_blank by (auto; apply Hsub; left).
      cbn [bind]. rewrite IH by (intros a Ha; apply Hsub; now right).
      now rewrite <- !app_assoc.
Qed.

(** A raster whose pixels are all zero is not cropped at all, whatever its
    dtype: [unpad_raster] returns it with its dimensions, shape and pixels,
    and wraps every registered transformation in a sequence that starts with
    the translation by zero along the dimensions other than "c". *)
Theorem unpad_raster_of_zeros (dt : dtype) (raster : SpatialImage) :
  (forall idx, in_bounds (shape raster) idx -> values raster idx = 0%Z) ->
  exists unpadded,
    let translation_axes := List.filter (fun a => negb (String.eqb a "c")) (dims raster) in
    let translation := Translation (map (fun _ => 0%Z) translation_axes) translation_axes in
    unpad_raster dt raster = Ok unpadded /\
    dims unpadded = dims raster /\ shape unpadded = shape raster /\
    values unpadded = values raster /\
    si_transform unpadded = (fun old => Sequence [translation; old]) <$> si_transform raster.
Proof.
  intros Hzero. unfold unpad_raster, get_dims.
  rewrite unpad_axes_blank by auto. cbn [bind app].
  eexists. cbv zeta. split; [reflexivity|].
  apply (set_all_transformations
           (fun old => Sequence [Translation _ _; old]) raster (si_transform raster) eq_refl).
Qed.

Lemma unpad_raster_of_zeros_witness :
  exists unpadded,
    unpad_raster int64 dark_image = Ok unpadded /\
    dims unpadded = ["c"; "y"; "x"] /\ shape unpadded = [1; 2; 3] /\
    values unpadded = values dark_image /\
    si_transform unpadded
    = (fun old => Sequence [Translation [0; 0]%Z ["y"; "x"]; old]) <$> si_transform dark_image.
Proof.
  apply (unpad_raster_of_zeros int64 dark_image). intros idx _. reflexivity.
Defined.

(** ** What is left after unpadding has no border of zeros *)

Lemma lookup_of_nth (idx : list nat) k i :
  k < length idx -> nth k idx 0 = i -> idx !! k = Some i.
Proof.
  intros Hk <-. destruct (lookup_lt_is_Some_2 idx k Hk) as [v Hv]. rewrite Hv.
  f_equal. symmetry. now apply nth_lookup_Some with (d := 0) in Hv.
Qed.

(** A slice whose sum is not close to zero holds a pixel that is not zero. *)
Lemma nonzero_sum_pixel dt u k i :
  k < length (shape u) -> isclose_0 dt (sum_others dt u k i) = false -> nonzero_slice u k i.
Proof.
  intros Hk Hsum. unfold sum_others in Hsum.
  destruct (Forall_Exists_dec (fun idx => values u idx = 0%Z)
              (fun idx => values u idx <> 0%Z)
              (fun idx => Z.eq_dec (values u idx) 0%Z)
              (List.filter (fun idx => Nat.eqb (nth k idx 0) i) (indices (shape u))))
    as [Hzero|Hpix].
  - rewrite sum_of_zeros in Hsum; [discriminate|].
    apply Forall_forall. intros v (idx & -> & Hidx)%list_elem_of_fmap.
    revert idx Hidx. now apply Forall_forall.
  - apply Exists_exists in Hpix as (idx & Hidx & Hne).
    apply list_elem_of_In, List.filter_In in Hidx as [Hidx Heq].
    apply list_elem_of_In, elem_of_indices in Hidx. apply Nat.eqb_eq in Heq.
    exists idx. split; [assumption|]. split; [|assumption].
    apply lookup_of_nth; [|assumption]. now rewrite (in_bounds_length _ _ Hidx).
Qed.

(** On a raster whose sums tell padding from data, a slice with a pixel
    that is not zero has a sum that is not close to zero. *)
Lemma pixel_sum_nonzero dt u k i :
  padding_is_zeros dt u -> nonzero_slice u k i -> isclose_0 dt (sum_others dt u k i) = false.
Proof.
  intros Hp (idx & Hb & Hi & Hne).
  destruct (isclose_0 dt (sum_others dt u k i)) eqn:Hsum; [|reflexivity].
  destruct Hne. eapply sum_others_zero; eauto.
  now apply nth_lookup_Some with (d := 0) in Hi.
Qed.

Lemma alter_alter_fix {A : Type} (f g : A -> A) (k : nat) (l : list A) (x : A) :
  l !! k = Some x -> f (g x) = x -> alter f k (alter g k l) = l.
Proof.
  intros Hk Hf. apply list_eq. intros j. destruct (decide (k = j)) as [<-|Hne].
  - rewrite !list_lookup_alter_eq, Hk. cbn. now rewrite Hf.
  - now rewrite !list_lookup_alter_ne.
Qed.

(** A pixel inside the window is a pixel of the cropped raster. *)
Lemma isel_forward u k n left_pad kept idx i :
  shape u !! k = Some n -> left_pad + kept <= n ->
  in_bounds (shape u) idx -> idx !! k = Some i -> left_pad <= i < left_pad + kept ->
  exists idx',
    in_bounds (shape (isel u k left_pad (left_pad + kept))) idx' /\
    values (isel u k left_pad (left_pad + kept)) idx' = values u idx /\
    idx' !! k = Some (i - left_pad) /\ forall k', k' <> k -> idx' !! k' = idx !! k'.
Proof.
  intros Hn Hle Hb Hi Hwin. exists (alter (fun i => i - left_pad) k idx).
  cbn [shape values isel]. split; [|split; [|split]].
  - unfold in_bounds. apply Forall2_same_length_lookup. split.
    + rewrite length_alter, length_insert. now apply in_bounds_length.
    + intros j a b Ha Hb'. destruct (decide (k = j)) as [<-|Hne].
      * rewrite list_lookup_alter_eq, Hi in Ha. injection Ha as <-.
        rewrite list_lookup_insert_eq in Hb' by (eapply lookup_lt_Some, Hn).
        injection Hb' as <-. lia.
      * rewrite list_lookup_alter_ne in Ha by assumption.
        rewrite list_lookup_insert_ne in Hb' by assumption.
        eapply in_bounds_lookup; eauto.
  - f_equal. apply (alter_alter_fix _ _ _ _ i Hi). lia.
  - rewrite list_lookup_alter_eq, Hi. reflexivity.
  - intros k' Hne. now rewrite list_lookup_alter_ne.
Qed.

(** One step of the loop on a raster whose sums tell padding from data. *)
Lemma unpad_axis_tight dt u axis k n :
  index_of axis (dims u) = Some k -> shape u !! k = Some n ->
  padding_is_zeros dt u ->
  (exists idx, in_bounds (shape u) idx /\ values u idx <> 0%Z) ->
  exists u' left_pad,
    _unpad_axis dt u axis = Ok (u', left_pad) /\
    dims u' = dims u /\ length (shape u') = length (shape u) /\
    padding_is_zeros dt u' /\
    (exists idx, in_bounds (shape u') idx /\ values u' idx <> 0%Z) /\
    tight_along u' k /\
    forall k', k' <> k -> tight_along u k' -> tight_along u' k'.
Proof.
  intros Hk Hn Hpos (idx0 & Hb0 & Hne0).
  assert (Hklt : k < length (shape u)) by (eapply lookup_lt_Some, Hn).
  assert (Hcoord : forall idx, in_bounds (shape u) idx -> values u idx <> 0%Z ->
            exists i, idx !! k = Some i /\ i < n /\
                      isclose_0 dt (sum_others dt u k i) = false).
  { intros idx Hb Hne.
    destruct (lookup_lt_is_Some_2 idx k) as [i Hi];
      [now rewrite (in_bounds_length _ _ Hb)|].
    exists i. split; [assumption|]. split; [eapply in_bounds_lookup; eauto|].
    apply pixel_sum_nonzero; [assumption|]. exists idx. auto. }
  destruct (unpad_axis_ends dt u axis k n Hk Hn)
    as [[Hzero _]|(lp & kept & Hrun & Hkept & Hle & Hfirst & Hlast & Hwin)].
  { destruct (Hcoord idx0 Hb0 Hne0) as (i & _ & Hi & Hsum).
    rewrite Hzero in Hsum by assumption. discriminate. }
  assert (Hmove : forall idx, in_bounds (shape u) idx -> values u idx <> 0%Z ->
            exists i idx', idx !! k = Some i /\
              in_bounds (shape (isel u k lp (lp + kept))) idx' /\
              values (isel u k lp (lp + kept)) idx' <> 0%Z /\
              idx' !! k = Some (i - lp) /\ forall k', k' <> k -> idx' !! k' = idx !! k').
  { intros idx Hb Hne. destruct (Hcoord idx Hb Hne) as (i & Hi & Hlt & Hsum).
    destruct (isel_forward u k n lp kept idx i Hn Hle Hb Hi (Hwin i Hlt Hsum))
      as (idx' & Hb' & Hv' & Hk' & Hother).
    exists i, idx'. rewrite Hv'. auto. }
  exists (isel u k lp (lp + kept)), lp. split; [assumption|].
  split; [reflexivity|]. split; [cbn [shape isel]; apply length_insert|].
  split.
  { apply (padding_is_zeros_window dt u _ k n kept lp); try assumption.
    - cbn [shape isel]. f_equal. lia.
    - reflexivity. }
  split.
  { destruct (Hmove idx0 Hb0 Hne0) as (i & idx' & _ & Hb' & Hv' & _). eauto. }
  split.
  - intros n' Hn'. cbn [shape isel] in Hn'.
    rewrite list_lookup_insert_eq in Hn' by assumption. injection Hn' as <-.
    split; [lia|]. split.
    + destruct (nonzero_sum_pixel dt u k lp Hklt Hfirst) as (idx & Hb & Hi & Hne).
      destruct (Hmove idx Hb Hne) as (i & idx' & Hi' & Hb' & Hv' & Hk' & _).
      assert (i = lp) by congruence. subst i.
      exists idx'. split; [assumption|]. split; [|assumption].
      rewrite Hk'. f_equal. lia.
    + destruct (nonzero_sum_pixel dt u k (lp + kept - 1) Hklt Hlast)
        as (idx & Hb & Hi & Hne).
      destruct (Hmove idx Hb Hne) as (i & idx' & Hi' & Hb' & Hv' & Hk' & _).
      assert (i = lp + kept - 1) by congruence. subst i.
      exists idx'. split; [assumption|]. split; [|assumption].
      rewrite Hk'. f_equal. lia.
  - intros k' Hne Htight n' Hn'. cbn [shape isel] in Hn'.
    rewrite list_lookup_insert_ne in Hn' by auto.
    destruct (Htight n' Hn') as (Hpos' & (idx1 & Hb1 & Hi1 & Hne1) & (idx2 & Hb2 & Hi2 & Hne2)).
    split; [assumption|]. split.
    + destruct (Hmove idx1 Hb1 Hne1) as (i & idx' & _ & Hb' & Hv' & _ & Hother).
      exists idx'. split; [assumption|]. split; [|assumption]. now rewrite Hother.
    + destruct (Hmove idx2 Hb2 Hne2) as (i & idx' & _ & Hb' & Hv' & _ & Hother).
      exists idx'. split; [assumption|]. split; [|assumption]. now rewrite Hother.
Qed.

Lemma unpad_axes_tight dt r suf :
  NoDup (dims r) ->
  forall pre state, dims r = pre ++ suf -> tight_so_far dt r pre state.1.1 ->
  exists state',
    unpad_axes dt suf state = Ok state' /\ tight_so_far dt r (dims r) state'.1.1.
Proof.
  intros Hnd. induction suf as [|ax suf IH]; intros pre state Hdims Inv.
  - exists state. split; [reflexivity|]. now rewrite Hdims, app_nil_r.
  - cbn [unpad_axes]. destruct (String.eqb_spec ax "c") as [->|Hc].
    + apply (IH (pre ++ ["c"])); [now rewrite <- app_assoc|].
      destruct Inv as [Id Il Ipos Ipix It]. split; try assumption.
      intros k a Hk Ha. apply lookup_app_Some in Hk as [Hk|[_ Hk]]; [eauto|].
      apply list_lookup_singleton_Some in Hk as [_ <-]. congruence.
    + destruct Inv as [Id Il Ipos Ipix It].
      assert (Hk : index_of ax (dims state.1.1) = Some (length pre)).
      { rewrite Id, Hdims. apply index_of_middle. rewrite Hdims in Hnd.
        apply NoDup_app in Hnd as (_ & Hd & _). intros Hin. apply (Hd ax Hin). left. }
      destruct (lookup_lt_is_Some_2 (shape state.1.1) (length pre)) as [n Hn].
      { rewrite Il, Hdims, length_app. cbn. lia. }
      destruct (unpad_axis_tight dt _ ax _ n Hk Hn Ipos Ipix)
        as (u' & lp & Hrun & Hd' & Hl' & Hpos' & Hpix' & Htk & Hto).
      rewrite Hrun. cbn [bind].
      apply (IH (pre ++ [ax])); [now rewrite <- app_assoc|]. cbn [fst snd].
      split; try congruence; try assumption.
      intros k a Hka Ha. apply lookup_app_Some in Hka as [Hka|[Hge Hka]].
      * apply Hto; [|eauto]. apply lookup_lt_Some in Hka. lia.
      * apply list_lookup_singleton_Some in Hka as [Hz <-].
        replace k with (length pre) by lia. exact Htk.
Qed.

(** On a raster whose sums tell padding from data and that holds a pixel
    other than zero, [unpad_raster] leaves no border of zeros: along every
    dimension other than "c" the result has at least one slice, and its
    first and its last slice each hold a pixel that is not zero. *)
Theorem unpadded_raster_is_tight (dt : dtype) (raster : SpatialImage) :
  length (dims raster) = length (shape raster) -> NoDup (dims raster) ->
  padding_is_zeros dt raster ->
  (exists idx, in_bounds (shape raster) idx /\ values raster idx <> 0%Z) ->
  exists unpadded,
    unpad_raster dt raster = Ok unpadded /\
    forall k a n, dims raster !! k = Some a -> a <> "c" -> shape unpadded !! k = Some n ->
      0 < n /\ nonzero_slice unpadded k 0 /\ nonzero_slice unpadded k (n - 1).
Proof.
  intros Hwf Hnd Hpos Hpix.
  destruct (unpad_axes_tight dt raster (dims raster) Hnd [] (raster, [], []) eq_refl)
    as ([[u taxes] tvals] & Hrun & [Id Il Ipos Ipix It]).
  { split; cbn [fst snd]; auto. intros k a Hk. destruct k; discriminate. }
  cbn [fst snd] in *.
  pose proof (set_all_transformations
                (fun old => Sequence [Translation tvals taxes; old]) u (si_transform u) eq_refl)
    as Hset. cbv zeta in Hset. destruct Hset as (_ & Hs & Hv & _).
  assert (Hreg : si_transform u = si_transform raster).
  { destruct (unpad_axes_spec dt raster (dims raster) Hwf Hnd [] (raster, [], [])
                (replicate (length (shape raster)) 0) eq_refl
                (unpadded_from_start dt raster Hwf))
      as (state' & offs & Hrun' & Inv).
    rewrite Hrun in Hrun'. injection Hrun' as <-. now destruct Inv. }
  eexists. split.
  { unfold unpad_raster, get_dims. rewrite Hrun. cbn [bind]. rewrite <- Hreg. reflexivity. }
  intros k a n Hk Ha. unfold nonzero_slice. rewrite Hs, Hv. apply (It k a Hk Ha).
Qed.

(** *** Rasters of 64-bit integers *)

Lemma sum_Z_bounds (l : list Z) (b : Z) :
  (forall v, v ∈ l -> (0 <= v <= b)%Z) -> (0 <= sum_Z l <= b * Z.of_nat (length l))%Z.
Proof.
  induction l as [|x l IH]; intros H; cbn [sum_Z fold_right length]; [lia|].
  fold (sum_Z l). assert (0 <= x <= b)%Z by (apply H; left).
  assert (0 <= sum_Z l <= b * Z.of_nat (length l))%Z
    by (apply IH; intros v Hv; apply H; now right).
  lia.
Qed.

(** A raster of 64-bit integers without negative pixels whose pixels cannot
    add up to 2^63 or more: its sums tell padding from data. *)
Lemma int64_padding_is_zeros (r : SpatialImage) (b : Z) :
  (forall j, in_bounds (shape r) j -> (0 <= values r j <= b)%Z) ->
  (0 <= b)%Z -> (b * Z.of_nat (length (indices (shape r))) < 2 ^ 63)%Z ->
  padding_is_zeros int64 r.
Proof.
  intros Hb Hb0 Hsmall js Hnd Hin Hclose j Hj.
  assert (Hlen : length js <= length (indices (shape r))).
  { apply submseteq_length, NoDup_submseteq; [assumption|].
    intros x Hx. now apply elem_of_indices, Hin. }
  assert (Hsum : (0 <= sum_Z (map (values r) js) <= b * Z.of_nat (length js))%Z).
  { rewrite <- (length_map (values r)). apply sum_Z_bounds.
    intros v (x & -> & Hx)%list_elem_of_fmap. now apply Hb, Hin. }
  cbn [isclose_0 array_sum int64] in Hclose. apply Z.eqb_eq in Hclose.
  unfold wrap64 in Hclose. rewrite Z.mod_small in Hclose by nia.
  apply (sum_Z_zero (map (values r) js)).
  - intros v (x & -> & Hx)%list_elem_of_fmap. now apply Hb, Hin.
  - lia.
  - apply list_elem_of_fmap. eauto.
Qed.

Lemma padded_image_padding : padding_is_zeros int64 padded_image.
Proof.
  apply (int64_padding_is_zeros padded_image 3); [|lia|vm_compute; reflexivity].
  intros j Hj%elem_of_indices. revert j Hj. apply Forall_forall.
  vm_compute. repeat (constructor; [split; discriminate|]). constructor.
Qed.

Lemma unpadded_raster_is_tight_witness :
  exists unpadded,
    unpad_raster int64 padded_image = Ok unpadded /\
    forall k a n, dims padded_image !! k = Some a -> a <> "c" ->
      shape unpadded !! k = Some n ->
      0 < n /\ nonzero_slice unpadded k 0 /\ nonzero_slice unpadded k (n - 1).
Proof.
  apply (unpadded_raster_is_tight int64 padded_image).
  - reflexivity.
  - apply (bool_decide_unpack _). vm_compute. exact I.
  - exact padded_image_padding.
  - exists [1; 1]. split; [repeat constructor | vm_compute; discriminate].
Defined.

(** ** Unpadding twice *)

Lemma sum_others_ext dt u s k i :
  shape s = shape u -> (forall idx, values s idx = values u idx) ->
  sum_others dt s k i = sum_others dt u k i.
Proof.
  intros Hs Hv. unfold sum_others. rewrite Hs. f_equal. apply map_ext. exact Hv.
Qed.

Lemma index_of_Some (ax : string) (ds : list string) (k : nat) :
  index_of ax ds = Some k -> ds !! k = Some ax.
Proof.
  unfold index_of. destruct (list_find _ ds) as [[j d]|] eqn:Hfind; [|discriminate].
  cbn. intros [= <-]. now apply list_find_Some in Hfind as (Hj & -> & _).
Qed.

(** One step of the loop on a raster from which nothing can be cut. *)
Lemma unpad_axis_settled dt u s ax :
  settled dt u -> length (dims u) = length (shape u) -> ax ∈ dims u -> ax <> "c" ->
  same_raster u s ->
  exists s', _unpad_axis dt s ax = Ok (s', 0) /\ same_raster u s'.
Proof.
  intros Hset Hwf Hin Hc (Hd & Hs & Hv & Ht).
  destruct (index_of_elem_of _ _ Hin) as [k Hk].
  destruct (lookup_lt_is_Some_2 (shape u) k) as [n Hn].
  { rewrite <- Hwf. eapply lookup_lt_Some, index_of_Some, Hk. }
  assert (Hsum : forall i, sum_others dt s k i = sum_others dt u k i)
    by (intros i; now apply sum_others_ext).
  destruct (unpad_axis_ends dt s ax k n)
    as [[_ Hrun]|(lp & kept & Hrun & Hkept & Hle & Hfirst & Hlast & Hwin)];
    [now rewrite Hd | now rewrite Hs | |].
  - exists s. split; [assumption|]. repeat split; assumption.
  - destruct (Hset ax k n Hk Hc Hn) as [Hzero|(Hpos & H0 & Hend)].
    { rewrite Hsum, Hzero in Hfirst by lia. discriminate. }
    assert (lp <= 0 < lp + kept) by (apply Hwin; [lia | now rewrite Hsum]).
    assert (lp <= n - 1 < lp + kept) by (apply Hwin; [lia | now rewrite Hsum]).
    assert (lp = 0) by lia. assert (kept = n) by lia. subst lp kept.
    exists (isel s k 0 (0 + n)). split; [assumption|].
    split; [exact Hd|]. split; [|split; [|exact Ht]].
    + cbn [shape isel]. rewrite <- Hs. apply list_insert_id. rewrite Hs, Hn.
      f_equal. lia.
    + intros idx. cbn [values isel]. rewrite <- Hv. f_equal.
      apply list_alter_id. intros; lia.
Qed.

Lemma unpad_axes_settled dt u axes :
  settled dt u -> length (dims u) = length (shape u) -> (forall a, a ∈ axes -> a ∈ dims u) ->
  forall s translation_axes translation_values,
    same_raster u s ->
    exists s',
      unpad_axes dt axes (s, translation_axes, translation_values)
      = Ok (s', translation_axes ++ List.filter (fun a => negb (String.eqb a "c")) axes,
            translation_values
            ++ map (fun _ => 0%Z) (List.filter (fun a => negb (String.eqb a "c")) axes)) /\
      same_raster u s'.
Proof.
  intros Hset Hwf. induction axes as [|ax axes IH]; intros Hsub s ta tv Hsame.
  - exists s. cbn. now rewrite !app_nil_r.
  - cbn [unpad_axes List.filter]. destruct (String.eqb_spec ax "c") as [->|Hc].
    + cbn [negb]. apply IH; [|assumption]. intros a Ha. apply Hsub. now right.
    + cbn [negb fst snd map].
      destruct (unpad_axis_settled dt u s ax Hset Hwf (Hsub ax ltac:(left)) Hc Hsame)
        as (s1 & Hrun & Hsame1).
      rewrite Hrun. cbn [bind fst snd Z.of_nat].
      destruct (IH (fun a Ha => Hsub a ltac:(now right)) s1 (ta ++ [ax]) (tv ++ [0%Z]) Hsame1)
        as (s' & Hrun' & Hsame').
      exists s'. split; [|assumption]. change (Z.of_nat 0) with 0%Z.
      rewrite Hrun'. now rewrite <- !app_assoc.
Qed.

(** Unpadding a raster from which nothing can be cut gives the raster back,
    under the translation by zero. *)
Lemma unpad_settled dt u :
  settled dt u -> length (dims u) = length (shape u) ->
  exists twice,
    let translation_axes := List.filter (fun a => negb (String.eqb a "c")) (dims u) in
    let translation := Translation (map (fun _ => 0%Z) translation_axes) translation_axes in
    unpad_raster dt u = Ok twice /\
    dims twice = dims u /\ shape twice = shape u /\
    (forall idx, values twice idx = values u idx) /\
    si_transform twice = (fun old => Sequence [translation; old]) <$> si_transform u.
Proof.
  intros Hset Hwf.
  destruct (unpad_axes_settled dt u (dims u) Hset Hwf (fun a Ha => Ha) u [] [])
    as (s' & Hrun & (Hd & Hs & Hv & Ht)); [repeat split|].
  unfold unpad_raster, get_dims. rewrite Hrun. cbn [bind app].
  eexists. cbv zeta. split; [reflexivity|].
  destruct (set_all_transformations
              (fun old => Sequence
                 [Translation
                    (map (fun _ => 0%Z)
                       (List.filter (fun a => negb (String.eqb a "c")) (dims u)))
                    (List.filter (fun a => negb (String.eqb a "c")) (dims u)); old])
              s' (si_transform u) Ht) as (Hd' & Hs' & Hv' & Ht').
  rewrite Hd', Hs', Hv'. repeat split; assumption.
Qed.

(** After unpadding a raster whose sums tell padding from data, nothing can
    be cut. *)
Lemma settled_after_unpad dt (raster : SpatialImage) :
  length (dims raster) = length (shape raster) -> NoDup (dims raster) ->
  padding_is_zeros dt raster ->
  exists once,
    unpad_raster dt raster = Ok once /\ dims once = dims raster /\
    length (dims once) = length (shape once) /\ settled dt once.
Proof.
  intros Hwf Hnd Hpos.
  destruct (Forall_Exists_dec (fun idx => values raster idx = 0%Z)
              (fun idx => values raster idx <> 0%Z)
              (fun idx => Z.eq_dec (values raster idx) 0%Z) (indices (shape raster)))
    as [Hzero|Hpix].
  - assert (Hblank : forall idx, in_bounds (shape raster) idx -> values raster idx = 0%Z).
    { intros idx Hidx%elem_of_indices. revert idx Hidx. now apply Forall_forall. }
    unfold unpad_raster, get_dims. rewrite unpad_axes_blank by auto. cbn [bind app].
    eexists. split; [reflexivity|].
    destruct (set_all_transformations
                (fun old => Sequence
                   [Translation
                      (map (fun _ => 0%Z)
                         (List.filter (fun a => negb (String.eqb a "c")) (dims raster)))
                      (List.filter (fun a => negb (String.eqb a "c")) (dims raster)); old])
                raster (si_transform raster) eq_refl) as (Hd & Hs & Hv & _).
    rewrite Hd, Hs. split; [reflexivity|]. split; [assumption|].
    intros ax k n _ _ _. left. intros i _. apply sum_others_blank.
    rewrite Hs, Hv. exact Hblank.
  - apply Exists_exists in Hpix as (idx0 & Hidx0%elem_of_indices & Hne0).
    destruct (unpad_axes_tight dt raster (dims raster) Hnd [] (raster, [], []) eq_refl)
      as ([[u taxes] tvals] & Hrun & [Id Il Ipos Ipix It]).
    { split; cbn [fst snd]; eauto. intros k a Hk. destruct k; discriminate. }
    cbn [fst snd] in *.
    assert (Hreg : si_transform u = si_transform raster).
    { destruct (unpad_axes_spec dt raster (dims raster) Hwf Hnd [] (raster, [], [])
                  (replicate (length (shape raster)) 0) eq_refl
                  (unpadded_from_start dt raster Hwf)) as (state' & offs & Hrun' & Inv).
      rewrite Hrun in Hrun'. injection Hrun' as <-. now destruct Inv. }
    unfold unpad_raster, get_dims. rewrite Hrun. cbn [bind].
    eexists. split; [reflexivity|].
    destruct (set_all_transformations
                (fun old => Sequence [Translation tvals taxes; old])
                u (si_transform raster) Hreg) as (Hd & Hs & Hv & _).
    rewrite Hd, Hs. split; [assumption|]. split; [congruence|].
    intros ax k n Hk Hc Hn. right. rewrite Hd, Id in Hk. apply index_of_Some in Hk.
    rewrite Hs in Hn. destruct (It k ax Hk Hc n Hn) as (Hn0 & Hfirst & Hlast).
    split; [assumption|]. unfold sum_others. rewrite Hs, Hv.
    split; now apply pixel_sum_nonzero.
Qed.

(** Unpadding is idempotent on the pixels of a raster whose sums tell
    padding from data: unpadding the result once more returns a raster with
    the same dimensions, shape and pixels.  The transformations are not left
    alone, though: the second call wraps each of them once more, in a
    sequence that starts with the translation by zero. *)
Theorem unpad_raster_is_idempotent (dt : dtype) (raster : SpatialImage) :
  length (dims raster) = length (shape raster) -> NoDup (dims raster) ->
  padding_is_zeros dt raster ->
  exists once twice,
    let translation_axes := List.filter (fun a => negb (String.eqb a "c")) (dims raster) in
    let translation := Translation (map (fun _ => 0%Z) translation_axes) translation_axes in
    unpad_raster dt raster = Ok once /\ unpad_raster dt once = Ok twice /\
    dims twice = dims once /\ shape twice = shape once /\
    (forall idx, values twice idx = values once idx) /\
    si_transform twice = (fun old => Sequence [translation; old]) <$> si_transform once.
Proof.
  intros Hwf Hnd Hpos.
  destruct (settled_after_unpad dt raster Hwf Hnd Hpos) as (once & Hrun & Hd & Hwf' & Hset).
  destruct (unpad_settled dt once Hset Hwf') as (twice & Hrun' & Hrest).
  exists once, twice. cbv zeta. rewrite <- Hd. auto.
Qed.

Lemma unpad_raster_is_idempotent_witness :
  exists once twice,
    unpad_raster int64 padded_image = Ok once /\ unpad_raster int64 once = Ok twice /\
    dims twice = dims once /\ shape twice = shape once /\
    (forall idx, values twice idx = values once idx) /\
    si_transform twice
    = (fun old => Sequence [Translation [0; 0]%Z ["y"; "x"]; old]) <$> si_transform once.
Proof.
  apply (unpad_raster_is_idempotent int64 padded_image).
  - reflexivity.
  - apply (bool_decide_unpack _). vm_compute. exact I.
  - exact padded_image_padding.
Defined.

(** With pixels of both signs a second call can cut again: the first column
    of [skewed_image] sums to zero and is cut, after which the first row
    sums to zero as well. *)
Lemma unpad_raster_twice_skewed :
  exists once twice,
    unpad_raster int64 skewed_image = Ok once /\ unpad_raster int64 once = Ok twice /\
    shape once = [2; 1] /\ shape twice = [1; 1].
Proof.
  eexists _, _. split; [vm_compute; reflexivity|].
  split; [vm_compute; reflexivity|]. split; reflexivity.
Qed.

(** ** Comparing directory trees *)

Lemma node_induction (P : node -> Prop) :
  (forall content st_mtime, P (RegularFile content st_mtime)) ->
  (forall entries, Forall (fun e => P (snd e)) entries -> P (Directory entries)) ->
  forall t, P t.
Proof.
  intros Hfile Hdir. fix IH 1. intros [content st_mtime|entries]; [apply Hfile|].
  apply Hdir. induction entries as [|[x n] entries IHentries]; constructor;
    [apply IH | exact IHentries].
Qed.

Lemma stat_Some_elem x entries n : stat x entries = Some n -> (x, n) ∈ entries.
Proof.
  induction entries as [|[y m] entries IH]; [discriminate|]. cbn [stat].
  destruct (String.eqb_spec y x) as [->|Hne].
  - intros [= ->]. left.
  - intros H. right. now apply IH.
Qed.

Lemma stat_elem x entries n :
  NoDup (map fst entries) -> (x, n) ∈ entries -> stat x entries = Some n.
Proof.
  induction entries as [|[y m] entries IH]; intros Hnd Hin; [inversion Hin|].
  cbn [map fst] in Hnd. apply NoDup_cons in Hnd as [Hy Hnd]. cbn [stat].
  apply elem_of_cons in Hin as [[= -> ->]|Hin].
  - now rewrite String.eqb_refl.
  - destruct (String.eqb_spec y x) as [->|Hne]; [|now apply IH].
    destruct Hy. apply list_elem_of_fmap. now exists (x, n).
Qed.

Lemma stat_is_Some x entries : x ∈ map fst entries <-> exists n, stat x entries = Some n.
Proof.
  split.
  - induction entries as [|[y m] entries IH]; [inversion 1|]. cbn [map fst stat].
    intros [->|Hin]%elem_of_cons; [rewrite String.eqb_refl; eauto|].
    destruct (String.eqb y x); eauto.
  - intros [n Hn%stat_Some_elem]. apply list_elem_of_fmap. now exists (x, n).
Qed.

Lemma well_formed_entry entries x n :
  well_formed_tree (Directory entries) -> (x, n) ∈ entries -> well_formed_tree n.
Proof.
  intros [_ Heach] Hin. induction entries as [|e entries IH]; [inversion Hin|].
  destruct Heach as [He Heach]. apply elem_of_cons in Hin as [Heq|Hin]; [|auto].
  subst e. exact He.
Qed.

Lemma filter_nil {A : Type} (f : A -> bool) (l : list A) :
  List.filter f l = [] <-> forall x, x ∈ l -> f x = false.
Proof.
  induction l as [|a l IH]; cbn [List.filter].
  - split; [intros _ x Hx; inversion Hx | reflexivity].
  - destruct (f a) eqn:Ha; split.
    + discriminate.
    + intros H. specialize (H a ltac:(left)). congruence.
    + intros H x [->|Hx]%elem_of_cons; [assumption | now apply IH].
    + intros H. apply IH. intros x Hx. apply H. now right.
Qed.

Lemma truthy_false {A : Type} (l : list A) : truthy l = false <-> l = [].
Proof. destruct l; cbn; split; congruence. Qed.

Lemma elem_of_listing x (entries : list (string * node)) :
  x ∈ _filter (map fst entries) (hide ++ DEFAULT_IGNORES)
  <-> x ∈ map fst entries /\ ~ ignored x.
Proof.
  unfold _filter, ignored. rewrite list_elem_of_In, List.filter_In, <- list_elem_of_In.
  rewrite negb_true_iff, bool_decide_eq_false. reflexivity.
Qed.

Lemma elem_of_common x a b :
  x ∈ common (make_dircmp a b) <-> x ∈ map fst a /\ x ∈ map fst b /\ ~ ignored x.
Proof.
  cbn [common make_dircmp]. rewrite list_elem_of_In, List.filter_In, <- list_elem_of_In.
  rewrite bool_decide_eq_true, !elem_of_listing. tauto.
Qed.

Lemma elem_of_common_dirs x a b :
  x ∈ common_dirs (make_dircmp a b)
  <-> ~ ignored x /\ exists l1 l2, stat x a = Some (Directory l1) /\ stat x b = Some (Directory l2).
Proof.
  assert (H : x ∈ common_dirs (make_dircmp a b)
              <-> x ∈ common (make_dircmp a b) /\
                  match stat x a, stat x b with
                  | Some (Directory _), Some (Directory _) => true
                  | _, _ => false
                  end = true).
  { cbn [common_dirs common make_dircmp].
    now rewrite list_elem_of_In, List.filter_In, <- list_elem_of_In. }
  rewrite H, elem_of_common, !stat_is_Some. clear H. split.
  - intros [(_ & _ & Hi) H]. split; [assumption|].
    destruct (stat x a) as [[c1 m1|l1]|]; try discriminate.
    destruct (stat x b) as [[c2 m2|l2]|]; try discriminate. eauto.
  - intros (Hi & l1 & l2 & -> & ->). eauto 6.
Qed.

Lemma elem_of_common_files x a b :
  x ∈ common_files (make_dircmp a b)
  <-> ~ ignored x /\
      exists c1 m1 c2 m2,
        stat x a = Some (RegularFile c1 m1) /\ stat x b = Some (RegularFile c2 m2).
Proof.
  assert (H : x ∈ common_files (make_dircmp a b)
              <-> x ∈ common (make_dircmp a b) /\
                  match stat x a, stat x b with
                  | Some (RegularFile _ _), Some (RegularFile _ _) => true
                  | _, _ => false
                  end = true).
  { cbn [common_files common make_dircmp].
    now rewrite list_elem_of_In, List.filter_In, <- list_elem_of_In. }
  rewrite H, elem_of_common, !stat_is_Some. clear H. split.
  - intros [(_ & _ & Hi) H]. split; [assumption|].
    destruct (stat x a) as [[c1 m1|l1]|]; try discriminate.
    destruct (stat x b) as [[c2 m2|l2]|]; try discriminate. eauto 8.
  - intros (Hi & c1 & m1 & c2 & m2 & -> & ->). eauto 6.
Qed.

(** What the comparison of two directories comes to. *)
Lemma identical_directories (re_match : string -> string -> bool)
    dir1 entries1 dir2 entries2 exclude_regexp _root_dir1 _root_dir2 :
  _are_directories_identical re_match dir1 (Directory entries1) dir2 (Directory entries2)
    exclude_regexp _root_dir1 _root_dir2
  = if match exclude_regexp with
       | Some exclude_regexp =>
           re_match (default dir1 _root_dir1 +:+ "/" +:+ exclude_regexp) dir1
           || re_match (default dir2 _root_dir2 +:+ "/" +:+ exclude_regexp) dir2
       | None => false
       end
    then Returns true
    else
      let compared := make_dircmp entries1 entries2 in
      if truthy (left_only compared) || truthy (right_only compared)
         || truthy (diff_files compared) || truthy (funny_files compared)
      then Returns false
      else
        for_each_subdir
          (fun subdir sub1 sub2 =>
             _are_directories_identical re_match
               (os_path_join dir1 subdir) sub1 (os_path_join dir2 subdir) sub2
               exclude_regexp (Some (default dir1 _root_dir1)) (Some (default dir2 _root_dir2)))
          (common_dirs compared) entries2 entries1.
Proof.
  cbn [_are_directories_identical]. cbv zeta.
  destruct (match exclude_regexp with Some _ => _ | None => false end); [reflexivity|].
  destruct (truthy _ || truthy _ || truthy _ || truthy _); [reflexivity|].
  match goal with
  | |- ?f entries1 = ?g entries1 => enough (Hloop : forall l, f l = g l) by apply Hloop
  end.
  intros l. induction l as [|[subdir sub1] l IH]; [reflexivity|]. cbn [for_each_subdir].
  rewrite IH. reflexivity.
Qed.

Lemma for_each_subdir_true call common_dirs entries2 entries :
  for_each_subdir call common_dirs entries2 entries = Returns true
  <-> forall subdir sub1 sub2,
        (subdir, sub1) ∈ entries -> subdir ∈ common_dirs ->
        stat subdir entries2 = Some sub2 -> call subdir sub1 sub2 = Returns true.
Proof.
  induction entries as [|[subdir sub1] entries IH]; cbn [for_each_subdir].
  - split; [intros _ ? ? ? H; inversion H | reflexivity].
  - destruct (bool_decide (subdir ∈ common_dirs)) eqn:Hc.
    + apply bool_decide_eq_true in Hc.
      destruct (stat subdir entries2) as [sub2|] eqn:Hs.
      * destruct (call subdir sub1 sub2) as [[|]|] eqn:Hcall.
        -- rewrite IH. split.
           ++ intros H x n1 n2 [[= -> ->]|Hin]%elem_of_cons Hx Hn2; [congruence | eauto].
           ++ intros H x n1 n2 Hin. apply H. now right.
        -- split; [discriminate|]. intros H.
           rewrite <- Hcall. apply (H subdir sub1 sub2); [left | assumption | assumption].
        -- split; [discriminate|]. intros H.
           rewrite <- Hcall. apply (H subdir sub1 sub2); [left | assumption | assumption].
      * rewrite IH. split.
        -- intros H x n1 n2 [[= -> ->]|Hin]%elem_of_cons Hx Hn2; [congruence | eauto].
        -- intros H x n1 n2 Hin. apply H. now right.
    + apply bool_decide_eq_false in Hc. rewrite IH. split.
      * intros H x n1 n2 [[= -> ->]|Hin]%elem_of_cons Hx Hn2; [contradiction | eauto].
      * intros H x n1 n2 Hin. apply H. now right.
Qed.

(** When [filecmp.cmp] with [shallow=True] takes two regular files for the
    same: they have the same size, and the same modification time or the
    same content. *)
Lemma cmp_shallow content1 mtime1 content2 mtime2 :
  cmp (Some (RegularFile content1 mtime1)) (Some (RegularFile content2 mtime2)) true = true
  <-> String.length content1 = String.length content2 /\
      (mtime1 = mtime2 \/ content1 = content2).
Proof.
  cbn [cmp]. cbv zeta. unfold _sig. cbn [fst andb].
  destruct (bool_decide_reflect
              ((String.length content1, mtime1) = (String.length content2, mtime2)))
    as [[= Hl Hm]|Hne].
  - split; [auto | reflexivity].
  - destruct (Nat.eqb_spec (String.length content1) (String.length content2)) as [Hl|Hl];
      cbn [negb].
    + rewrite String.eqb_eq. split; [auto|]. intros [_ [Hm|Hc]]; [|assumption].
      destruct Hne. congruence.
    + split; [discriminate | tauto].
Qed.

(** The two listings show no difference exactly when the directories hold
    the same names, the ignored ones apart, and [filecmp.cmp] takes the
    regular files they have in common for the same. *)
Lemma quiet_dircmp a b :
  truthy (left_only (make_dircmp a b)) || truthy (right_only (make_dircmp a b))
  || truthy (diff_files (make_dircmp a b)) || truthy (funny_files (make_dircmp a b)) = false
  <-> (forall x, ~ ignored x -> (x ∈ map fst a <-> x ∈ map fst b)) /\
      (forall x c1 m1 c2 m2, ~ ignored x -> stat x a = Some (RegularFile c1 m1) ->
         stat x b = Some (RegularFile c2 m2) ->
         String.length c1 = String.length c2 /\ (m1 = m2 \/ c1 = c2)).
Proof.
  rewrite !orb_false_iff, !truthy_false.
  change (diff_files (make_dircmp a b))
    with (List.filter (fun x => negb (cmp (stat x a) (stat x b) true))
            (common_files (make_dircmp a b))).
  cbn [left_only right_only funny_files make_dircmp filecmp_dircmp_phase3 cmpfiles snd].
  rewrite !filter_nil. split.
  - intros [[[Hl Hr] Hd] _]. split.
    + intros x Hx. split; intros Hin.
      * assert (Hx' : x ∈ _filter (map fst a) (hide ++ DEFAULT_IGNORES))
          by (now apply elem_of_listing).
        apply Hl in Hx'. apply negb_false_iff, bool_decide_eq_true in Hx'.
        now apply elem_of_listing in Hx'.
      * assert (Hx' : x ∈ _filter (map fst b) (hide ++ DEFAULT_IGNORES))
          by (now apply elem_of_listing).
        apply Hr in Hx'. apply negb_false_iff, bool_decide_eq_true in Hx'.
        now apply elem_of_listing in Hx'.
    + intros x c1 m1 c2 m2 Hx H1 H2.
      assert (Hc : x ∈ common_files (make_dircmp a b))
        by (apply elem_of_common_files; eauto 8).
      apply Hd in Hc. rewrite H1, H2 in Hc.
      now apply negb_false_iff, cmp_shallow in Hc.
  - intros [Hnames Hfiles]. repeat split.
    + intros x [Hin Hx]%elem_of_listing. apply negb_false_iff, bool_decide_eq_true.
      apply elem_of_listing. split; [now apply Hnames | assumption].
    + intros x [Hin Hx]%elem_of_listing. apply negb_false_iff, bool_decide_eq_true.
      apply elem_of_listing. split; [now apply Hnames | assumption].
    + intros x (Hx & c1 & m1 & c2 & m2 & H1 & H2)%elem_of_common_files.
      rewrite H1, H2. apply negb_false_iff, cmp_shallow. eauto.
Qed.

(** A directory compares as identical to itself. *)
Lemma identical_same_tree (re_match : string -> string -> bool) (t : node) :
  well_formed_tree t ->
  forall entries, t = Directory entries ->
  forall dir1 dir2 exclude_regexp _root_dir1 _root_dir2,
    _are_directories_identical re_match dir1 t dir2 t exclude_regexp _root_dir1 _root_dir2
    = Returns true.
Proof.
  induction t as [content st_mtime|entries IH] using node_induction; [discriminate|].
  intros Hwf ? [= <-] dir1 dir2 exclude_regexp _root_dir1 _root_dir2.
  rewrite identical_directories.
  destruct (match exclude_regexp with Some _ => _ | None => false end); [reflexivity|].
  cbv zeta. rewrite (proj2 (quiet_dircmp entries entries)).
  2:{ split; [tauto|]. intros x c1 m1 c2 m2 _ H1 H2. rewrite H1 in H2.
      injection H2 as <- <-. auto. }
  apply for_each_subdir_true. intros subdir sub1 sub2 Hin Hc Hs.
  apply elem_of_common_dirs in Hc as (_ & l1 & _ & Hl1 & _).
  rewrite (stat_elem _ _ _ (proj1 Hwf) Hin) in Hs, Hl1. injection Hs as <-.
  pose proof (proj1 (Forall_forall _ _) IH _ Hin) as IHsub. cbn [snd] in IHsub.
  injection Hl1 as Hl1. eapply IHsub; [eapply well_formed_entry; eauto | exact Hl1].
Qed.

(** What the comparison does not see.  Two directories are reported as
    identical whenever, the ignored names apart ([.git], [__pycache__] and
    the other names [dircmp] leaves out), they hold the same names and every
    name they share holds the same tree on both sides, or a regular file on
    one side and a directory on the other, or two regular files of the same
    size and modification time, whatever their bytes.  So an entry with an
    ignored name is never compared; a name that changed from a file into a
    directory is not counted as a difference; and the files are not compared
    by content, since the [phase3] that utils.py overrides is not the one
    that [dircmp] calls.  In particular a directory is identical to
    itself. *)
Theorem directories_identical_blind_spots (re_match : string -> string -> bool)
    (dir1 dir2 : string) (entries1 entries2 : list (string * node))
    (exclude_regexp _root_dir1 _root_dir2 : option string) :
  well_formed_tree (Directory entries1) ->
  (forall x, ~ ignored x -> (x ∈ map fst entries1 <-> x ∈ map fst entries2)) ->
  (forall x n1 n2, ~ ignored x -> stat x entries1 = Some n1 -> stat x entries2 = Some n2 ->
                   n1 = n2 \/ same_kind n1 n2 = false \/ same_signature n1 n2 = true) ->
  _are_directories_identical re_match dir1 (Directory entries1) dir2 (Directory entries2)
    exclude_regexp _root_dir1 _root_dir2
  = Returns true.
Proof.
  intros Hwf Hnames Hsame. rewrite identical_directories.
  destruct (match exclude_regexp with Some _ => _ | None => false end); [reflexivity|].
  cbv zeta. rewrite (proj2 (quiet_dircmp entries1 entries2)).
  2:{ split; [assumption|]. intros x c1 m1 c2 m2 Hx H1 H2.
      destruct (Hsame x _ _ Hx H1 H2) as [[= -> ->]|[Hk|Hs]]; [auto | discriminate |].
      cbn [same_signature] in Hs. apply bool_decide_eq_true in Hs.
      unfold _sig in Hs. injection Hs as Hl Hm. auto. }
  apply for_each_subdir_true. intros subdir sub1 sub2 Hin Hc Hs.
  apply elem_of_common_dirs in Hc as (Hx & l1 & l2 & Hl1 & Hl2).
  pose proof (stat_elem _ _ _ (proj1 Hwf) Hin) as Hs1.
  assert (sub1 = Directory l1) by congruence. assert (sub2 = Directory l2) by congruence.
  subst sub1 sub2.
  destruct (Hsame subdir _ _ Hx Hl1 Hl2) as [[= ->]|[Hk|Hk]]; [|discriminate..].
  eapply identical_same_tree; [eapply well_formed_entry; eauto | reflexivity].
Qed.

Lemma directories_identical_blind_spots_witness :
  _are_directories_identical (fun _ _ => false) "a.zarr" left_tree "b.zarr" right_tree
    None None None
  = Returns true /\
  (phase3 [("c.bin", RegularFile "left" 20)] [("c.bin", RegularFile "rite" 20)] ["c.bin"]).1.2
  = ["c.bin"].
Proof.
  split; [|reflexivity].
  apply (directories_identical_blind_spots (fun _ _ => false) "a.zarr" "b.zarr").
  - cbn. repeat split; apply (bool_decide_unpack _); vm_compute; exact I.
  - intros x Hx. cbn [map fst]. rewrite !elem_of_cons, !elem_of_nil.
    split; [tauto|]. intros [->|H]; [|tauto].
    destruct Hx. apply (bool_decide_unpack _). vm_compute. exact I.
  - intros x n1 n2 _. cbn [stat].
    destruct (String.eqb_spec "a.txt" x) as [<-|_];
      [cbn; intros [= <-] [= <-]; now left|].
    destruct (String.eqb_spec "c.bin" x) as [<-|_];
      [cbn; intros [= <-] [= <-]; right; right; reflexivity|].
    destruct (String.eqb_spec "data" x) as [<-|_];
      [cbn; intros [= <-] [= <-]; right; now left|].
    destruct (String.eqb_spec "sub" x) as [<-|_];
      [cbn; intros [= <-] [= <-]; now left|].
    discriminate.
Defined.

(** What a positive answer guarantees.  When the comparison, called without
    an exclusion pattern, returns [True], then along every path without an
    ignored name a regular file that both trees hold has the same size in
    both, and the same content unless the two modification times agree as
    well; and a directory that both trees hold lists the same names, the
    ignored ones apart. *)
Theorem directories_identical_sound (re_match : string -> string -> bool)
    (dir1 dir2 : string) (tree1 tree2 : node) (_root_dir1 _root_dir2 : option string)
    (path : list string) :
  _are_directories_identical re_match dir1 tree1 dir2 tree2 None _root_dir1 _root_dir2
  = Returns true ->
  Forall (fun x => ~ ignored x) path ->
  (forall content1 mtime1 content2 mtime2,
     file_at path tree1 = Some (content1, mtime1) ->
     file_at path tree2 = Some (content2, mtime2) ->
     String.length content1 = String.length content2 /\
     (mtime1 = mtime2 \/ content1 = content2)) /\
  (forall entries1 entries2,
     dir_at path tree1 = Some entries1 -> dir_at path tree2 = Some entries2 ->
     forall x, ~ ignored x -> (x ∈ map fst entries1 <-> x ∈ map fst entries2)).
Proof.
  revert dir1 dir2 tree1 tree2 _root_dir1 _root_dir2.
  induction path as [|x path IH]; intros dir1 dir2 tree1 tree2 r1 r2 Hrun Hpath.
  all: destruct tree1 as [c1 m1|entries1]; [cbn in Hrun; discriminate|].
  all: destruct tree2 as [c2 m2|entries2]; [cbn in Hrun; discriminate|].
  all: rewrite identical_directories in Hrun; cbv zeta in Hrun.
  all: destruct (truthy _ || truthy _ || truthy _ || truthy _) eqn:Hquiet; [discriminate|].
  all: apply quiet_dircmp in Hquiet as [Hnames Hfiles].
  - split; [discriminate|]. cbn [dir_at]. intros ? ? [= <-] [= <-]. exact Hnames.
  - apply Forall_cons in Hpath as [Hx Hpath].
    assert (Hsub : forall l1 l2, stat x entries1 = Some (Directory l1) ->
              stat x entries2 = Some (Directory l2) ->
              _are_directories_identical re_match (os_path_join dir1 x) (Directory l1)
                (os_path_join dir2 x) (Directory l2) None
                (Some (default dir1 r1)) (Some (default dir2 r2)) = Returns true).
    { intros l1 l2 H1 H2.
      apply (proj1 (for_each_subdir_true _ _ _ _) Hrun x (Directory l1) (Directory l2)).
      - now apply stat_Some_elem.
      - apply elem_of_common_dirs. eauto.
      - assumption. }
    cbn [file_at dir_at].
    destruct (stat x entries1) as [[c1 m1|l1]|] eqn:H1;
      destruct (stat x entries2) as [[c2 m2|l2]|] eqn:H2.
    all: try solve [split; [intros ? ? ? ? E1 E2 | intros ? ? E1 E2]; destruct path;
                    cbn in E1, E2; try discriminate;
                    injection E1 as <- <-; injection E2 as <- <-; eauto].
    exact (IH _ _ _ _ _ _ (Hsub l1 l2 eq_refl eq_refl) Hpath).
Qed.

Lemma directories_identical_sound_witness :
  (forall content1 mtime1 content2 mtime2,
     file_at ["sub"; "b.txt"] left_tree = Some (content1, mtime1) ->
     file_at ["sub"; "b.txt"] right_tree = Some (content2, mtime2) ->
     String.length content1 = String.length content2 /\
     (mtime1 = mtime2 \/ content1 = content2)) /\
  (forall entries1 entries2,
     dir_at ["sub"; "b.txt"] left_tree = Some entries1 ->
     dir_at ["sub"; "b.txt"] right_tree = Some entries2 ->
     forall x, ~ ignored x -> (x ∈ map fst entries1 <-> x ∈ map fst entries2)).
Proof.
  apply (directories_identical_sound (fun _ _ => false) "a.zarr" "b.zarr"
           left_tree right_tree None None).
  - vm_compute. reflexivity.
  - repeat constructor; intros H; apply (bool_decide_pack _) in H; vm_compute in H;
      exact H.
Defined.
